(** * i18n-adapt: the translation pipeline and the React resource merge

    A shallow embedding of [lib/languages/processors.js] (batching, the
    Gemini client, classification, key derivation, [translateStrings]) and
    of [updateTranslations] of [lib/frameworks/react.js], the two modules
    [lib/index.js] drives. Line numbers are those of the two files.

    Conventions of the embedding:
    - a JavaScript string is a [string] of ASCII characters; on such text
      [toLowerCase], [includes], [length], [substring] and [replace] are
      the functions below;
    - a JavaScript value that can reach the pipeline (a parsed provider
      answer, a translation table) is a [JsValue]; an object is the list
      of its own properties in the order [Object.keys] returns them;
    - asynchronous, effectful code is written in state-passing style and
      returns an [Outcome]: a value, a thrown error, or no answer within
      the fuel given to a loop. *)

From Stdlib Require Import String Ascii List Arith Bool NArith Lia.
From Stdlib Require Import DecimalString.
Import ListNotations.
Open Scope list_scope.
Open Scope string_scope.
Open Scope nat_scope.
Set Warnings "-register-all".

(** ** JavaScript strings *)

Module JsString.

Definition code (c : ascii) : nat := nat_of_ascii c.

Definition is_upper (c : ascii) : bool := (65 <=? code c) && (code c <=? 90).
Definition is_lower (c : ascii) : bool := (97 <=? code c) && (code c <=? 122).
Definition is_digit (c : ascii) : bool := (48 <=? code c) && (code c <=? 57).
Definition is_alnum (c : ascii) : bool := is_upper c || is_lower c || is_digit c.

(** The ASCII characters the regular-expression class [\s] accepts. *)
Definition is_space (c : ascii) : bool :=
  ((9 <=? code c) && (code c <=? 13)) || (code c =? 32).

Definition lower_char (c : ascii) : ascii :=
  if is_upper c then ascii_of_nat (code c + 32) else c.
Definition upper_char (c : ascii) : ascii :=
  if is_lower c then ascii_of_nat (code c - 32) else c.

Fixpoint map_chars (f : ascii -> ascii) (s : string) : string :=
  match s with
  | EmptyString => EmptyString
  | String c t => String (f c) (map_chars f t)
  end.

Definition toLowerCase (s : string) : string := map_chars lower_char s.

Definition char (n : nat) : string := String (ascii_of_nat n) EmptyString.
(** Characters that cannot be written inside a literal. *)
Definition dquote : string := char 34.
Definition backslash : string := char 92.
Definition newline : string := char 10.

(** [s.includes(pat)] *)
Fixpoint includes (s pat : string) : bool :=
  prefix pat s ||
  match s with
  | EmptyString => false
  | String _ t => includes t pat
  end.

(** [s.indexOf(pat)], [None] for -1. *)
Fixpoint indexOf (s pat : string) : option nat :=
  if prefix pat s then Some 0
  else match s with
       | EmptyString => None
       | String _ t => option_map S (indexOf t pat)
       end.

Fixpoint take (n : nat) (s : string) : string :=
  match n, s with
  | S n', String c t => String c (take n' t)
  | _, _ => EmptyString
  end.

Fixpoint drop (n : nat) (s : string) : string :=
  match n, s with
  | S n', String _ t => drop n' t
  | _, _ => s
  end.

(** [s.replace(pat, '')] with a string pattern: the first occurrence of
    [pat] is removed, and [s] is returned as it is when there is none. *)
Definition remove_first (pat s : string) : string :=
  match indexOf s pat with
  | Some i => take i s ++ drop (i + String.length pat) s
  | None => s
  end.

Fixpoint join (sep : string) (l : list string) : string :=
  match l with
  | [] => ""
  | [x] => x
  | x :: rest => x ++ sep ++ join sep rest
  end.

Fixpoint forall_chars (p : ascii -> bool) (s : string) : bool :=
  match s with
  | EmptyString => true
  | String c t => p c && forall_chars p t
  end.

(** [String(n)] for a non-negative integer. *)
Definition decimal (n : N) : string := NilZero.string_of_uint (N.to_uint n).

End JsString.
Import JsString.

(** ** JavaScript values and objects *)

Module Json.

(** The values a JSON text denotes. A number carries its decimal text. *)
Inductive JsValue : Type :=
| JNull
| JBool (b : bool)
| JNum (repr : string)
| JStr (s : string)
| JArr (items : list JsValue)
| JObj (props : list (string * JsValue)).

Definition Props : Type := list (string * JsValue).

(** An array index in the sense of the language: the canonical decimal
    text of an integer below 2^32 - 1. Such keys come first, in numeric
    order, when the properties of an object are listed. *)
Fixpoint digits_value (acc : N) (s : string) : N :=
  match s with
  | EmptyString => acc
  | String c t => digits_value (acc * 10 + N.of_nat (code c - 48)) t
  end.

Definition is_array_index (k : string) : bool :=
  match k with
  | EmptyString => false
  | String c t =>
      forall_chars is_digit k
      && (negb (code c =? 48) || (String.length t =? 0))
      && (String.length k <=? 10)
      && N.ltb (digits_value 0 k) 4294967295
  end.

Fixpoint obj_get (k : string) (o : Props) : option JsValue :=
  match o with
  | [] => None
  | (k', v) :: rest => if String.eqb k' k then Some v else obj_get k rest
  end.

Fixpoint obj_replace (k : string) (v : JsValue) (o : Props) : Props :=
  match o with
  | [] => []
  | (k', v') :: rest =>
      if String.eqb k' k then (k, v) :: rest else (k', v') :: obj_replace k v rest
  end.

Fixpoint obj_insert_index (k : string) (v : JsValue) (o : Props) : Props :=
  match o with
  | [] => [(k, v)]
  | (k', v') :: rest =>
      if is_array_index k' && N.ltb (digits_value 0 k') (digits_value 0 k)
      then (k', v') :: obj_insert_index k v rest
      else (k, v) :: (k', v') :: rest
  end.

(** [o[k] = v] on an ordinary object: an existing property keeps its
    place, a new array index is filed among the indices, any other new
    key goes last. *)
Definition obj_set (k : string) (v : JsValue) (o : Props) : Props :=
  match obj_get k o with
  | Some _ => obj_replace k v o
  | None => if is_array_index k then obj_insert_index k v o else (o ++ [(k, v)])%list
  end.

Definition obj_keys (o : Props) : list string := map fst o.

(** The own enumerable properties a spread [{...v}] copies. *)
Fixpoint indexed (i : nat) (l : list JsValue) : Props :=
  match l with
  | [] => []
  | x :: rest => (decimal (N.of_nat i), x) :: indexed (S i) rest
  end.

Fixpoint chars_of (s : string) : list JsValue :=
  match s with
  | EmptyString => []
  | String c t => JStr (String c EmptyString) :: chars_of t
  end.

Definition own_props (v : JsValue) : Props :=
  match v with
  | JObj props => props
  | JArr items => indexed 0 items
  | JStr s => indexed 0 (chars_of s)
  | _ => []
  end.

(** [{...target, ...v}] once [target] has been copied. *)
Definition spread (target : Props) (v : JsValue) : Props :=
  fold_left (fun acc kv => obj_set (fst kv) (snd kv) acc) (own_props v) target.

(** What [results.push(...v)] appends: the elements [v] iterates over, or
    nothing at all when [v] is not iterable (a TypeError). *)
Definition iterate (v : JsValue) : option (list JsValue) :=
  match v with
  | JArr items => Some items
  | JStr s => Some (chars_of s)
  | _ => None
  end.

Definition truthy (v : JsValue) : bool :=
  match v with
  | JNull => false
  | JBool b => b
  | JNum r => negb (String.eqb r "0")
  | JStr s => negb (String.eqb s "")
  | _ => true
  end.

(** *** JSON.stringify *)

Definition hex_digit (n : nat) : string :=
  char (if n <? 10 then 48 + n else 87 + n).

Definition quote_char (c : ascii) : string :=
  let n := code c in
  if n =? 34 then backslash ++ dquote
  else if n =? 92 then backslash ++ backslash
  else if n =? 8 then backslash ++ "b"
  else if n =? 12 then backslash ++ "f"
  else if n =? 10 then backslash ++ "n"
  else if n =? 13 then backslash ++ "r"
  else if n =? 9 then backslash ++ "t"
  else if n <? 32 then backslash ++ "u00" ++ hex_digit (n / 16) ++ hex_digit (n mod 16)
  else String c EmptyString.

Fixpoint quote_body (s : string) : string :=
  match s with
  | EmptyString => EmptyString
  | String c t => quote_char c ++ quote_body t
  end.

Definition quote (s : string) : string := dquote ++ quote_body s ++ dquote.

(** [JSON.stringify(texts)] for an array of strings, no indentation. *)
Definition stringify_texts (texts : list string) : string :=
  "[" ++ join "," (map quote texts) ++ "]".

(** [JSON.stringify(v, null, 2)] below the indentation [indent]. *)
Fixpoint stringify_at (indent : string) (v : JsValue) : string :=
  let inner := indent ++ "  " in
  let sep := "," ++ newline ++ inner in
  match v with
  | JNull => "null"
  | JBool true => "true"
  | JBool false => "false"
  | JNum r => r
  | JStr s => quote s
  | JArr [] => "[]"
  | JArr items =>
      "[" ++ newline ++ inner
      ++ join sep (map (stringify_at inner) items)
      ++ newline ++ indent ++ "]"
  | JObj [] => "{}"
  | JObj props =>
      "{" ++ newline ++ inner
      ++ join sep (map (fun kv => match kv with
                                  | (k, x) => quote k ++ ": " ++ stringify_at inner x
                                  end) props)
      ++ newline ++ indent ++ "}"
  end.

Definition stringify (v : JsValue) : string := stringify_at "" v.

(** *** A reference reader for JSON texts

    [parse_json] reads the JSON texts made of strings (without [\u]
    escapes), arrays, objects and the literals [true], [false] and
    [null]. It stands in for [JSON.parse] where a concrete provider
    answer is evaluated; the pipeline itself takes the parser as a
    parameter. *)

Fixpoint skip_json_ws (s : string) : string :=
  match s with
  | String c t =>
      if (code c =? 32) || (code c =? 9) || (code c =? 10) || (code c =? 13)
      then skip_json_ws t else s
  | EmptyString => s
  end.

Definition unescape (c : ascii) : option ascii :=
  let n := code c in
  if (n =? 34) || (n =? 92) || (n =? 47) then Some c
  else if n =? 98 then Some (ascii_of_nat 8)
  else if n =? 102 then Some (ascii_of_nat 12)
  else if n =? 110 then Some (ascii_of_nat 10)
  else if n =? 114 then Some (ascii_of_nat 13)
  else if n =? 116 then Some (ascii_of_nat 9)
  else None.

(** The rest of a string literal whose opening quote has been read. *)
Fixpoint parse_string_body (s : string) : option (string * string) :=
  match s with
  | EmptyString => None
  | String c t =>
      if code c =? 34 then Some (EmptyString, t)
      else if code c =? 92 then
        match t with
        | String e t' =>
            match unescape e, parse_string_body t' with
            | Some ch, Some (r, rest) => Some (String ch r, rest)
            | _, _ => None
            end
        | EmptyString => None
        end
      else if code c <? 32 then None
      else match parse_string_body t with
           | Some (r, rest) => Some (String c r, rest)
           | None => None
           end
  end.

Fixpoint parse_value (fuel : nat) (s : string) : option (JsValue * string) :=
  match fuel with
  | 0 => None
  | S fuel' =>
      match skip_json_ws s with
      | EmptyString => None
      | String c t as s1 =>
          if code c =? 34 then
            match parse_string_body t with
            | Some (r, rest) => Some (JStr r, rest)
            | None => None
            end
          else if code c =? 91 then
            if prefix "]" (skip_json_ws t)
            then Some (JArr [], drop 1 (skip_json_ws t))
            else match parse_items fuel' t with
                 | Some (vs, rest) => Some (JArr vs, rest)
                 | None => None
                 end
          else if code c =? 123 then
            if prefix "}" (skip_json_ws t)
            then Some (JObj [], drop 1 (skip_json_ws t))
            else match parse_members fuel' t with
                 | Some (ms, rest) =>
                     Some (JObj (fold_left (fun o kv => obj_set (fst kv) (snd kv) o) ms []),
                           rest)
                 | None => None
                 end
          else if prefix "true" s1 then Some (JBool true, drop 4 s1)
          else if prefix "false" s1 then Some (JBool false, drop 5 s1)
          else if prefix "null" s1 then Some (JNull, drop 4 s1)
          else None
      end
  end
with parse_items (fuel : nat) (s : string) : option (list JsValue * string) :=
  match fuel with
  | 0 => None
  | S fuel' =>
      match parse_value fuel' s with
      | Some (v, rest) =>
          let rest1 := skip_json_ws rest in
          if prefix "," rest1 then
            match parse_items fuel' (drop 1 rest1) with
            | Some (vs, rest') => Some (v :: vs, rest')
            | None => None
            end
          else if prefix "]" rest1 then Some ([v], drop 1 rest1)
          else None
      | None => None
      end
  end
with parse_members (fuel : nat) (s : string) : option (Props * string) :=
  match fuel with
  | 0 => None
  | S fuel' =>
      match skip_json_ws s with
      | String c t =>
          if code c =? 34 then
            match parse_string_body t with
            | Some (k, rest) =>
                let rest1 := skip_json_ws rest in
                if prefix ":" rest1 then
                  match parse_value fuel' (drop 1 rest1) with
                  | Some (v, rest2) =>
                      let rest3 := skip_json_ws rest2 in
                      if prefix "," rest3 then
                        match parse_members fuel' (drop 1 rest3) with
                        | Some (ms, rest') => Some ((k, v) :: ms, rest')
                        | None => None
                        end
                      else if prefix "}" rest3 then Some ([(k, v)], drop 1 rest3)
                      else None
                  | None => None
                  end
                else None
            | None => None
            end
          else None
      | EmptyString => None
      end
  end.

Definition parse_json (s : string) : option JsValue :=
  match parse_value (2 * String.length s + 2) s with
  | Some (v, rest) =>
      match skip_json_ws rest with
      | EmptyString => Some v
      | _ => None
      end
  | None => None
  end.

End Json.
Import Json.

(** ** Errors and outcomes *)

Module Effects.

(** A thrown value: an [Error] built by the program with its message, or
    one of the errors the engine raises. *)
Inductive JsError : Type :=
| Error (message : string)
| TypeError
| SyntaxError.

(** How a call ends: it returns, it throws, or the loop it runs has not
    finished within its fuel. *)
Inductive Outcome (A : Type) : Type :=
| Ok (a : A)
| Throw (e : JsError)
| Hang.

Arguments Ok {A} a.
Arguments Throw {A} e.
Arguments Hang {A}.

End Effects.
Import Effects.

(** ** lib/languages/processors.js *)

Module Processors.

(** *** processBatches *)

Definition default_batchSize : nat := 15.
Definition default_delayMs : nat := 2000.

Section Batches.

Context {A W : Type}.
(** [await new Promise(resolve => setTimeout(resolve, ms))] as an effect
    on the world [W] the calls run in. *)
Variable sleep : nat -> W -> W.
Variable items : list A.
Variable processFn : list A -> W -> W * Outcome JsValue.
Variable batchSize : nat.
Variable delayMs : nat.

(** [items.slice(i, j)] *)
Definition slice (i j : nat) (l : list A) : list A := firstn (j - i) (skipn i l).

(** The [for] loop of lines 9-24, entered with the counter at [i]. *)
Fixpoint processBatches_loop (fuel i : nat) (results : list JsValue) (w : W)
  : W * Outcome (list JsValue) :=
  match fuel with
  | 0 => (w, Hang)
  | S fuel' =>
      if i <? length items then
        let batch := slice i (i + batchSize) items in
        match processFn batch w with
        | (w1, Ok batchResults) =>
            match iterate batchResults with
            | Some vs =>
                let w2 := if i + batchSize <? length items then sleep delayMs w1 else w1 in
                processBatches_loop fuel' (i + batchSize) (results ++ vs)%list w2
            | None => (w1, Throw TypeError)
            end
        | (w1, Throw err) => (w1, Throw err)
        | (w1, Hang) => (w1, Hang)
        end
      else (w, Ok results)
  end.

End Batches.

Definition processBatches {A W : Type} (sleep : nat -> W -> W) (items : list A)
    (processFn : list A -> W -> W * Outcome JsValue)
    (batchSize delayMs : option nat) (w : W) : W * Outcome (list JsValue) :=
  let batchSize := match batchSize with Some b => b | None => default_batchSize end in
  let delayMs := match delayMs with Some d => d | None => default_delayMs end in
  processBatches_loop sleep items processFn batchSize delayMs (S (length items)) 0 [] w.

(** *** The provider *)

(** What the pipeline does to the outside: a request posted to the
    provider and a pause between two batches. *)
Inductive Event : Type :=
| Post (url prompt : string)
| Sleep (ms : nat).

Definition World : Type := list Event.

Definition sleep (ms : nat) (w : World) : World := (w ++ [Sleep ms])%list.

(** What [axios.post] comes back with. A candidate is the text found at
    [content.parts[0].text], or [None] when that path cannot be read. *)
Inductive HttpReply : Type :=
| Reply (candidates : option (list (option string)))
| HttpFailure (status : N) (detail : string)
| NetFailure (err : JsError).

Definition langNameMap : list (string * string) :=
  [ ("es", "Spanish"); ("zh", "Chinese (Simplified)"); ("hi", "Hindi");
    ("fr", "French"); ("de", "German"); ("ja", "Japanese"); ("ko", "Korean");
    ("pt", "Portuguese"); ("ru", "Russian"); ("ar", "Arabic") ].

Fixpoint assoc (k : string) (l : list (string * string)) : option string :=
  match l with
  | [] => None
  | (k', v) :: rest => if String.eqb k' k then Some v else assoc k rest
  end.

Definition langName (targetLang : string) : string :=
  match assoc targetLang langNameMap with
  | Some n => n
  | None => "Spanish"
  end.

Definition prompt_for (texts : list string) (targetLang : string) : string :=
  "Translate the following English phrases to " ++ langName targetLang ++ ". " ++ newline
  ++ "Return only the translations as a JSON array in the exact same order, with no additional text or explanation."
  ++ newline
  ++ "Example: [" ++ dquote ++ "translation1" ++ dquote ++ ", "
  ++ dquote ++ "translation2" ++ dquote ++ ", ...]" ++ newline
  ++ newline
  ++ "Phrases to translate:" ++ newline
  ++ stringify_texts texts.

Definition endpoint (apiKey : string) : string :=
  "https://generativelanguage.googleapis.com/v1beta/models/gemini-2.0-flash:generateContent?key="
  ++ apiKey.

Fixpoint lastIndexOf (s pat : string) : option nat :=
  match s with
  | EmptyString => if prefix pat s then Some 0 else None
  | String _ t =>
      match lastIndexOf t pat with
      | Some i => Some (S i)
      | None => if prefix pat s then Some 0 else None
      end
  end.

(** The [responseText.match] of line 85: an opening bracket, a greedy
    group of any characters, a closing bracket. The result is the group,
    when the text has an opening bracket and a closing one after it; being
    greedy, the group runs from the first opening bracket to the last
    closing one. *)
Definition match_brackets (responseText : string) : option string :=
  match indexOf responseText "[" with
  | Some i =>
      let rest := drop (S i) responseText in
      match lastIndexOf rest "]" with
      | Some j => Some (take j rest)
      | None => None
      end
  | None => None
  end.

(** The text handed to [JSON.parse] (lines 85-91). *)
Definition parse_input (responseText : string) : string :=
  match match_brackets responseText with
  | Some group => "[" ++ group ++ "]"
  | None => responseText
  end.

Section Provider.

(** The network: the reply to a request, given what happened before. *)
Variable net : World -> string -> string -> HttpReply.
(** [JSON.parse]: the value of a text, [None] for a SyntaxError. *)
Variable JSON_parse : string -> option JsValue.

Definition translateWithGemini (texts : list string) (targetLang apiKey : string)
    (w : World) : World * Outcome JsValue :=
  match texts with
  | [] => (w, Ok (JArr []))
  | _ =>
      let prompt := prompt_for texts targetLang in
      let url := endpoint apiKey in
      let w1 := (w ++ [Post url prompt])%list in
      match net w url prompt with
      | Reply (Some (Some responseText :: _)) =>
          match JSON_parse (parse_input responseText) with
          | Some v => (w1, Ok v)
          | None => (w1, Throw SyntaxError)
          end
      | Reply (Some (None :: _)) => (w1, Throw TypeError)
      | Reply _ => (w1, Throw (Error "Unexpected response format from Gemini API"))
      | HttpFailure status detail =>
          (w1, Throw (Error ("Gemini API error: " ++ decimal status ++ " - " ++ detail)))
      | NetFailure err => (w1, Throw err)
      end
  end.

Definition translateWithGoogle (texts : list string) (targetLang apiKey : string)
    (w : World) : World * Outcome JsValue :=
  (w, Throw (Error "Google Translate backup not implemented")).

End Provider.

(** *** Classification *)

Inductive Namespace : Type :=
| common | navigation | components | messages | forms | errors.

Definition namespace_name (n : Namespace) : string :=
  match n with
  | common => "common"
  | navigation => "navigation"
  | components => "components"
  | messages => "messages"
  | forms => "forms"
  | errors => "errors"
  end.

Definition namespace_eqb (a b : Namespace) : bool :=
  String.eqb (namespace_name a) (namespace_name b).

(** [Object.keys(namespaces)]: the order of the literal of lines 118-125. *)
Definition all_namespaces : list Namespace :=
  [common; navigation; components; messages; forms; errors].

(** The chain of conditions of lines 130-145, for one string. *)
Definition classify (str : string) : Namespace :=
  let lowerStr := toLowerCase str in
  if includes lowerStr "error" || includes lowerStr "fail" || includes lowerStr "invalid"
  then errors
  else if includes lowerStr "home" || includes lowerStr "about" || includes lowerStr "contact"
  then navigation
  else if includes lowerStr "submit" || includes lowerStr "cancel" || includes lowerStr "save"
  then forms
  else if includes lowerStr "loading" || includes lowerStr "success" || includes lowerStr "warning"
  then messages
  else if String.length str <? 20 then common
  else components.

Definition Buckets : Type := Namespace -> list string.

Definition no_buckets : Buckets := fun _ => [].

Definition push (n : Namespace) (str : string) (b : Buckets) : Buckets :=
  fun m => if namespace_eqb m n then (b m ++ [str])%list else b m.

(** [strings.forEach(str => ...)] of lines 128-146. *)
Definition categorize (strings : list string) : Buckets :=
  fold_left (fun b str => push (classify str) str b) strings no_buckets.

(** Lines 149-159: [indexMap], whose second components are [allStrings]. *)
Definition flatten (namespaces : Buckets) : list (Namespace * string) :=
  flat_map (fun n => map (fun str => (n, str)) (namespaces n)) all_namespaces.

(** *** Key derivation *)

(** Modelled from the spec: lodash is a dependency of the repository and
    the source of [_.camelCase] is not part of it. Section 4.4 describes
    the conversion: the text is cut into words at runs of characters that
    are not alphanumeric, the first word is lower-cased and each later word
    is capitalized. [split_words cur s] cuts [s] into its words, [cur]
    being the word read so far. *)
Fixpoint split_words (cur : string) (s : string) : list string :=
  match s with
  | EmptyString => if String.eqb cur "" then [] else [cur]
  | String c t =>
      if is_alnum c then split_words (cur ++ String c EmptyString) t
      else if String.eqb cur "" then split_words "" t
      else cur :: split_words "" t
  end.

(** Modelled from the spec: a capitalized word, the first letter in upper
    case and the rest in lower case (lodash's [capitalize] is missing as
    [_.camelCase] is). *)
Definition capitalize (w : string) : string :=
  match w with
  | EmptyString => EmptyString
  | String c t => String (upper_char c) (toLowerCase t)
  end.

(** Modelled from the spec: the words joined, the first lower-cased and
    the later ones capitalized (the joining step of the missing
    [_.camelCase]). *)
Definition camel_join (ws : list string) : string :=
  match ws with
  | [] => ""
  | w :: rest => toLowerCase w ++ String.concat "" (map capitalize rest)
  end.

(** Modelled from the spec: [_.camelCase], missing from the repository,
    as section 4.4 describes it. *)
Definition camelCase (s : string) : string := camel_join (split_words "" s).

(** Line 189: [_.camelCase(original.substring(0, 30))]. *)
Definition deriveKey (original : string) : string :=
  camelCase (substring 0 30 original).

(** *** translateStrings *)

(** One step of [translations.forEach((translation, idx) => ...)]. *)
Definition regroup_step (indexMap : list (Namespace * string)) (translation : JsValue)
    (idx : nat) (translatedObject : Props) : Outcome Props :=
  match nth_error indexMap idx with
  | None => Throw TypeError
  | Some (namespace, original) =>
      let name := namespace_name namespace in
      let o1 := match obj_get name translatedObject with
                | Some _ => translatedObject
                | None => obj_set name (JObj []) translatedObject
                end in
      let key := deriveKey original in
      Ok (obj_set name (JObj (obj_set key translation (own_props
            (match obj_get name o1 with Some x => x | None => JNull end)))) o1)
  end.

Fixpoint regroup (indexMap : list (Namespace * string)) (translations : list JsValue)
    (idx : nat) (translatedObject : Props) : Outcome Props :=
  match translations with
  | [] => Ok translatedObject
  | translation :: rest =>
      match regroup_step indexMap translation idx translatedObject with
      | Ok o => regroup indexMap rest (S idx) o
      | other => other
      end
  end.

Section Translate.

Variable net : World -> string -> string -> HttpReply.
Variable JSON_parse : string -> option JsValue.

Definition translateStrings (strings : option (list string)) (targetLang apiKey : string)
    (service : option string) (w : World) : World * Outcome JsValue :=
  match strings with
  | None | Some [] => (w, Ok (JObj []))
  | Some strs =>
      let indexMap := flatten (categorize strs) in
      let allStrings := map snd indexMap in
      let service := match service with Some s => s | None => "gemini" end in
      let translated :=
        if String.eqb service "gemini" then
          processBatches sleep allStrings
            (fun batch => translateWithGemini net JSON_parse batch targetLang apiKey)
            None None w
        else if String.eqb service "google" then
          processBatches sleep allStrings
            (fun batch => translateWithGoogle batch targetLang apiKey)
            None None w
        else (w, Throw (Error ("Unsupported translation service: " ++ service))) in
      match translated with
      | (w1, Ok translations) =>
          match regroup indexMap translations 0 [] with
          | Ok translatedObject => (w1, Ok (JObj translatedObject))
          | Throw err => (w1, Throw err)
          | Hang => (w1, Hang)
          end
      | (w1, Throw err) => (w1, Throw err)
      | (w1, Hang) => (w1, Hang)
      end
  end.

End Translate.

End Processors.
Import Processors.

(** ** lib/frameworks/react.js: updateTranslations *)

Module ReactAdapter.

(** *** The regular expression of line 205

    [const], blanks, [<language>Translations], optional blanks, [=],
    optional blanks, an opening brace, as few characters as possible, and
    the first [};] that follows. The language code is taken as it is
    written into the expression: it is a code without characters that are
    special in a regular expression. *)

Record Match : Type := mkMatch { before : string; matched : string; after : string }.

Fixpoint skip_spaces (s : string) : string :=
  match s with
  | String c t => if is_space c then skip_spaces t else s
  | EmptyString => s
  end.

Definition strip_prefix (p s : string) : option string :=
  if prefix p s then Some (drop (String.length p) s) else None.

(** The expression up to its opening brace, read at the start of [s]:
    what follows the brace. *)
Definition match_head (language s : string) : option string :=
  match strip_prefix "const" s with
  | Some s1 =>
      let s2 := skip_spaces s1 in
      if String.length s2 <? String.length s1 then
        match strip_prefix (language ++ "Translations") s2 with
        | Some s3 =>
            match strip_prefix "=" (skip_spaces s3) with
            | Some s4 => strip_prefix "{" (skip_spaces s4)
            | None => None
            end
        | None => None
        end
      else None
  | None => None
  end.

(** The length of the match that starts at the start of [s]. *)
Definition match_here (language s : string) : option nat :=
  match match_head language s with
  | Some rest =>
      match indexOf rest "};" with
      | Some j => Some (String.length s - String.length rest + j + 2)
      | None => None
      end
  | None => None
  end.

(** The leftmost match in [s], which follows [done] in the whole text. *)
Fixpoint exec_from (language : string) (done s : string) : option Match :=
  match match_here language s with
  | Some n => Some (mkMatch done (take n s) (drop n s))
  | None =>
      match s with
      | EmptyString => None
      | String c t => exec_from language (done ++ String c EmptyString) t
      end
  end.

Definition langRegex_exec (language content : string) : option Match :=
  exec_from language "" content.

(** The text a replacement string stands for when the expression has no
    group: [$$] is a dollar sign, [$&] the match, [$`] the text before
    it and [$'] the text after it; anything else stands for itself. *)
Fixpoint expand (m : Match) (template : string) : string :=
  match template with
  | EmptyString => EmptyString
  | String c t =>
      if code c =? 36 then
        match t with
        | String d t' =>
            if code d =? 36 then String c (expand m t')
            else if code d =? 38 then matched m ++ expand m t'
            else if code d =? 96 then before m ++ expand m t'
            else if code d =? 39 then after m ++ expand m t'
            else String c (expand m t)
        | EmptyString => String c EmptyString
        end
      else String c (expand m t)
  end.

(** [content.replace(langRegex, template)] where [m] is the match. *)
Definition replace_match (m : Match) (template : string) : string :=
  before m ++ expand m template ++ after m.

(** *** The file system *)

Inductive IoOp : Type :=
| Copied (src dst : string)
| Written (path : string).

Record Disk : Type := mkDisk {
  files : string -> option string;
  journal : list IoOp
}.

Definition store (path content : string) (f : string -> option string)
  : string -> option string :=
  fun p => if String.eqb p path then Some content else f p.

Definition leave (path : string) (residue : option string) (f : string -> option string)
  : string -> option string :=
  match residue with
  | Some r => store path r f
  | None => f
  end.

(** What the outside decides during one call: the clock, and whether the
    read, the copy and the write go through. A copy or a write that fails
    may leave something at its destination. *)
Record Env : Type := mkEnv {
  now : N;
  read_error : option JsError;
  copy_error : option (JsError * option string);
  write_error : option (JsError * option string)
}.

Record Structure : Type := mkStructure { i18nFile : string }.

Definition declaration (language : string) (value : JsValue) : string :=
  "const " ++ language ++ "Translations = " ++ stringify value ++ ";".

(** Lines 225-231. *)
Definition mergeTranslations (existingTranslations : JsValue) (translations : Props) : Props :=
  fold_left
    (fun mergedTranslations namespace =>
       let current := match obj_get namespace mergedTranslations with
                      | Some v => if truthy v then v else JObj []
                      | None => JObj []
                      end in
       let fresh := match obj_get namespace translations with
                    | Some v => v
                    | None => JNull
                    end in
       obj_set namespace (JObj (spread (spread [] current) fresh)) mergedTranslations)
    (obj_keys translations)
    (spread [] existingTranslations).

Definition backupPath_of (file : string) (now : N) : string :=
  file ++ ".backup-" ++ decimal now.

Section Adapter.

(** [new Function(body)()]: the value the body returns, [None] when
    building or running the function throws. *)
Variable js_eval : string -> option JsValue.
(** The text of lines 249-258, written when the file declares no
    translations for the language yet. *)
Variable insertLanguage : string -> string -> Props -> string.
Variable env : Env.

Definition eval_body (language : string) (m : Match) : string :=
  "return " ++ remove_first ("const " ++ language ++ "Translations =") (matched m).

(** Lines 205-259: the text to write. *)
Definition updatedContent (content language : string) (translations : Props)
    (forceAll : bool) : string :=
  match langRegex_exec language content with
  | Some m =>
      if forceAll then replace_match m (declaration language (JObj translations))
      else
        match js_eval (eval_body language m) with
        | Some existingTranslations =>
            replace_match m
              (declaration language
                 (JObj (mergeTranslations existingTranslations translations)))
        | None => replace_match m (declaration language (JObj translations))
        end
  | None => insertLanguage content language translations
  end.

Definition updateTranslations (structure : Structure) (translations : Props)
    (language : string) (forceAll : bool) (d : Disk) : Disk * Outcome bool :=
  let file := i18nFile structure in
  match files d file with
  | None => (d, Throw (Error ("i18n file not found: " ++ file)))
  | Some content =>
      match read_error env with
      | Some err => (d, Throw err)
      | None =>
          let updated := updatedContent content language translations forceAll in
          let backupPath := backupPath_of file (now env) in
          match copy_error env with
          | Some (err, residue) =>
              (mkDisk (leave backupPath residue (files d)) (journal d), Throw err)
          | None =>
              let d1 := mkDisk (store backupPath content (files d))
                               (journal d ++ [Copied file backupPath])%list in
              match write_error env with
              | Some (err, residue) =>
                  (mkDisk (leave file residue (files d1)) (journal d1), Throw err)
              | None =>
                  (mkDisk (store file updated (files d1))
                          (journal d1 ++ [Written file])%list,
                   Ok true)
              end
          end
      end
  end.

End Adapter.

End ReactAdapter.
Import ReactAdapter.

(** ** Reference notions the properties are stated with *)

Module Reference.

Section Chunks.

Context {A : Type}.

(** The contiguous chunks of [l], [B] elements at a time. *)
Fixpoint chunks_upto (fuel B : nat) (l : list A) : list (list A) :=
  match fuel with
  | 0 => []
  | S fuel' =>
      match l with
      | [] => []
      | _ :: _ => firstn B l :: chunks_upto fuel' B (skipn B l)
      end
  end.

Definition chunks (B : nat) (l : list A) : list (list A) :=
  chunks_upto (length l) B l.

(** What an observer of a batched run sees: a chunk handed to the
    per-batch function, or a pause. *)
Inductive BatchEvent : Type :=
| Invoked (chunk : list A)
| Paused (ms : nat).

Definition pause (ms : nat) (w : list BatchEvent) : list BatchEvent :=
  (w ++ [Paused ms])%list.

(** One invocation per chunk, a pause between two chunks, none at the end. *)
Fixpoint schedule (d : nat) (cs : list (list A)) : list BatchEvent :=
  match cs with
  | [] => []
  | c :: rest =>
      match rest with
      | [] => [Invoked c]
      | _ :: _ => Invoked c :: Paused d :: schedule d rest
      end
  end.

End Chunks.

Arguments BatchEvent A : clear implicits.

(** The first top-level bracketed array of a text, in the words of
    section 4.1 of the specification: from the first opening bracket to
    the bracket that closes it. [close_bracket depth s] is the length of
    the text up to and including that closing bracket. *)
Fixpoint close_bracket (depth : nat) (s : string) : option nat :=
  match s with
  | EmptyString => None
  | String c t =>
      if code c =? 91 then option_map S (close_bracket (S depth) t)
      else if code c =? 93 then
        match depth with
        | 0 => Some 1
        | S depth' => option_map S (close_bracket depth' t)
        end
      else option_map S (close_bracket depth t)
  end.

Definition first_bracketed_array (text : string) : option string :=
  match indexOf text "[" with
  | Some i =>
      match close_bracket 0 (drop (S i) text) with
      | Some n => Some ("[" ++ take n (drop (S i) text))
      | None => None
      end
  | None => None
  end.

(** A phrase written as words and the separators that follow them. *)
Fixpoint assemble (parts : list (string * string)) : string :=
  match parts with
  | [] => ""
  | (w, sep) :: rest => w ++ sep ++ assemble rest
  end.

Definition is_word (w : string) : bool :=
  negb (String.eqb w "") && forall_chars is_alnum w.

Definition is_separator (sep : string) : bool :=
  negb (String.eqb sep "") && forall_chars (fun c => negb (is_alnum c)) sep.

(** The number of key/text entries of a namespaced mapping. *)
Definition entry_count (o : Props) : nat :=
  list_sum (map (fun kv => length (own_props (snd kv))) o).

(** The rule list of section 4.3 of the specification, in its order, and
    the classifier it describes: the first rule one of whose words occurs
    in the lower-cased phrase decides; with no such rule the length does. *)
Definition rule_list : list (list string * Namespace) :=
  [ (["error"; "fail"; "invalid"], errors);
    (["home"; "about"; "contact"], navigation);
    (["submit"; "cancel"; "save"], forms);
    (["loading"; "success"; "warning"], messages) ].

Fixpoint first_match (rules : list (list string * Namespace)) (lowered : string)
  : option Namespace :=
  match rules with
  | [] => None
  | (words, n) :: rest =>
      if existsb (includes lowered) words then Some n else first_match rest lowered
  end.

(** One of [words] occurs in the phrase, letter case apart. *)
Definition mentions (phrase : string) (words : list string) : bool :=
  existsb (includes (toLowerCase phrase)) words.

Definition classify_by_rules (phrase : string) : Namespace :=
  match first_match rule_list (toLowerCase phrase) with
  | Some n => n
  | None => if String.length phrase <? 20 then common else components
  end.

(** The value lines 227-230 give a namespace of the merged object. *)
Definition merged_namespace (existing : Props) (translations : Props) (namespace : string)
  : JsValue :=
  JObj (spread (spread [] (match obj_get namespace existing with
                           | Some v => if truthy v then v else JObj []
                           | None => JObj []
                           end))
               (match obj_get namespace translations with
                | Some v => v
                | None => JNull
                end)).

End Reference.
Import Reference.

(** ** Concrete runs *)

Module Scenario.

(** A provider that answers every request with the same text. *)
Definition answering (text : string) : World -> string -> string -> HttpReply :=
  fun _ _ _ => Reply (Some [Some text]).

(** The JSON text of an array holding the one string [s]. *)
Definition one_string (s : string) : string := "[" ++ dquote ++ s ++ dquote ++ "]".

(** A per-batch function that reports its chunk and returns it as it is. *)
Definition echo (chunk : list string) (w : list (BatchEvent string))
  : list (BatchEvent string) * Outcome JsValue :=
  ((w ++ [Invoked chunk])%list, Ok (JArr (map JStr chunk))).

(** One item more than the default batch size. *)
Definition sixteen : list string :=
  ["p01"; "p02"; "p03"; "p04"; "p05"; "p06"; "p07"; "p08";
   "p09"; "p10"; "p11"; "p12"; "p13"; "p14"; "p15"; "p16"].

(** Two arrays in one answer: the first one alone is well formed, the
    client reads from the first opening bracket to the last closing one. *)
Definition two_arrays : string := one_string "a" ++ " " ++ one_string "b".

(** Blanks and tabs, which may stand between [return] and its value. *)
Fixpoint skip_blanks (s : string) : string :=
  match s with
  | String c t => if (code c =? 32) || (code c =? 9) then skip_blanks t else s
  | EmptyString => s
  end.

(** An evaluator for function bodies of the shape [return <JSON object>;].
    Where it returns a value the engine returns the same one, and the bodies
    it rejects below are bodies the engine rejects too. *)
Definition eval_json_body (body : string) : option JsValue :=
  match strip_prefix "return" body with
  | Some s =>
      let s1 := skip_blanks s in
      if prefix "{" s1 then
        match parse_value (2 * String.length s1 + 2) s1 with
        | Some (v, rest) => if String.eqb (skip_json_ws rest) ";" then Some v else None
        | None => None
        end
      else None
  | None => None
  end.

(** A stand-in for the text of lines 249-258, which no run below reaches. *)
Definition keep_content (content language : string) (translations : Props) : string :=
  content.

(** A call during which every file operation goes through, and one
    during which the copy fails and leaves a truncated backup. *)
Definition calm : Env := mkEnv 1700000000000 None None None.
Definition no_backup : Env := mkEnv 1700000000000 None (Some (Error "ENOSPC", Some "con")) None.

Definition project : Structure := mkStructure "src/i18n.js".

(** A resource file around one declaration, and a disk holding it. *)
Definition file_with (declarationText : string) : string :=
  "import i18n from 'i18next';" ++ newline ++ declarationText ++ newline
  ++ "export default i18n;" ++ newline.

Definition disk_with (content : string) : Disk :=
  mkDisk (store "src/i18n.js" content (fun _ => None)) [].

(** The objects of the examples of section 8. *)
Definition es_a_x : JsValue := JObj [("common", JObj [("a", JStr "x")])].
Definition new_b_y : Props := [("common", JObj [("b", JStr "y")])].

(** The translations a file declares for a language, read the way lines
    218-222 read them. *)
Definition read_back (language content : string) : option JsValue :=
  match langRegex_exec language content with
  | Some m => eval_json_body (eval_body language m)
  | None => None
  end.

(** The content of the resource file after a run. *)
Definition written (r : Disk * Outcome bool) : option string := files (fst r) "src/i18n.js".

(** A declaration with two blanks after [const]: the expression of line
    205 accepts it, the text of line 221 does not strip it. *)
Definition wide_declaration : string :=
  "const  esTranslations = " ++ stringify es_a_x ++ ";".


(** The match of the expression of line 205 in [file_with wide_declaration]. *)
Definition wide_match : Match :=
  mkMatch ("import i18n from 'i18next';" ++ newline)
          wide_declaration
          (newline ++ "export default i18n;" ++ newline).

(** New entries for a namespace the file has and for one it lacks. *)
Definition new_b_y_and_forms : Props :=
  [("common", JObj [("b", JStr "y")]); ("forms", JObj [("save", JStr "Guardar")])].

End Scenario.
Import Scenario.

(** ** Further notions of the pipeline *)

From Stdlib Require Import Permutation.
From Stdlib Require DecimalPos DecimalN ZArith Floats Uint63.

Module Orchestration.

Section RunChunks.

Context {A W : Type}.
Variable sleep : nat -> W -> W.
Variable processFn : list A -> W -> W * Outcome JsValue.
Variable delayMs : nat.

(** The chunks handed to the per-batch function one after the other: the
    results are appended, a pause follows every chunk but the last, and the
    first chunk that fails ends the run. *)
Fixpoint run_chunks (cs : list (list A)) (results : list JsValue) (w : W)
  : W * Outcome (list JsValue) :=
  match cs with
  | [] => (w, Ok results)
  | c :: rest =>
      match processFn c w with
      | (w1, Ok batchResults) =>
          match iterate batchResults with
          | Some vs =>
              run_chunks rest (results ++ vs)%list
                (match rest with [] => w1 | _ :: _ => sleep delayMs w1 end)
          | None => (w1, Throw TypeError)
          end
      | (w1, Throw err) => (w1, Throw err)
      | (w1, Hang) => (w1, Hang)
      end
  end.

End RunChunks.

(** A per-batch function that reports its chunk to the observer and ends
    as [outcome_of] says. *)
Definition reporting {A : Type} (outcome_of : list A -> Outcome JsValue)
    (chunk : list A) (w : list (BatchEvent A))
  : list (BatchEvent A) * Outcome JsValue :=
  ((w ++ [Invoked chunk])%list, outcome_of chunk).





(** The requests and pauses of a run over the chunks [cs]. *)
Fixpoint gemini_schedule (targetLang apiKey : string) (d : nat) (cs : list (list string))
  : World :=
  match cs with
  | [] => []
  | c :: rest =>
      Post (endpoint apiKey) (prompt_for c targetLang)
      :: match rest with
         | [] => []
         | _ :: _ => Sleep d :: gemini_schedule targetLang apiKey d rest
         end
  end.

(** Whatever happened before, the provider answers the request for
    [batch] with a text in which [JSON.parse] finds the translations [tr]
    of the phrases of the batch, in their order. *)
Definition answers_in_order (net : World -> string -> string -> HttpReply)
    (JSON_parse : string -> option JsValue) (tr : string -> JsValue)
    (targetLang apiKey : string) (batch : list string) : Prop :=
  forall history : World,
    exists text others,
      net history (endpoint apiKey) (prompt_for batch targetLang)
        = Reply (Some (Some text :: others))
      /\ JSON_parse (parse_input text) = Some (JArr (map tr batch)).

End Orchestration.
Import Orchestration.

(** ** The rest of processors.js, react.js, detector.js and index.js *)

Module Project.

(** *** analyzeTextExpansion (processors.js, lines 197-236) *)

Record Expansion : Type := mkExpansion {
  exp_source : string;
  exp_translated : string;
  exp_factor : string
}.

(** The object the function builds. [expansionFactor] is [None] while it
    is the number 1.0 the object starts with, and the text [toFixed]
    returns once it has been set. *)
Record TextAnalysis : Type := mkTextAnalysis {
  ta_language : string;
  totalOriginalLength : nat;
  totalTranslatedLength : nat;
  expansionFactor : option string;
  criticalExpansions : list Expansion
}.

(** The quotient of two lengths (lines 215 and 231). A length is an
    integer below 2^53, which a number holds as it is, and the quotient
    of two positive lengths [a] and [b] is the number nearest to [a / b]
    among those with a significand of 53 bits, the one with the even
    significand when two are as near: [significand a b / 2 ^ scale a b],
    where [scale a b] puts the significand between 2^52 and 2^53. *)
Definition scale (a b : N) : N :=
  let k := (52 + N.log2 b - N.log2 a)%N in
  if (a * 2 ^ k <? b * 2 ^ 52)%N then (k + 1)%N else k.

Definition significand (a b : N) : N :=
  let n := (a * 2 ^ scale a b)%N in
  let q := (n / b)%N in
  let r := (n mod b)%N in
  if (2 * r <? b)%N then q
  else if (b <? 2 * r)%N then (q + 1)%N
  else if N.even q then q else (q + 1)%N.

(** The numbers a quotient of two lengths can be: [Fraction m k] is
    [m / 2 ^ k]. *)
Inductive Quotient : Type :=
| NotANumber
| Infinite
| Fraction (m k : N).

(** [a / b] for two integers below 2^53. *)
Definition quotient (a b : N) : Quotient :=
  if (b =? 0)%N then (if (a =? 0)%N then NotANumber else Infinite)
  else if (a =? 0)%N then Fraction 0 0
  else Fraction (significand a b) (scale a b).

Definition divide (a b : nat) : Quotient := quotient (N.of_nat a) (N.of_nat b).

(** The same quotient as the floating-point unit computes it, to check
    [quotient] against the arithmetic the language uses. *)
Definition as_double (n : N) : PrimFloat.float :=
  PrimFloat.of_uint63 (Uint63.of_Z (BinInt.Z.of_N n)).

Definition same_quotient (a b : N) : bool :=
  match quotient a b, FloatOps.Prim2SF (PrimFloat.div (as_double a) (as_double b)) with
  | NotANumber, SpecFloat.S754_nan => true
  | Infinite, SpecFloat.S754_infinity false => true
  | Fraction m k, SpecFloat.S754_zero false => (m =? 0)%N
  | Fraction m k, SpecFloat.S754_finite false p e =>
      match e with
      | Zneg e' => (Npos p * 2 ^ k =? m * 2 ^ Npos e')%N
      | Z0 => (Npos p * 2 ^ k =? m)%N
      | Zpos e' => (Npos p * 2 ^ Npos e' * 2 ^ k =? m)%N
      end
  | _, _ => false
  end.

(** [x > 1.5] *)
Definition exceeds_1_5 (x : Quotient) : bool :=
  match x with
  | NotANumber => false
  | Infinite => true
  | Fraction m k => (3 * 2 ^ k <? 2 * m)%N
  end.

Definition two_digits (r : N) : string :=
  (if (r <? 10)%N then "0" else "") ++ decimal r.

(** [x.toFixed(2)]: the integer nearest to [100 x], the larger one when
    two are as near, written with a point before its last two digits. *)
Definition toFixed2 (x : Quotient) : string :=
  match x with
  | NotANumber => "NaN"
  | Infinite => "Infinity"
  | Fraction m k =>
      let n := ((200 * m + 2 ^ k) / 2 ^ (k + 1))%N in
      decimal (n / 100) ++ "." ++ two_digits (n mod 100)
  end.

(** The callback of [sourceStrings.forEach], lines 209-228. *)
Definition expansion_step (translatedStrings : list string) (source : string) (idx : nat)
    (analysis : TextAnalysis) : TextAnalysis :=
  match nth_error translatedStrings idx with
  | None => analysis
  | Some translated =>
      if String.eqb translated "" then analysis
      else
        let sourceLength := String.length source in
        let translatedLength := String.length translated in
        let factor := divide translatedLength sourceLength in
        mkTextAnalysis (ta_language analysis)
          (totalOriginalLength analysis + sourceLength)
          (totalTranslatedLength analysis + translatedLength)
          (expansionFactor analysis)
          (if exceeds_1_5 factor && (5 <? sourceLength)
           then (criticalExpansions analysis
                 ++ [mkExpansion source translated (toFixed2 factor)])%list
           else criticalExpansions analysis)
  end.

Fixpoint expansion_loop (translatedStrings : list string) (sourceStrings : list string)
    (idx : nat) (analysis : TextAnalysis) : TextAnalysis :=
  match sourceStrings with
  | [] => analysis
  | source :: rest =>
      expansion_loop translatedStrings rest (S idx)
        (expansion_step translatedStrings source idx analysis)
  end.

(** [None] is the empty object returned when an argument is missing. *)
Definition analyzeTextExpansion (sourceStrings translatedStrings : option (list string))
    (language : string) : option TextAnalysis :=
  match sourceStrings, translatedStrings with
  | Some sources, Some translations =>
      let analysis :=
        expansion_loop translations sources 0 (mkTextAnalysis language 0 0 None []) in
      Some (if 0 <? totalOriginalLength analysis
            then mkTextAnalysis (ta_language analysis)
                   (totalOriginalLength analysis) (totalTranslatedLength analysis)
                   (Some (toFixed2 (divide (totalTranslatedLength analysis)
                                           (totalOriginalLength analysis))))
                   (criticalExpansions analysis)
            else analysis)
  | _, _ => None
  end.

(** What the totals and the list of critical expansions are stated
    with. A source and its translation count when the translation is not
    empty; such a pair is too long when the translation has more than one
    and a half times the characters of a source of more than five. *)
Definition counted (p : string * string) : bool := negb (String.eqb (snd p) "").

Definition too_long (p : string * string) : bool :=
  (3 * String.length (fst p) <? 2 * String.length (snd p)) && (5 <? String.length (fst p)).

(** The number of hundredths a text of digits, a point and two digits
    stands for. *)
Definition hundredths (text : string) : option N :=
  match indexOf text "." with
  | Some i =>
      match NilZero.uint_of_string (take i text),
            NilZero.uint_of_string (drop (S i) text) with
      | Some whole, Some part =>
          if String.length (drop (S i) text) =? 2
          then Some (100 * N.of_uint whole + N.of_uint part)%N
          else None
      | _, _ => None
      end
  | None => None
  end.

(** [n] hundredths are [a / b] to the nearest hundredth. *)
Definition nearest_hundredth (n : N) (a b : nat) : Prop :=
  (2 * n * N.of_nat b <= 200 * N.of_nat a + N.of_nat b
   /\ 200 * N.of_nat a <= 2 * n * N.of_nat b + N.of_nat b)%N.

(** *** detectFramework (detector.js, lines 7-40) *)

(** What the function asks of the file system: whether a path exists,
    what [fs.readJson] returns ([None] when it throws), and the files a
    pattern matches below a directory. *)
Record FsView : Type := mkFsView {
  pathExists : string -> bool;
  readJson : string -> option JsValue;
  glob : string -> string -> list string
}.

(** [v[k]] being truthy, for a value read from JSON. *)
Definition has_truthy (k : string) (o : Props) : bool :=
  match obj_get k o with
  | Some v => truthy v
  | None => false
  end.

(** [pkg[k]], for the spread of lines 15 and 60: a missing section
    spreads like an empty object. *)
Definition section_of (k : string) (pkg : JsValue) : JsValue :=
  match obj_get k (own_props pkg) with
  | Some v => v
  | None => JNull
  end.


Section Detector.

(** [path.join] and [path.resolve]. *)
Variable join : string -> string -> string.

(** Lines 11-23: the framework the dependencies name, if any. A
    [package.json] that cannot be read, or that holds [null], makes the
    [try] block throw, and detection goes on. *)
Definition framework_of_package (fs : FsView) (projectRoot : string) : option string :=
  let packagePath := join projectRoot "package.json" in
  if pathExists fs packagePath then
    match readJson fs packagePath with
    | Some JNull => None
    | Some pkg =>
        let deps := spread (spread [] (section_of "dependencies" pkg))
                           (section_of "devDependencies" pkg) in
        if has_truthy "react" deps then Some "react"
        else if has_truthy "vue" deps then Some "vue"
        else if has_truthy "@angular/core" deps then Some "angular"
        else None
    | None => None
    end
  else None.

Definition detectFramework (fs : FsView) (projectRoot : string) : string :=
  match framework_of_package fs projectRoot with
  | Some framework => framework
  | None =>
      if pathExists fs (join projectRoot "angular.json") then "angular"
      else if pathExists fs (join projectRoot "vue.config.js") then "vue"
      else
        let jsxFiles := glob fs "src/**/*.jsx" projectRoot in
        let vueFiles := glob fs "src/**/*.vue" projectRoot in
        let tsFiles := glob fs "src/**/*.ts" projectRoot in
        if 0 <? length vueFiles then "vue"
        else if 0 <? length jsxFiles then "react"
        else if (0 <? length tsFiles) && pathExists fs (join projectRoot "src/app")
        then "angular"
        else "react"
  end.

End Detector.

(** *** initialize (react.js, lines 6-110) *)

(** The text of lines 13-50. *)
Definition i18nContent : string := "
import i18n from 'i18next';
import { initReactI18next } from 'react-i18next';
import LanguageDetector from 'i18next-browser-languagedetector';

// English translations
const enTranslations = {
  common: {
    loading: 'Loading',
    error: 'Error',
    retry: 'Retry',
  },
  navigation: {
    home: 'Home',
    about: 'About',
    contact: 'Contact',
  },
};

// Initialize i18next
i18n
  .use(LanguageDetector)
  .use(initReactI18next)
  .init({
    resources: {
      en: {
        translation: enTranslations
      }
    },
    fallbackLng: 'en',
    debug: process.env.NODE_ENV === 'development',
    interpolation: {
      escapeValue: false
    }
  });

export default i18n;
".

(** What the outside decides while files are read and created: whether
    reading a file that exists, writing a file or making a directory
    fails, and what the copy of the style sheet of the package yields, an
    error or the text copied. A write or a copy that fails may leave
    something at its destination. *)
Record InitEnv : Type := mkInitEnv {
  input_error : string -> option JsError;
  output_error : string -> option (JsError * option string);
  ensure_error : string -> option JsError;
  css_copy : JsError * option string + string
}.

Section Initialize.

Variable join : string -> string -> string.
(** The text of lines 72-101, which has characters outside ASCII. *)
Variable componentContent : string.
Variable ienv : InitEnv.

(** [fs.outputFile(path, content)], and [fs.writeFile(path, content)]
    where the directory exists. *)
Definition outputFile (path content : string) (d : Disk) : Disk * Outcome unit :=
  match output_error ienv path with
  | Some (err, residue) => (mkDisk (leave path residue (files d)) (journal d), Throw err)
  | None => (mkDisk (store path content (files d)) (journal d ++ [Written path])%list, Ok tt)
  end.

Definition reactInitialize (projectRoot : string) (d : Disk) : Disk * Outcome bool :=
  let i18nPath := join projectRoot "src/i18n.js" in
  let created :=
    match files d i18nPath with
    | Some _ => (d, Ok tt)
    | None => outputFile i18nPath i18nContent d
    end in
  match created with
  | (d1, Ok _) =>
      let exampleComponent := join projectRoot "src/components/I18nExample.js" in
      match files d1 exampleComponent with
      | Some _ => (d1, Ok true)
      | None =>
          match ensure_error ienv (join projectRoot "src/components") with
          | Some err => (d1, Throw err)
          | None =>
              match outputFile exampleComponent componentContent d1 with
              | (d2, Ok _) => (d2, Ok true)
              | (d2, Throw err) => (d2, Throw err)
              | (d2, Hang) => (d2, Hang)
              end
          end
      end
  | (d1, Throw err) => (d1, Throw err)
  | (d1, Hang) => (d1, Hang)
  end.

(** The adapters of vue.js and angular.js: every function logs a line
    and returns. *)
Definition stubInitialize (projectRoot : string) (d : Disk) : Disk * Outcome bool :=
  (d, Ok true).

Definition stubUpdateTranslations (structure : Structure) (translations : Props)
    (language : string) (forceAll : bool) (d : Disk) : Disk * Outcome bool :=
  (d, Ok true).

(** *** init (index.js, lines 11-41) *)

Variable resolve : string -> string.
(** [__dirname], the directory of the package. *)
Variable dirname : string.

Definition init (fs : FsView) (projectPath : string) (d : Disk) : Disk * Outcome bool :=
  let resolvedPath := resolve projectPath in
  let framework := detectFramework join fs resolvedPath in
  let initialized :=
    if String.eqb framework "react" then reactInitialize resolvedPath d
    else if String.eqb framework "vue" then stubInitialize resolvedPath d
    else if String.eqb framework "angular" then stubInitialize resolvedPath d
    else (d, Throw (Error ("Unsupported framework: " ++ framework))) in
  match initialized with
  | (d1, Ok _) =>
      let cssDir := join resolvedPath "src" in
      match ensure_error ienv cssDir with
      | Some err => (d1, Throw err)
      | None =>
          match css_copy ienv with
          | inl (err, residue) =>
              (mkDisk (leave (join cssDir "ResponsiveLanguage.css") residue (files d1))
                      (journal d1),
               Throw err)
          | inr css =>
              (mkDisk (store (join cssDir "ResponsiveLanguage.css") css (files d1))
                      (journal d1
                       ++ [Copied (join dirname "styles/responsive-language.css")
                                  (join cssDir "ResponsiveLanguage.css")])%list,
               Ok true)
          end
      end
  | (d1, Throw err) => (d1, Throw err)
  | (d1, Hang) => (d1, Hang)
  end.

End Initialize.

(** *** generateTranslations (index.js, lines 86-110) *)

(** The fields of the analysis the function reads. *)
Record Analysis : Type := mkAnalysis {
  framework : string;
  strings : list string;
  structure : Structure
}.

Section Generate.

Variable net : World -> string -> string -> HttpReply.
Variable JSON_parse : string -> option JsValue.
Variable js_eval : string -> option JsValue.
Variable insertLanguage : string -> string -> Props -> string.
Variable env : Env.

Definition generateTranslations (analysis : Analysis) (language apiKey : string)
    (service : option string) (forceAll : bool) (w : World) (d : Disk)
  : World * Disk * Outcome JsValue :=
  match translateStrings net JSON_parse (Some (strings analysis)) language apiKey service w with
  | (w1, Ok translations) =>
      let updated :=
        if String.eqb (framework analysis) "react" then
          updateTranslations js_eval insertLanguage env (structure analysis)
            (own_props translations) language forceAll d
        else if String.eqb (framework analysis) "vue" then
          stubUpdateTranslations (structure analysis) (own_props translations)
            language forceAll d
        else if String.eqb (framework analysis) "angular" then
          stubUpdateTranslations (structure analysis) (own_props translations)
            language forceAll d
        else (d, Throw (Error ("Unsupported framework: " ++ framework analysis))) in
      match updated with
      | (d1, Ok _) => (w1, d1, Ok translations)
      | (d1, Throw err) => (w1, d1, Throw err)
      | (d1, Hang) => (w1, d1, Hang)
      end
  | (w1, Throw err) => (w1, d, Throw err)
  | (w1, Hang) => (w1, d, Hang)
  end.

End Generate.

End Project.
Import Project.

(** ** Analysis: detector.js, the scan of react.js and index.js *)

Module Analyzer.

(** *** detectStructure (detector.js, lines 43-116) *)

Record ProjectStructure : Type := mkProjectStructure {
  ps_i18nFile : string;
  responsiveCssFile : string;
  uiFiles : list string;
  rootDir : string
}.

(** The two tables of the function; [None] for a framework they have no
    entry for, on which the [for] loop throws a [TypeError]. *)
Definition i18nPatterns (framework : string) : option (list string) :=
  if String.eqb framework "react" then
    Some ["src/i18n.js"; "src/i18n/index.js"; "src/translations/index.js";
          "src/locales/index.js"]
  else if String.eqb framework "vue" then
    Some ["src/i18n.js"; "src/plugins/i18n.js"; "src/locales/index.js"]
  else if String.eqb framework "angular" then
    Some ["src/assets/i18n"; "src/app/i18n"; "src/locales"]
  else None.

Definition uiPatterns (framework : string) : option (list string) :=
  if String.eqb framework "react" then Some ["src/**/*.js"; "src/**/*.jsx"; "src/**/*.tsx"]
  else if String.eqb framework "vue" then Some ["src/**/*.vue"]
  else if String.eqb framework "angular" then Some ["src/**/*.html"; "src/**/*.ts"]
  else None.

Section Structure.

Variable join : string -> string -> string.

(** Lines 69-76: the first pattern whose path exists. *)
Fixpoint first_existing (fs : FsView) (projectRoot : string) (patterns : list string)
  : option string :=
  match patterns with
  | [] => None
  | pattern :: rest =>
      let filePath := join projectRoot pattern in
      if pathExists fs filePath then Some filePath
      else first_existing fs projectRoot rest
  end.

(** The [switch] of lines 80-90; [i18nFile] stays as it is when no case
    applies. *)
Definition default_i18nFile (projectRoot framework i18nFile : string) : string :=
  if String.eqb framework "react" then join projectRoot "src/i18n.js"
  else if String.eqb framework "vue" then join projectRoot "src/i18n.js"
  else if String.eqb framework "angular" then join projectRoot "src/assets/i18n"
  else i18nFile.

(** [i18nFile] is falsy when nothing was found and when the path found is
    the empty text; both are written [""] here. *)
Definition detectStructure (fs : FsView) (projectRoot framework : string)
  : Outcome ProjectStructure :=
  match i18nPatterns framework, uiPatterns framework with
  | Some patterns, Some uis =>
      let found := match first_existing fs projectRoot patterns with
                   | Some filePath => filePath
                   | None => ""
                   end in
      let i18nFile := if String.eqb found "" then default_i18nFile projectRoot framework found
                      else found in
      Ok (mkProjectStructure i18nFile
            (join projectRoot "src/ResponsiveLanguage.css")
            (flat_map (fun pattern => map (join projectRoot) (glob fs pattern projectRoot)) uis)
            projectRoot)
  | _, _ => Throw TypeError
  end.

End Structure.

(** *** analyze (react.js, lines 113-190) *)

(** [s.trim()] on ASCII text. *)
Fixpoint trimEnd (s : string) : string :=
  match s with
  | EmptyString => EmptyString
  | String c t =>
      let t' := trimEnd t in
      if is_space c && String.eqb t' "" then EmptyString else String c t'
  end.

Definition trim (s : string) : string := trimEnd (skip_spaces s).

(** The test of lines 166 and 175:
    [text && text.length > 1 && !/^\d+$/.test(text) && !text.includes('${')]. *)
Definition all_digits (text : string) : bool :=
  negb (String.eqb text "") && forall_chars is_digit text.

Definition translatable (text : string) : bool :=
  negb (String.eqb text "") && (1 <? String.length text)
  && negb (all_digits text) && negb (includes text "${").

(** [strings.add(text)] on a [Set], kept in insertion order. *)
Definition set_add (text : string) (strings : list string) : list string :=
  if existsb (String.eqb text) strings then strings else (strings ++ [text])%list.

(** The longest prefix of [s] whose characters satisfy [p], and the rest. *)
Fixpoint span (p : ascii -> bool) (s : string) : string * string :=
  match s with
  | EmptyString => (EmptyString, EmptyString)
  | String c t =>
      if p c then let (run, rest) := span p t in (String c run, rest)
      else (EmptyString, s)
  end.

(** The class of [jsxTextRegex]: any character but the two angle
    brackets, the two braces and the line feed. *)
Definition jsx_text_char (c : ascii) : bool :=
  negb ((code c =? 60) || (code c =? 62) || (code c =? 123) || (code c =? 125)
        || (code c =? 10)).

(** [jsxTextRegex] (line 161) read at the start of [s]: a closing angle
    bracket, one or more characters of the class, an opening angle
    bracket. The result is group 1 and what follows the match. The
    class leaves out the bracket that must follow, so the run is the
    longest one. *)
Definition jsxText_here (s : string) : option (string * string) :=
  match s with
  | String c rest =>
      if code c =? 62 then
        match span jsx_text_char rest with
        | (String r run, String c' post) =>
            if code c' =? 60 then Some (String r run, post) else None
        | _ => None
        end
      else None
  | EmptyString => None
  end.

(** The leftmost match of an expression in [s], given its matches at the
    start of a text. *)
Fixpoint exec_leftmost (here : string -> option (string * string)) (s : string)
  : option (string * string) :=
  match here s with
  | Some m => Some m
  | None =>
      match s with
      | EmptyString => None
      | String _ t => exec_leftmost here t
      end
  end.

Definition is_quote (c : ascii) : bool := (code c =? 39) || (code c =? 34).
(** The ASCII characters the dot of an expression does not accept. *)
Definition is_line_end (c : ascii) : bool := (code c =? 10) || (code c =? 13).

Definition attribute_names : list string := ["placeholder"; "title"; "alt"; "aria-label"].

(** One of the names at the start of [s]: what follows it. No name is
    the start of another, so at most one fits. *)
Fixpoint strip_any (names : list string) (s : string) : option string :=
  match names with
  | [] => None
  | name :: rest =>
      match strip_prefix name s with
      | Some r => Some r
      | None => strip_any rest s
      end
  end.

(** As few characters of a line as possible and then a quote: the
    characters, and what follows the quote. *)
Fixpoint lazy_to_quote (s : string) : option (string * string) :=
  match s with
  | EmptyString => None
  | String c t =>
      if is_quote c then Some (EmptyString, t)
      else if is_line_end c then None
      else match lazy_to_quote t with
           | Some (g, r) => Some (String c g, r)
           | None => None
           end
  end.

(** As few characters of a line as possible, then a quote and a closing
    brace. *)
Fixpoint lazy_to_quote_brace (s : string) : option (string * string) :=
  match s with
  | EmptyString => None
  | String c t =>
      if is_quote c && prefix "}" t then Some (EmptyString, drop 1 t)
      else if is_line_end c then None
      else match lazy_to_quote_brace t with
           | Some (g, r) => Some (String c g, r)
           | None => None
           end
  end.

(** [jsxAttributeRegex] (line 172) read at the start of [s]. Its first
    alternative wants a quote after the equals sign and its second one a
    brace, so at most one of them fits; the result is the group that
    took part, and what follows the match. *)
Definition jsxAttribute_here (s : string) : option (string * string) :=
  match strip_any attribute_names s with
  | Some (String e (String q t)) =>
      if code e =? 61 then
        if is_quote q then lazy_to_quote t
        else if code q =? 123 then
          match t with
          | String q' t' => if is_quote q' then lazy_to_quote_brace t' else None
          | EmptyString => None
          end
        else None
      else None
  | _ => None
  end.

(** The loops of lines 164-169 and 173-178: [exec] until it finds
    nothing, each search starting where the last match ended. A match
    is not empty, so the length of the text bounds the number of rounds. *)
Fixpoint scan (here : string -> option (string * string)) (rounds : nat) (s : string)
    (strings : list string) : list string :=
  match rounds with
  | 0 => strings
  | S rounds' =>
      match exec_leftmost here s with
      | None => strings
      | Some (group, rest) =>
          let text := trim group in
          scan here rounds' rest
            (if translatable text then set_add text strings else strings)
      end
  end.

(** Lines 159-179, for the content of one file. *)
Definition scan_content (content : string) (strings : list string) : list string :=
  scan jsxAttribute_here (String.length content) content
    (scan jsxText_here (String.length content) content strings).

(** The expression of line 127 is the one of [updateTranslations] for
    the language [en], with a group for the text between the brace and
    the closing [};]. *)
Fixpoint enMatch (s : string) : option string :=
  let next := match s with
              | EmptyString => None
              | String _ t => enMatch t
              end in
  match match_head "en" s with
  | Some rest =>
      match indexOf rest "};" with
      | Some j => Some (take j rest)
      | None => next
      end
  | None => next
  end.

Record ReactAnalysis : Type := mkReactAnalysis {
  ra_strings : list string;
  ra_uiFiles : list string;
  currentTranslations : JsValue
}.

Section ReactAnalyze.

(** [fs.readFile(path, 'utf8')] *)
Variable readFile : string -> JsError + string.
Variable js_eval : string -> option JsValue.
(** What the two expressions of lines 133 and 140 find in the text of
    the English translations: the name spaces in the order of their
    matches, each with its keys and values. *)
Variable fallback_entries : string -> list (string * list (string * string)).

(** Lines 136-149. *)
Definition fallback (body : string) : JsValue * list string :=
  fold_left
    (fun (acc : JsValue * list string) (entry : string * list (string * string)) =>
       let (namespace, pairs) := entry in
       fold_left
         (fun (acc' : JsValue * list string) (kv : string * string) =>
            let (key, value) := kv in
            let inner := match obj_get namespace (own_props (fst acc')) with
                         | Some v => own_props v
                         | None => []
                         end in
            (JObj (obj_set namespace (JObj (obj_set key (JStr value) inner))
                     (own_props (fst acc'))),
             set_add value (snd acc')))
         pairs
         (JObj (obj_set namespace (JObj []) (own_props (fst acc))), snd acc))
    (fallback_entries body)
    (JObj [], []).

(** Lines 121-153: the translations the file holds and the strings the
    fall-back collects. *)
Definition existing_translations (fs : FsView) (i18nFile : string)
  : Outcome (JsValue * list string) :=
  if pathExists fs i18nFile then
    match readFile i18nFile with
    | inl err => Throw err
    | inr content =>
        match enMatch content with
        | Some body =>
            match js_eval ("return {" ++ body ++ "};") with
            | Some value => Ok (value, [])
            | None => Ok (fallback body)
            end
        | None => Ok (JObj [], [])
        end
    end
  else Ok (JObj [], []).

(** Lines 156-183: a file that cannot be read is passed over. *)
Definition scan_files (files : list string) (strings : list string) : list string :=
  fold_left
    (fun strings file =>
       match readFile file with
       | inr content => scan_content content strings
       | inl _ => strings
       end)
    files strings.

Definition reactAnalyze (fs : FsView) (projectRoot : string) (structure : ProjectStructure)
  : Outcome ReactAnalysis :=
  match existing_translations fs (ps_i18nFile structure) with
  | Ok (current, strings) =>
      Ok (mkReactAnalysis (scan_files (uiFiles structure) strings) (uiFiles structure) current)
  | Throw err => Throw err
  | Hang => Hang
  end.

(** The [analyze] of vue.js and angular.js. *)
Definition stubAnalyze (projectRoot : string) (structure : ProjectStructure)
  : Outcome ReactAnalysis :=
  Ok (mkReactAnalysis [] (uiFiles structure) (JObj [])).

(** *** analyze (index.js, lines 44-83) *)

Record ProjectAnalysis : Type := mkProjectAnalysis {
  pa_framework : string;
  pa_structure : ProjectStructure;
  pa_strings : list string;
  pa_uiFiles : list string;
  pa_i18nFile : string;
  pa_responsiveCssFile : string
}.

Variable join : string -> string -> string.
Variable resolve : string -> string.

Definition analyze (fs : FsView) (projectPath : string) : Outcome ProjectAnalysis :=
  let resolvedPath := resolve projectPath in
  let framework := detectFramework join fs resolvedPath in
  match detectStructure join fs resolvedPath framework with
  | Ok structure =>
      let result :=
        if String.eqb framework "react" then reactAnalyze fs resolvedPath structure
        else if String.eqb framework "vue" then stubAnalyze resolvedPath structure
        else if String.eqb framework "angular" then stubAnalyze resolvedPath structure
        else Throw (Error ("Unsupported framework: " ++ framework)) in
      match result with
      | Ok found =>
          Ok (mkProjectAnalysis framework structure (ra_strings found) (ra_uiFiles found)
                (ps_i18nFile structure) (responsiveCssFile structure))
      | Throw err => Throw err
      | Hang => Hang
      end
  | Throw err => Throw err
  | Hang => Hang
  end.

End ReactAnalyze.

(** [x] occurs in [s], and [rest] is the end of [s]. *)
Definition piece (x s : string) : Prop := exists a b : string, s = a ++ x ++ b.
Definition suffix (rest s : string) : Prop := exists a : string, s = a ++ rest.

(** The two angle brackets. *)
Definition tag_end : string := char 62.
Definition tag_start : string := char 60.

(** The part of an analysis [generateTranslations] reads. *)
Definition generation_input (a : ProjectAnalysis) : Analysis :=
  mkAnalysis (pa_framework a) (pa_strings a) (mkStructure (ps_i18nFile (pa_structure a))).

End Analyzer.
Import Analyzer.

(** ** Regular expressions, and the new language of updateTranslations *)

Module Patterns.

(** *** Matchers

    An expression is read from left to right as a matcher that is given
    what has to match after it: a matcher tries its own ways to match
    in the order of the engine, and goes on to the next way when what
    follows fails. The texts handed on are what is left of the input. *)

Section Matchers.

Context {R : Type}.

(** The characters of [p]. *)
Definition lit (p : string) (k : string -> option R) (s : string) : option R :=
  match strip_prefix p s with
  | Some rest => k rest
  | None => None
  end.

(** One character of the class [c]. *)
Definition one (c : ascii -> bool) (k : string -> option R) (s : string) : option R :=
  match s with
  | String a t => if c a then k t else None
  | EmptyString => None
  end.

(** [c*]: as many characters of the class as possible, then fewer. *)
Fixpoint greedy (c : ascii -> bool) (k : string -> option R) (s : string) : option R :=
  match s with
  | String a t =>
      if c a then
        match greedy c k t with
        | Some r => Some r
        | None => k s
        end
      else k s
  | EmptyString => k s
  end.

(** [c*?]: as few characters of the class as possible, then more. *)
Fixpoint lazy (c : ascii -> bool) (k : string -> option R) (s : string) : option R :=
  match k s with
  | Some r => Some r
  | None =>
      match s with
      | String a t => if c a then lazy c k t else None
      | EmptyString => None
      end
  end.

(** [c?] *)
Definition maybe (c : ascii -> bool) (k : string -> option R) (s : string) : option R :=
  match s with
  | String a t =>
      if c a then
        match k t with
        | Some r => Some r
        | None => k s
        end
      else k s
  | EmptyString => k s
  end.

(** [a|b] *)
Definition alt (a b : (string -> option R) -> string -> option R)
    (k : string -> option R) (s : string) : option R :=
  match a k s with
  | Some r => Some r
  | None => b k s
  end.

(** The place reached, for the start or the end of a group. *)
Definition mark (f : string -> string -> option R) (s : string) : option R := f s s.

End Matchers.

(** The text between two places of the same input. *)
Definition between (s s' : string) : string := take (String.length s - String.length s') s.

Definition any (c : ascii) : bool := true.
Definition dot (c : ascii) : bool := negb (is_line_end c).
Definition is_word_char (c : ascii) : bool := is_alnum c || (code c =? 95).
Definition is_comma (c : ascii) : bool := code c =? 44.

(** A match: the text before it, its groups, the text after it. *)
Record Found : Type := mkFound {
  f_before : string;
  f_matched : string;
  f_groups : list string;
  f_after : string
}.

(** The leftmost match in [s], which follows [done] in the whole text;
    [here] gives the groups and what follows the match. *)
Fixpoint exec (here : string -> option (list string * string)) (done s : string)
  : option Found :=
  match here s with
  | Some (groups, rest) => Some (mkFound done (between s rest) groups rest)
  | None =>
      match s with
      | EmptyString => None
      | String c t => exec here (done ++ String c EmptyString) t
      end
  end.

Definition digit (c : ascii) : nat := code c - 48.

Definition capture (m : Found) (n : nat) : option string :=
  if (1 <=? n) && (n <=? length (f_groups m)) then nth_error (f_groups m) (n - 1)
  else None.

(** The text a replacement string stands for: [$$], [$&], [$`] and
    [$'] as before; a dollar sign with two digits is the group of that
    number when there is one, and otherwise, as a dollar sign with one
    digit, the group of that digit when there is one; anything else
    stands for itself. *)
Fixpoint expand_groups (m : Found) (template : string) : string :=
  match template with
  | EmptyString => EmptyString
  | String c t =>
      if code c =? 36 then
        match t with
        | String d t' =>
            if code d =? 36 then String c (expand_groups m t')
            else if code d =? 38 then f_matched m ++ expand_groups m t'
            else if code d =? 96 then f_before m ++ expand_groups m t'
            else if code d =? 39 then f_after m ++ expand_groups m t'
            else if is_digit d then
              let single :=
                match capture m (digit d) with
                | Some g => g ++ expand_groups m t'
                | None => String c (expand_groups m t)
                end in
              match t' with
              | String e t'' =>
                  if is_digit e then
                    match capture m (10 * digit d + digit e) with
                    | Some g => g ++ expand_groups m t''
                    | None => single
                    end
                  else single
              | EmptyString => single
              end
            else String c (expand_groups m t)
        | EmptyString => String c EmptyString
        end
      else String c (expand_groups m t)
  end.

(** [content.replace(expression, template)] for an expression without
    the flag [g]. *)
Definition replace_first (here : string -> option (list string * string))
    (template content : string) : string :=
  match exec here "" content with
  | Some m => f_before m ++ expand_groups m template ++ f_after m
  | None => content
  end.

(** *** The language code in the expression of line 205

    Line 205 writes the language code into the source of an expression.
    A code without the characters that are syntax there is read as it
    is written, and that is the expression [match_head] embeds; a code
    with such a character makes another expression, or none. *)
Definition is_syntax (c : ascii) : bool :=
  existsb (Ascii.eqb c) (list_ascii_of_string "\^$.*+?()[]{}|").

Definition plain_code (language : string) : bool :=
  forall_chars (fun c => negb (is_syntax c)) language.

(** *** Lines 247-259 of react.js *)

(** Line 250: [const], a blank, a word that ends in [Translations], [ = {],
    as few characters as possible and [};], in group 1; as few characters
    as possible, in group 2; [i18n], in group 3. *)
Definition declaration_here (s : string) : option (list string * string) :=
  mark (fun s0 =>
    lit "const " (one is_word_char (greedy is_word_char (lit "Translations = {" (lazy any (lit "};"
      (mark (fun s1 => lazy any
        (mark (fun s2 => lit "i18n"
          (fun s3 => Some ([between s0 s1; between s1 s2; between s2 s3], s3)))))))))))) s.

(** Line 256: [resources: {], blanks, as few characters of the line as
    possible, blanks, [en: {], as few characters as possible and a
    closing brace, in group 1; a comma or none and blanks, in group 2; a
    closing brace, in group 3. *)
Definition resources_here (s : string) : option (list string * string) :=
  mark (fun s0 =>
    lit "resources: {" (greedy is_space (lazy dot (greedy is_space (lit "en: {"
      (lazy any (lit "}"
        (mark (fun s1 => maybe is_comma (greedy is_space
          (mark (fun s2 => lit "}"
            (fun s3 => Some ([between s0 s1; between s1 s2; between s2 s3], s3)))))))))))))) s.

(** The name in the comment of line 251. *)
Definition language_title (language : string) : string :=
  if String.eqb language "es" then "Spanish"
  else if String.eqb language "zh" then "Chinese"
  else if String.eqb language "hi" then "Hindi"
  else language.

(** What the two replacement strings put between their groups. *)
Definition new_block (language : string) (translations : Props) : string :=
  newline ++ newline ++ "// " ++ language_title language ++ " translations" ++ newline
  ++ declaration language (JObj translations).

Definition new_entry (language : string) : string :=
  "," ++ newline ++ "      " ++ language ++ ": {" ++ newline
  ++ "        translation: " ++ language ++ "Translations" ++ newline ++ "      }".

Definition with_declaration (content language : string) (translations : Props) : string :=
  replace_first declaration_here ("$1" ++ new_block language translations ++ "$2$3") content.

(** The text written for a language the file does not declare. *)
Definition insert_language (content language : string) (translations : Props) : string :=
  replace_first resources_here ("$1" ++ new_entry language ++ "$3")
    (with_declaration content language translations).

End Patterns.

(** ** updateUI (react.js, lines 273-366, and index.js, lines 113-134) *)

Module UiUpdate.

Import Patterns.

Definition not_gt (c : ascii) : bool := negb (code c =? 62).
Definition not_lt (c : ascii) : bool := negb (code c =? 60).
Definition not_rparen (c : ascii) : bool := negb (code c =? 41).
Definition not_quote (c : ascii) : bool := negb (is_quote c).
Definition is_1_to_6 (c : ascii) : bool := (49 <=? code c) && (code c <=? 54).

(** [s.replace(pat, rep)] for a pattern that is a string and a
    replacement without dollar sign: the first occurrence is replaced. *)
Definition replace_literal (pat rep s : string) : string :=
  match indexOf s pat with
  | Some i => take i s ++ rep ++ drop (i + String.length pat) s
  | None => s
  end.

(** [content.replace(expression, callback)] for an expression with the
    flag [g] whose matches are not empty: every match is replaced by what
    the callback returns for it, and the search goes on after the match.
    The flag says whether a callback set [changesMade]. *)
Fixpoint replace_all (here : string -> option (list string * string))
    (callback : string -> list string -> string * bool) (rounds : nat) (s : string)
  : string * bool :=
  match rounds with
  | 0 => (s, false)
  | S rounds' =>
      match exec here "" s with
      | None => (s, false)
      | Some m =>
          let (replacement, changed) := callback (f_matched m) (f_groups m) in
          let (rest, changed') := replace_all here callback rounds' (f_after m) in
          (f_before m ++ replacement ++ rest, changed || changed')
      end
  end.

(** The expression of line 296: [import], blanks, as many characters of
    the line as possible, blanks, [from], blanks, a quote, characters
    that are no quotes, a quote and a semicolon, in group 1; blanks, in
    group 2. *)
Definition import_here (s : string) : option (list string * string) :=
  mark (fun s0 =>
    lit "import" (one is_space (greedy is_space (greedy dot (one is_space (greedy is_space
      (lit "from" (one is_space (greedy is_space (one is_quote (one not_quote
        (greedy not_quote (one is_quote (lit ";"
          (mark (fun s1 => greedy is_space
            (fun s2 => Some ([between s0 s1; between s1 s2], s2)))))))))))))))))) s.

Definition css_import : string :=
  newline ++ "import './ResponsiveLanguage.css'; // Added for language-responsive UI".

(** Lines 295-298. *)
Definition add_import (content : string) : string :=
  replace_first import_here ("$1" ++ css_import ++ "$2") content.

(** The expression of line 315: the attributes in group 1, the text in
    group 2. *)
Definition button_here (s : string) : option (list string * string) :=
  lit "<button" (mark (fun a0 => greedy not_gt (mark (fun a1 => lit ">"
    (mark (fun t0 => one not_lt (greedy not_lt (mark (fun t1 => lit "</button>"
      (fun rest => Some ([between a0 a1; between t0 t1], rest))))))))))) s.

Definition class_is (name : string) : string := "className=" ++ dquote ++ name ++ dquote.
Definition class_starts : string := "className=" ++ dquote.

(** Lines 316-330. *)
Definition button_callback (matched attrs text : string) : string * bool :=
  if negb (includes attrs (class_is "lang-btn")) && negb (includes attrs "className={")
     && (0 <? String.length (trim text))
  then ("<button" ++ attrs ++ " " ++ class_is "lang-btn" ++ ">" ++ text ++ "</button>", true)
  else if includes attrs class_starts && negb (includes attrs "lang-btn")
          && (0 <? String.length (trim text))
  then ("<button" ++ replace_literal class_starts (class_starts ++ "lang-btn ") attrs
        ++ ">" ++ text ++ "</button>", true)
  else (matched, false).

(** [p], [span], [div] or [h] and a digit from 1 to 6. *)
Definition tag_name {R : Type} : (string -> option R) -> string -> option R :=
  alt (lit "p") (alt (lit "span") (alt (lit "div") (fun k => lit "h" (one is_1_to_6 k)))).

(** The expression of line 333: the opening tag in group 1, the text in
    group 2, the closing tag in group 3. *)
Definition text_element_here (s : string) : option (list string * string) :=
  mark (fun s0 =>
    lit "<" (tag_name (greedy not_gt (lit ">"
      (mark (fun s1 => one jsx_text_char (greedy jsx_text_char
        (mark (fun s2 => lit "</" (tag_name (lit ">"
          (fun s3 => Some ([between s0 s1; between s1 s2; between s2 s3], s3))))))))))))) s.

(** Lines 334-347. *)
Definition text_callback (matched opening content closing : string) : string * bool :=
  if (String.length (trim content) =? 0) || includes opening "lang-wrap" then (matched, false)
  else if negb (includes opening "className=")
  then (replace_literal ">" (" " ++ class_is "lang-wrap" ++ ">") opening ++ content ++ closing,
        true)
  else if includes opening class_starts
  then (replace_literal class_starts (class_starts ++ "lang-wrap ") opening ++ content
        ++ closing, true)
  else (matched, true).

(** The expression of line 351: the head of the function up to the
    blanks after its brace in group 1; as few characters of the line as
    possible and the call of [i18n.changeLanguage], in group 2. *)
Definition switcher_here (s : string) : option (list string * string) :=
  mark (fun s0 =>
    lit "const changeLanguage" (greedy is_space (lit "=" (greedy is_space (lit "("
      (greedy not_rparen (lit ")" (greedy is_space (lit "=>" (greedy is_space (lit "{"
        (greedy is_space
          (mark (fun s1 => lazy dot (lit "i18n.changeLanguage(" (greedy not_rparen
            (lit ");"
              (fun s2 => Some ([between s0 s1; between s1 s2], s2))))))))))))))))))) s.

Definition group_of (groups : list string) (n : nat) : string := nth n groups "".

(** Lines 309-356: the text to write and [changesMade]. *)
Definition restyle (content : string) : string * bool :=
  let (buttons, changed1) :=
    replace_all button_here
      (fun matched groups => button_callback matched (group_of groups 0) (group_of groups 1))
      (String.length content) content in
  let (texts, changed2) :=
    replace_all text_element_here
      (fun matched groups =>
         text_callback matched (group_of groups 0) (group_of groups 1) (group_of groups 2))
      (String.length buttons) buttons in
  let (switched, changed3) :=
    if includes content "changeLanguage"
       && negb (includes content "document.documentElement.lang")
    then
      match exec switcher_here "" texts with
      | Some m =>
          (f_before m ++ group_of (f_groups m) 0 ++ group_of (f_groups m) 1 ++ newline
           ++ "    document.documentElement.lang = langCode;" ++ f_after m, true)
      | None => (texts, false)
      end
    else (texts, false) in
  (switched, changed1 || changed2 || changed3).

Section UpdateUI.

Variable join : string -> string -> string.
(** [path.basename] *)
Variable basename : string -> string.
Variable dirname : string.
Variable ienv : InitEnv.
(** The error [fs.readFile] throws for a path that does not exist. *)
Variable unreadable : string -> JsError.

Definition readFile (d : Disk) (path : string) : JsError + string :=
  match files d path with
  | Some content =>
      match input_error ienv path with
      | Some err => inl err
      | None => inr content
      end
  | None => inl (unreadable path)
  end.

(** Lines 278-283. *)
Definition ensure_css (structure : ProjectStructure) (d : Disk) : Disk * Outcome unit :=
  match files d (responsiveCssFile structure) with
  | Some _ => (d, Ok tt)
  | None =>
      match readFile d (join dirname "../styles/responsive-language.css") with
      | inl err => (d, Throw err)
      | inr cssContent => outputFile ienv (responsiveCssFile structure) cssContent d
      end
  end.

Definition is_app (file : string) : bool :=
  String.eqb (basename file) "App.js" || String.eqb (basename file) "App.jsx"
  || String.eqb (basename file) "app.js".

(** Lines 286-302. *)
Definition import_css (uiFiles : list string) (d : Disk) : Disk * Outcome unit :=
  match find is_app uiFiles with
  | Some appFile =>
      match readFile d appFile with
      | inl err => (d, Throw err)
      | inr content =>
          if includes content "ResponsiveLanguage.css" then (d, Ok tt)
          else outputFile ienv appFile (add_import content) d
      end
  | None => (d, Ok tt)
  end.

(** The body of the loop of lines 305-363: what goes wrong is caught. *)
Definition restyle_file (d : Disk) (file : string) : Disk :=
  match readFile d file with
  | inl _ => d
  | inr content =>
      let (updatedContent, changesMade) := restyle content in
      if changesMade then fst (outputFile ienv file updatedContent d) else d
  end.

Definition reactUpdateUI (structure : ProjectStructure) (uiFiles : list string) (d : Disk)
  : Disk * Outcome bool :=
  match ensure_css structure d with
  | (d1, Ok _) =>
      match import_css uiFiles d1 with
      | (d2, Ok _) => (fold_left restyle_file uiFiles d2, Ok true)
      | (d2, Throw err) => (d2, Throw err)
      | (d2, Hang) => (d2, Hang)
      end
  | (d1, Throw err) => (d1, Throw err)
  | (d1, Hang) => (d1, Hang)
  end.

(** The [updateUI] of vue.js and angular.js. *)
Definition stubUpdateUI (structure : ProjectStructure) (uiFiles : list string) (d : Disk)
  : Disk * Outcome bool :=
  (d, Ok true).

(** [updateUI] of index.js. *)
Definition updateUI (analysis : ProjectAnalysis) (d : Disk) : Disk * Outcome bool :=
  let updated :=
    if String.eqb (pa_framework analysis) "react"
    then reactUpdateUI (pa_structure analysis) (pa_uiFiles analysis) d
    else if String.eqb (pa_framework analysis) "vue"
    then stubUpdateUI (pa_structure analysis) (pa_uiFiles analysis) d
    else if String.eqb (pa_framework analysis) "angular"
    then stubUpdateUI (pa_structure analysis) (pa_uiFiles analysis) d
    else (d, Throw (Error ("Unsupported framework: " ++ pa_framework analysis))) in
  match updated with
  | (d1, Ok _) => (d1, Ok true)
  | (d1, Throw err) => (d1, Throw err)
  | (d1, Hang) => (d1, Hang)
  end.

End UpdateUI.

End UiUpdate.

(** ** Projects, providers and disks the instances below run on *)

Module Cases.

(** A per-batch outcome that fails on a chunk of one item. *)
Definition failing_on_one (chunk : list string) : Outcome JsValue :=
  match chunk with
  | [_] => Throw (Error "rate limit")
  | _ => Ok (JArr (map JStr chunk))
  end.

(** A provider that answers the request for the phrases [known] with the
    JSON text of [answer] and turns any other request down. *)
Definition picky (targetLang : string) (known answer : list string)
  : World -> string -> string -> HttpReply :=
  fun _ _ prompt =>
    if String.eqb prompt (prompt_for known targetLang)
    then Reply (Some [Some (stringify_texts answer)])
    else HttpFailure 429 "quota".


(** The phrase with [es:] before it, as a provider might answer. *)
Definition tagged (s : string) : string := "es:" ++ s.

(** [path.join] for two relative segments, and [path.resolve] left out. *)
Definition path_join (a b : string) : string := a ++ "/" ++ b.
Definition as_given (p : string) : string := p.

(** A file system in which nothing exists, and one in which exactly one
    path does. *)
Definition no_files : FsView := mkFsView (fun _ => false) (fun _ => None) (fun _ _ => []).
Definition only (path : string) : FsView :=
  mkFsView (String.eqb path) (fun _ => None) (fun _ _ => []).

Definition empty_disk : Disk := mkDisk (fun _ => None) [].



(** Lengths to divide: the small ones, some with quotients halfway
    between two hundredths, and the largest ones. *)
Definition sample_lengths : list N :=
  (map N.of_nat (seq 0 65)
   ++ [200; 201; 1000; 1005; 1015; 536870888; 1073741824; 35184372088831; 35184372088832;
       4503599627370495; 4503599627370496; 4503599627370497; 6755399441055746;
       9007199254740990; 9007199254740991]%N)%list.

(** Four phrases and their translations, the third one missing. *)
Definition four_sources : list string := ["Save changes"; "Hi"; "Cancel"; "Welcome back"].
Definition four_translations : list string :=
  ["Guardar todos los cambios ahora"; "Hola"; ""; "Bienvenido"].

(** File operations that all go through. *)
Definition willing : InitEnv :=
  mkInitEnv (fun _ => None) (fun _ => None) (fun _ => None) (inr ".lang-btn {}").

(** [readFile] on a disk that holds one file. *)
Definition reading (path content : string) : string -> JsError + string :=
  fun p => if String.eqb p path then inr content else inl (Error "ENOENT").

Definition no_fallback (body : string) : list (string * list (string * string)) := [].

(** A component file with one heading. *)
Definition heading : string := "<h1> Welcome back </h1>".

Definition one_component : ProjectStructure :=
  mkProjectStructure "proj/src/i18n.js" "proj/src/ResponsiveLanguage.css"
    ["proj/src/App.js"] "proj".

Definition sixteen_phrases : Analysis := mkAnalysis "react" sixteen project.

(** One entry to add. *)
Definition hello_es : Props := [("common", JObj [("hello", JStr "Hola")])].

(** A module without markup, imports or language switch, and a project
    that holds it. *)
Definition plain_module : string := "export const answer = 42;".

Definition with_a_module : ProjectAnalysis :=
  mkProjectAnalysis "react" one_component ["Hello"] ["proj/src/answer.js"]
    "proj/src/i18n.js" "proj/src/ResponsiveLanguage.css".

Definition module_disk : Disk :=
  mkDisk (store "proj/src/answer.js" plain_module
            (store "proj/src/ResponsiveLanguage.css" ".lang-btn {}" (fun _ => None))) [].

(** An App file with one import. *)
Definition app_module : string :=
  "import React from 'react';" ++ newline ++ "export default App;".

Definition enoent (path : string) : JsError := Error ("ENOENT: " ++ path).

End Cases.
Import Cases.

(** * Properties *)

(** ** Strings *)

Section StringFacts.
Local Open Scope string_scope.

Lemma length_append : forall a b : string,
  String.length (a ++ b) = String.length a + String.length b.
Proof. induction a as [|c a IH]; intros b; cbn; [reflexivity|]. now rewrite IH. Qed.

Lemma append_nil_r : forall a : string, a ++ "" = a.
Proof. induction a as [|c a IH]; cbn; [reflexivity|]. now rewrite IH. Qed.

Lemma append_assoc : forall a b c : string, (a ++ b) ++ c = a ++ b ++ c.
Proof. induction a as [|x a IH]; intros b c; cbn; [reflexivity|]. now rewrite IH. Qed.

Lemma take_append : forall a b : string, take (String.length a) (a ++ b) = a.
Proof. induction a as [|c a IH]; intros b; cbn; [now destruct b|]. now rewrite IH. Qed.

Lemma drop_append : forall a b : string, drop (String.length a) (a ++ b) = b.
Proof. induction a as [|c a IH]; intros b; cbn; [now destruct b|]. apply IH. Qed.


(** A one-character pattern is looked for at the head of the text. *)
Lemma prefix_char : forall (p c : ascii) (t : string),
  prefix (String p "") (String c t) = Ascii.eqb p c.
Proof.
  intros p c t. cbn. destruct (ascii_dec p c) as [->|Hne].
  - rewrite Ascii.eqb_refl. now destruct t.
  - destruct (Ascii.eqb p c) eqn:E; [apply Ascii.eqb_eq in E; contradiction|reflexivity].
Qed.

Lemma indexOf_append_char : forall (p : ascii) (pre rest : string),
  includes pre (String p "") = false ->
  indexOf (pre ++ String p rest) (String p "") = Some (String.length pre).
Proof.
  induction pre as [|c pre IH]; intros rest H.
  - cbn [append indexOf]. rewrite prefix_char, Ascii.eqb_refl. reflexivity.
  - cbn [includes] in H. apply orb_false_iff in H as [H1 H2].
    cbn [append indexOf]. rewrite prefix_char in *. rewrite H1.
    rewrite IH by exact H2. reflexivity.
Qed.

Lemma indexOf_absent_char : forall (p : ascii) (s : string),
  includes s (String p "") = false -> indexOf s (String p "") = None.
Proof.
  induction s as [|c s IH]; intros H; [reflexivity|].
  cbn [includes] in H. apply orb_false_iff in H as [H1 H2].
  cbn [indexOf]. rewrite H1, IH by exact H2. reflexivity.
Qed.

Lemma lastIndexOf_absent_char : forall (p : ascii) (s : string),
  includes s (String p "") = false -> lastIndexOf s (String p "") = None.
Proof.
  induction s as [|c s IH]; intros H; [reflexivity|].
  cbn [includes] in H. apply orb_false_iff in H as [H1 H2].
  cbn [lastIndexOf]. rewrite IH by exact H2. now rewrite H1.
Qed.

Lemma lastIndexOf_append_char : forall (p : ascii) (group post : string),
  includes post (String p "") = false ->
  lastIndexOf (group ++ String p post) (String p "") = Some (String.length group).
Proof.
  induction group as [|c group IH]; intros post H.
  - cbn [append lastIndexOf]. rewrite lastIndexOf_absent_char by exact H.
    rewrite prefix_char, Ascii.eqb_refl. reflexivity.
  - cbn [append lastIndexOf]. rewrite IH by exact H. reflexivity.
Qed.

End StringFacts.


(** ** Objects *)

Section ObjectFacts.

Local Open Scope list_scope.

Lemma obj_get_replace_same : forall k v o x, obj_get k o = Some x -> obj_get k (obj_replace k v o) = Some v.
Proof.
  induction o as [|[k' v'] o IH]; intros x H; [discriminate|].
  cbn in *. destruct (String.eqb k' k) eqn:E.
  - cbn. now rewrite String.eqb_refl.
  - cbn. rewrite E. eauto.
Qed.

Lemma obj_get_replace_other : forall k k' v o, k' <> k -> obj_get k' (obj_replace k v o) = obj_get k' o.
Proof.
  induction o as [|[k0 v0] o IH]; intros Hne; [reflexivity|].
  cbn. destruct (String.eqb k0 k) eqn:E.
  - apply String.eqb_eq in E. subst k0. cbn.
    destruct (String.eqb k k') eqn:E2; [apply String.eqb_eq in E2; congruence|reflexivity].
  - cbn. destruct (String.eqb k0 k'); auto.
Qed.

Lemma obj_get_insert_index_same : forall k v o, obj_get k o = None -> obj_get k (obj_insert_index k v o) = Some v.
Proof.
  induction o as [|[k0 v0] o IH]; intros H; cbn in *.
  - now rewrite String.eqb_refl.
  - destruct (String.eqb k0 k) eqn:E; [discriminate|].
    destruct (is_array_index k0 && N.ltb (digits_value 0 k0) (digits_value 0 k)); cbn.
    + rewrite E. auto.
    + now rewrite String.eqb_refl.
Qed.

Lemma obj_get_insert_index_other : forall k v o k', k' <> k -> obj_get k' (obj_insert_index k v o) = obj_get k' o.
Proof.
  induction o as [|[k0 v0] o IH]; intros k' Hne; cbn.
  - destruct (String.eqb k k') eqn:E; [apply String.eqb_eq in E; congruence|reflexivity].
  - destruct (is_array_index k0 && N.ltb (digits_value 0 k0) (digits_value 0 k)); cbn.
    + destruct (String.eqb k0 k'); auto.
    + destruct (String.eqb k k') eqn:E; [apply String.eqb_eq in E; congruence|reflexivity].
Qed.

Lemma obj_get_app : forall k o1 o2, obj_get k (o1 ++ o2) = match obj_get k o1 with Some v => Some v | None => obj_get k o2 end.
Proof.
  induction o1 as [|[k0 v0] o1 IH]; intros o2; cbn; [reflexivity|].
  destruct (String.eqb k0 k); auto.
Qed.

Lemma obj_get_set_same : forall k v o, obj_get k (obj_set k v o) = Some v.
Proof.
  intros k v o. unfold obj_set. destruct (obj_get k o) eqn:E.
  - eapply obj_get_replace_same; eauto.
  - destruct (is_array_index k).
    + now apply obj_get_insert_index_same.
    + rewrite obj_get_app, E. cbn. now rewrite String.eqb_refl.
Qed.

Lemma obj_get_set_other : forall k v o k', k' <> k -> obj_get k' (obj_set k v o) = obj_get k' o.
Proof.
  intros k v o k' Hne. unfold obj_set. destruct (obj_get k o) eqn:E.
  - now apply obj_get_replace_other.
  - destruct (is_array_index k).
    + now apply obj_get_insert_index_other.
    + rewrite obj_get_app. destruct (obj_get k' o); [reflexivity|].
      cbn. destruct (String.eqb k k') eqn:E2; [apply String.eqb_eq in E2; congruence|reflexivity].
Qed.

Lemma length_obj_replace : forall k v o, length (obj_replace k v o) = length o.
Proof. induction o as [|[k0 v0] o IH]; cbn; [reflexivity|]. destruct (String.eqb k0 k); cbn; auto. Qed.

Lemma length_obj_insert_index : forall k v o, length (obj_insert_index k v o) = S (length o).
Proof. induction o as [|[k0 v0] o IH]; cbn; [reflexivity|].
  destruct (is_array_index k0 && _); cbn; auto. Qed.

Lemma length_obj_set : forall k v o, length (obj_set k v o) <= S (length o).
Proof.
  intros. unfold obj_set. destruct (obj_get k o).
  - rewrite length_obj_replace. lia.
  - destruct (is_array_index k); [rewrite length_obj_insert_index; lia|].
    rewrite length_app. cbn. lia.
Qed.

Lemma entry_count_app : forall o1 o2, entry_count (o1 ++ o2) = entry_count o1 + entry_count o2.
Proof. intros. unfold entry_count. now rewrite map_app, list_sum_app. Qed.

Lemma entry_count_cons : forall k v o,
  entry_count ((k, v) :: o) = length (own_props v) + entry_count o.
Proof. reflexivity. Qed.

Lemma entry_count_replace : forall k v o x,
  obj_get k o = Some x ->
  entry_count (obj_replace k v o) + length (own_props x) = entry_count o + length (own_props v).
Proof.
  induction o as [|[k0 v0] o IH]; intros x H; [discriminate|].
  cbn in H. cbn [obj_replace]. destruct (String.eqb k0 k) eqn:E.
  - injection H as ->. rewrite !entry_count_cons. lia.
  - specialize (IH x H). rewrite !entry_count_cons. lia.
Qed.

End ObjectFacts.

(** ** Batches *)

Section BatchProofs.

Local Open Scope list_scope.
Context {A : Type}.
Variable f : A -> JsValue.

Lemma chunks_upto_nil : forall fuel B, chunks_upto fuel B (@nil A) = [].
Proof. destruct fuel; reflexivity. Qed.

Lemma chunks_upto_enough : forall fuel fuel' B (l : list A),
  1 <= B -> length l <= fuel -> length l <= fuel' ->
  chunks_upto fuel B l = chunks_upto fuel' B l.
Proof.
  induction fuel as [|fuel IH]; intros fuel' B l HB Hf Hf'.
  - destruct l; [|simpl in Hf; lia]. now rewrite !chunks_upto_nil.
  - destruct l as [|x l]; [now rewrite !chunks_upto_nil|].
    destruct fuel' as [|fuel']; [simpl in Hf'; lia|].
    simpl chunks_upto. f_equal.
    assert (Hlen : length (skipn B (x :: l)) <= length l).
    { rewrite length_skipn. cbn [length]. lia. }
    simpl in Hf, Hf'. apply IH; lia.
Qed.

Lemma concat_chunks_upto : forall fuel B (l : list A),
  1 <= B -> length l <= fuel -> concat (chunks_upto fuel B l) = l.
Proof.
  induction fuel as [|fuel IH]; intros B l HB Hf.
  - destruct l; [reflexivity | simpl in Hf; lia].
  - destruct l as [|x l]; [reflexivity|].
    cbn [chunks_upto concat]. rewrite IH; [apply firstn_skipn | exact HB |].
    rewrite length_skipn. cbn [length] in *. lia.
Qed.

Lemma chunks_upto_sizes : forall fuel B (l : list A),
  1 <= B -> Forall (fun c => 1 <= length c <= B) (chunks_upto fuel B l).
Proof.
  induction fuel as [|fuel IH]; intros B l HB; [constructor|].
  destruct l as [|x l]; [constructor|].
  cbn [chunks_upto]. constructor; [|apply IH; exact HB].
  rewrite length_firstn. cbn [length]. lia.
Qed.

Variables (B d : nat) (items : list A).
Variable processFn : list A -> list (BatchEvent A) -> list (BatchEvent A) * Outcome JsValue.
Hypothesis HB : 1 <= B.
Hypothesis HprocessFn : forall chunk w,
  processFn chunk w = (w ++ [Invoked chunk], Ok (JArr (map f chunk))).

Lemma processBatches_loop_run : forall fuel i results w,
  length items - i < fuel ->
  processBatches_loop pause items processFn B d fuel i results w
  = (w ++ schedule d (chunks_upto fuel B (skipn i items)),
     Ok (results ++ map f (skipn i items))).
Proof.
  induction fuel as [|fuel IH]; intros i results w Hfuel; [lia|].
  cbn [processBatches_loop].
  destruct (i <? length items) eqn:Hi.
  - apply Nat.ltb_lt in Hi.
    unfold slice. replace (i + B - i) with B by lia.
    rewrite HprocessFn. cbn [iterate].
    rewrite IH by lia.
    replace (i + B) with (B + i) by lia. rewrite <- skipn_skipn.
    remember (skipn i items) as rest eqn:Hrest.
    assert (Hlen : length rest = length items - i) by (subst rest; apply length_skipn).
    destruct rest as [|x rest]; [simpl in Hlen; lia|].
    cbn [chunks_upto]. f_equal.
    + destruct (B + i <? length items) eqn:Hmore.
      * apply Nat.ltb_lt in Hmore.
        assert (Hl2 : length (skipn B (x :: rest)) = length items - i - B).
        { rewrite length_skipn, Hlen. reflexivity. }
        destruct fuel as [|fuel]; [lia|].
        destruct (skipn B (x :: rest)) as [|y more] eqn:Hsk; [simpl in Hl2; lia|].
        cbn [chunks_upto schedule]. unfold pause.
        rewrite <- !app_assoc. reflexivity.
      * apply Nat.ltb_ge in Hmore.
        assert (Hl2 : length (skipn B (x :: rest)) = 0).
        { rewrite length_skipn, Hlen. lia. }
        destruct (skipn B (x :: rest)); [|discriminate].
        rewrite chunks_upto_nil. cbn [schedule]. now rewrite app_nil_r.
    + f_equal. rewrite <- app_assoc, <- map_app, firstn_skipn. reflexivity.
  - apply Nat.ltb_ge in Hi.
    rewrite skipn_all2 by exact Hi.
    rewrite chunks_upto_nil. cbn. now rewrite !app_nil_r.
Qed.
End BatchProofs.

(** ** Regrouping *)

Section RegroupFacts.

Local Open Scope list_scope.


Lemma length_flatten : forall b : Buckets,
  length (flatten b)
  = length (b common) + length (b navigation) + length (b components)
    + length (b messages) + length (b forms) + length (b errors).
Proof.
  intros b. unfold flatten, all_namespaces. cbn [flat_map].
  rewrite !length_app, !length_map. cbn [length]. lia.
Qed.

Lemma length_flatten_push : forall n str b,
  length (flatten (push n str b)) = S (length (flatten b)).
Proof.
  intros n str b. rewrite !length_flatten.
  destruct n; unfold push; cbn; rewrite length_app; cbn [length]; lia.
Qed.

Lemma length_flatten_fold : forall strs b,
  length (flatten (fold_left (fun b str => push (classify str) str b) strs b))
  = length strs + length (flatten b).
Proof.
  induction strs as [|s strs IH]; intros b; [reflexivity|].
  cbn [fold_left length]. rewrite IH, length_flatten_push. lia.
Qed.

Lemma length_flatten_categorize : forall strs,
  length (flatten (categorize strs)) = length strs.
Proof.
  intros strs. unfold categorize. rewrite length_flatten_fold.
  rewrite length_flatten. cbn. lia.
Qed.

Lemma regroup_step_count : forall indexMap translation idx o o',
  regroup_step indexMap translation idx o = Ok o' ->
  entry_count o' <= S (entry_count o).
Proof.
  intros indexMap translation idx o o' H. unfold regroup_step in H.
  destruct (nth_error indexMap idx) as [[namespace original]|]; [|discriminate].
  injection H as <-.
  set (name := namespace_name namespace).
  assert (Hidx : is_array_index name = false) by (destruct namespace; reflexivity).
  destruct (obj_get name o) as [x|] eqn:E.
  - rewrite E. unfold obj_set at 1. rewrite E.
    pose proof (entry_count_replace name (JObj (obj_set (deriveKey original) translation (own_props x))) o x E) as Hc.
    cbn [own_props] in Hc.
    pose proof (length_obj_set (deriveKey original) translation (own_props x)). lia.
  - assert (E1 : obj_set name (JObj []) o = o ++ [(name, JObj [])]).
    { unfold obj_set. now rewrite E, Hidx. }
    rewrite E1. rewrite obj_get_app, E. cbn [obj_get]. rewrite String.eqb_refl.
    cbn [own_props].
    unfold obj_set at 1. rewrite obj_get_app, E. cbn [obj_get]. rewrite String.eqb_refl.
    pose proof (entry_count_replace name (JObj (obj_set (deriveKey original) translation [])) (o ++ [(name, JObj [])]) (JObj [])) as Hc.
    rewrite obj_get_app, E in Hc. cbn [obj_get] in Hc. rewrite String.eqb_refl in Hc.
    specialize (Hc eq_refl). cbn [own_props length] in Hc.
    rewrite entry_count_app in Hc. change (entry_count [(name, JObj [])]) with 0 in Hc.
    pose proof (length_obj_set (deriveKey original) translation []). cbn [length] in *. lia.
Qed.

Lemma regroup_within : forall indexMap translations idx o,
  idx + length translations <= length indexMap ->
  exists o', regroup indexMap translations idx o = Ok o'
             /\ entry_count o' <= entry_count o + length translations.
Proof.
  induction translations as [|t ts IH]; intros idx o H.
  - exists o. cbn. split; [reflexivity|lia].
  - cbn [regroup]. cbn [length] in H.
    destruct (regroup_step indexMap t idx o) as [o1| |] eqn:E.
    + destruct (IH (S idx) o1) as [o' [Ho' Hc]]; [lia|].
      exists o'. split; [exact Ho'|]. apply regroup_step_count in E. cbn [length]. lia.
    + unfold regroup_step in E. destruct (nth_error indexMap idx) as [[? ?]|] eqn:En; [discriminate|].
      apply nth_error_None in En. lia.
    + unfold regroup_step in E. destruct (nth_error indexMap idx) as [[? ?]|]; discriminate.
Qed.

Lemma regroup_beyond : forall indexMap translations idx o,
  idx <= length indexMap ->
  length indexMap < idx + length translations ->
  regroup indexMap translations idx o = Throw TypeError.
Proof.
  induction translations as [|t ts IH]; intros idx o Hle H; cbn [length] in H; [lia|].
  cbn [regroup]. unfold regroup_step at 1.
  destruct (nth_error indexMap idx) as [[namespace original]|] eqn:En.
  - apply IH; [|lia]. assert (idx < length indexMap); [|lia].
    apply nth_error_Some. congruence.
  - reflexivity.
Qed.

End RegroupFacts.

(** ** The provider's answer *)

Section GeminiFacts.
Local Open Scope string_scope.

Lemma parse_input_between : forall pre group post : string,
  includes pre "[" = false ->
  includes post "]" = false ->
  parse_input (pre ++ "[" ++ group ++ "]" ++ post) = "[" ++ group ++ "]".
Proof.
  intros pre group post Hpre Hpost. unfold parse_input, match_brackets.
  change ("[" ++ group ++ "]" ++ post) with (String "[" (group ++ String "]" post)).
  rewrite indexOf_append_char by exact Hpre.
  change (S (String.length pre)) with (String.length (String "x" pre)).
  replace (drop (String.length (String "x" pre)) (pre ++ String "[" (group ++ String "]" post)))
    with (group ++ String "]" post).
  2:{ cbn [String.length]. symmetry.
      replace (S (String.length pre)) with (String.length (pre ++ "[")) by (rewrite length_append; cbn; lia).
      replace (pre ++ String "[" (group ++ String "]" post)) with ((pre ++ "[") ++ (group ++ String "]" post)).
      - apply drop_append.
      - now rewrite append_assoc. }
  rewrite lastIndexOf_append_char by exact Hpost.
  rewrite take_append. reflexivity.
Qed.

Lemma parse_input_no_opening : forall text : string,
  includes text "[" = false -> parse_input text = text.
Proof.
  intros text H. unfold parse_input, match_brackets.
  now rewrite indexOf_absent_char.
Qed.

Lemma parse_input_no_closing : forall pre rest : string,
  includes pre "[" = false ->
  includes rest "]" = false ->
  parse_input (pre ++ "[" ++ rest) = pre ++ "[" ++ rest.
Proof.
  intros pre rest Hpre Hrest. unfold parse_input, match_brackets.
  change ("[" ++ rest) with (String "[" rest).
  rewrite indexOf_append_char by exact Hpre.
  replace (drop (S (String.length pre)) (pre ++ String "[" rest)) with rest.
  - now rewrite lastIndexOf_absent_char.
  - symmetry.
    replace (S (String.length pre)) with (String.length (pre ++ "[")) by (rewrite length_append; cbn; lia).
    replace (pre ++ String "[" rest) with ((pre ++ "[") ++ rest) by now rewrite append_assoc.
    apply drop_append.
Qed.
Lemma split_at_first : forall (p : ascii) (s : string),
  includes s (String p "") = true ->
  exists pre rest, s = pre ++ String p rest /\ includes pre (String p "") = false.
Proof.
  induction s as [|c s IH]; intros H; [discriminate|].
  cbn [includes] in H. rewrite prefix_char in H.
  destruct (Ascii.eqb p c) eqn:E.
  - apply Ascii.eqb_eq in E. subst c. exists "", s. split; reflexivity.
  - cbn [orb] in H. destruct (IH H) as [pre [rest [-> Hpre]]].
    exists (String c pre), rest. split; [reflexivity|].
    cbn [includes]. rewrite prefix_char, E. exact Hpre.
Qed.

Lemma split_at_last : forall (p : ascii) (s : string),
  includes s (String p "") = true ->
  exists group post, s = group ++ String p post /\ includes post (String p "") = false.
Proof.
  induction s as [|c s IH]; intros H; [discriminate|].
  destruct (includes s (String p "")) eqn:Hs.
  - destruct (IH eq_refl) as [group [post [-> Hpost]]].
    exists (String c group), post. split; [reflexivity | exact Hpost].
  - cbn [includes] in H. rewrite Hs, orb_false_r, prefix_char in H.
    apply Ascii.eqb_eq in H. subst c. exists "", s. split; [reflexivity | exact Hs].
Qed.

(** Every text falls under one of the three cases of [parse_input]. *)
Lemma bracket_cases : forall text : string,
  includes text "[" = false
  \/ (exists pre rest,
        text = pre ++ "[" ++ rest
        /\ includes pre "[" = false /\ includes rest "]" = false)
  \/ (exists pre group post,
        text = pre ++ "[" ++ group ++ "]" ++ post
        /\ includes pre "[" = false /\ includes post "]" = false).
Proof.
  intros text. destruct (includes text "[") eqn:Hopen; [right | now left].
  destruct (split_at_first "[" text Hopen) as [pre [rest [-> Hpre]]].
  destruct (includes rest "]") eqn:Hclose.
  - right. destruct (split_at_last "]" rest Hclose) as [group [post [-> Hpost]]].
    exists pre, group, post. repeat split; assumption.
  - left. exists pre, rest. repeat split; assumption.
Qed.

End GeminiFacts.

(** ** The pipeline *)

Section PipelineTheorems.

Local Open Scope list_scope.


(** Claim C2. For every item list [P], every batch size [B] between 1 and
    the length of [P] (15 when none is given) and every per-batch function
    that returns the image of its chunk, element by element and in order,
    [processBatches] hands the contiguous chunks of [P], of at most [B]
    elements each, to the function one after the other, pauses for the
    delay (2000 ms when none is given) between two chunks and not after the
    last, and returns the images of the elements of [P] in the order of
    [P]. The per-batch function reports each invocation to the observer,
    which is how the order of invocations and pauses is seen. *)
Theorem processBatches_keeps_order :
  forall (A : Type) (f : A -> JsValue) (P : list A)
         (processFn : list A -> list (BatchEvent A) -> list (BatchEvent A) * Outcome JsValue)
         (batchSize delayMs : option nat) (w : list (BatchEvent A)),
    let B := match batchSize with Some b => b | None => 15 end in
    let d := match delayMs with Some ms => ms | None => 2000 end in
    1 <= B <= length P ->
    (forall chunk w', processFn chunk w' = (w' ++ [Invoked chunk], Ok (JArr (map f chunk)))) ->
    processBatches pause P processFn batchSize delayMs w
    = (w ++ schedule d (chunks B P), Ok (map f P))
    /\ concat (chunks B P) = P
    /\ Forall (fun c => 1 <= length c <= B) (chunks B P).
Proof.
  intros A f P processFn batchSize delayMs w B d [HB HP] Hfn.
  split; [|split].
  - unfold processBatches.
    change (match batchSize with Some b => b | None => default_batchSize end) with B.
    change (match delayMs with Some ms => ms | None => default_delayMs end) with d.
    rewrite (processBatches_loop_run f B d P processFn HB Hfn) by lia.
    cbn [skipn app]. unfold chunks.
    rewrite (chunks_upto_enough (S (length P)) (length P) B P); auto.
  - apply concat_chunks_upto; auto.
  - apply chunks_upto_sizes; auto.
Qed.

Lemma processBatches_keeps_order_witness :
  processBatches pause ["a"; "b"; "c"] echo (Some 2) (Some 5) []
  = ([Invoked ["a"; "b"]; Paused 5; Invoked ["c"]], Ok [JStr "a"; JStr "b"; JStr "c"])
  /\ processBatches pause sixteen echo None None []
     = ([Invoked (firstn 15 sixteen); Paused 2000; Invoked ["p16"]], Ok (map JStr sixteen)).
Proof.
  split.
  - refine (proj1 (processBatches_keeps_order string JStr ["a"; "b"; "c"] echo (Some 2) (Some 5) [] _ _)).
    + cbn. lia.
    + reflexivity.
  - refine (proj1 (processBatches_keeps_order string JStr sixteen echo None None [] _ _)).
    + cbn. lia.
    + reflexivity.
Defined.

(** Claim C8. For every target language, key and service, and whatever the
    network and the parser would do, [translateStrings] on an absent or
    empty list of phrases returns the empty mapping and leaves the world
    as it was: no request is posted, no pause is taken. *)
Theorem translateStrings_empty_input :
  forall (net : World -> string -> string -> HttpReply)
         (JSON_parse : string -> option JsValue)
         (targetLang apiKey : string) (service : option string) (w : World),
    translateStrings net JSON_parse None targetLang apiKey service w = (w, Ok (JObj []))
    /\ translateStrings net JSON_parse (Some []) targetLang apiKey service w = (w, Ok (JObj [])).
Proof.
  intros. split; reflexivity.
Qed.

(** Claim C1, amended. [translateStrings] does not compare the number of
    translations with the number of phrases. Whenever the batched calls to
    the provider return [translations]: if there are no more of them than
    phrases, the call succeeds with the mapping regrouped from them, which
    has at most that many entries; if there are more, the regrouping loop
    throws a TypeError at the first translation without a phrase. *)
Theorem translateStrings_does_not_check_the_count :
  forall (net : World -> string -> string -> HttpReply)
         (JSON_parse : string -> option JsValue)
         (strs : list string) (targetLang apiKey : string) (service : option string)
         (w w1 : World) (translations : list JsValue),
    strs <> [] ->
    service = None \/ service = Some "gemini" ->
    processBatches sleep (map snd (flatten (categorize strs)))
      (fun batch => translateWithGemini net JSON_parse batch targetLang apiKey)
      None None w = (w1, Ok translations) ->
    (length translations <= length strs ->
       exists o,
         translateStrings net JSON_parse (Some strs) targetLang apiKey service w
         = (w1, Ok (JObj o))
         /\ regroup (flatten (categorize strs)) translations 0 [] = Ok o
         /\ entry_count o <= length translations)
    /\ (length strs < length translations ->
          translateStrings net JSON_parse (Some strs) targetLang apiKey service w
          = (w1, Throw TypeError)).
Proof.
  intros net JSON_parse strs targetLang apiKey service w w1 translations Hne Hservice Hrun.
  destruct strs as [|s strs]; [contradiction|].
  set (all := s :: strs) in *.
  assert (Hlen : length (flatten (categorize all)) = length all)
    by apply length_flatten_categorize.
  assert (Hbody : translateStrings net JSON_parse (Some all) targetLang apiKey service w
                  = match regroup (flatten (categorize all)) translations 0 [] with
                    | Ok translatedObject => (w1, Ok (JObj translatedObject))
                    | Throw err => (w1, Throw err)
                    | Hang => (w1, Hang)
                    end).
  { unfold translateStrings. fold all.
    destruct Hservice as [-> | ->]; cbn [String.eqb Ascii.eqb Bool.eqb];
      rewrite Hrun; reflexivity. }
  rewrite Hbody. split; intros Hcount.
  - destruct (regroup_within (flatten (categorize all)) translations 0 []) as [o [Ho Hc]].
    { rewrite Hlen. cbn [Nat.add]. exact Hcount. }
    exists o. rewrite Ho. repeat split; assumption.
  - rewrite regroup_beyond; [reflexivity | lia | rewrite Hlen; cbn [Nat.add]; exact Hcount].
Qed.

(** The amended claim at a provider that answers two phrases with one
    translation. *)
Lemma translateStrings_does_not_check_the_count_witness :
  exists o,
    translateStrings (answering (one_string "Hola")) parse_json
      (Some ["Hello"; "World"]) "es" "KEY" None []
    = ([Post (endpoint "KEY") (prompt_for ["Hello"; "World"] "es")], Ok (JObj o))
    /\ regroup (flatten (categorize ["Hello"; "World"])) [JStr "Hola"] 0 [] = Ok o
    /\ entry_count o <= 1.
Proof.
  refine (proj1 (translateStrings_does_not_check_the_count
            (answering (one_string "Hola")) parse_json ["Hello"; "World"] "es" "KEY" None
            [] [Post (endpoint "KEY") (prompt_for ["Hello"; "World"] "es")]
            [JStr "Hola"] _ _ _) _).
  - discriminate.
  - left. reflexivity.
  - vm_compute. reflexivity.
  - cbn. lia.
Defined.

(** Claim C1 as stated fails: the provider returns one string for the two
    phrases sent, and [translateStrings] returns a mapping with the single
    entry [hello] instead of failing. *)
Lemma translateStrings_accepts_a_short_answer :
  parse_json (parse_input (one_string "Hola")) = Some (JArr [JStr "Hola"])
  /\ map snd (flatten (categorize ["Hello"; "World"])) = ["Hello"; "World"]
  /\ translateStrings (answering (one_string "Hola")) parse_json
       (Some ["Hello"; "World"]) "es" "KEY" None []
     = ([Post (endpoint "KEY") (prompt_for ["Hello"; "World"] "es")],
        Ok (JObj [("common", JObj [("hello", JStr "Hola")])])).
Proof.
  split; [|split]; vm_compute; reflexivity.
Qed.

End PipelineTheorems.

Section ProviderTheorems.

Local Open Scope string_scope.

(** Claim C9, amended. When the provider's first candidate carries the text
    [responseText], the client returns what [JSON.parse] makes of
    [parse_input responseText] and throws the SyntaxError when parsing
    fails. The text parsed runs from the first opening bracket to the last
    closing bracket of the answer; it is the whole answer when the answer
    has no opening bracket, or no closing bracket after the first opening
    one; and every answer is of one of these three kinds. *)
Theorem translateWithGemini_parses_the_bracket_span :
  forall (net : World -> string -> string -> HttpReply)
         (JSON_parse : string -> option JsValue)
         (texts : list string) (targetLang apiKey : string) (w : World)
         (responseText : string) (others : list (option string)),
    texts <> [] ->
    net w (endpoint apiKey) (prompt_for texts targetLang)
      = Reply (Some (Some responseText :: others)) ->
    translateWithGemini net JSON_parse texts targetLang apiKey w
      = ((w ++ [Post (endpoint apiKey) (prompt_for texts targetLang)])%list,
         match JSON_parse (parse_input responseText) with
         | Some v => Ok v
         | None => Throw SyntaxError
         end)
    /\ (forall pre group post,
          responseText = pre ++ "[" ++ group ++ "]" ++ post ->
          includes pre "[" = false -> includes post "]" = false ->
          parse_input responseText = "[" ++ group ++ "]")
    /\ (includes responseText "[" = false -> parse_input responseText = responseText)
    /\ (forall pre rest,
          responseText = pre ++ "[" ++ rest ->
          includes pre "[" = false -> includes rest "]" = false ->
          parse_input responseText = responseText)
    /\ (includes responseText "[" = false
        \/ (exists pre rest,
              responseText = pre ++ "[" ++ rest
              /\ includes pre "[" = false /\ includes rest "]" = false)
        \/ (exists pre group post,
              responseText = pre ++ "[" ++ group ++ "]" ++ post
              /\ includes pre "[" = false /\ includes post "]" = false)).
Proof.
  intros net JSON_parse texts targetLang apiKey w responseText others Hne Hnet.
  split; [|split; [|split; [|split]]].
  - unfold translateWithGemini. destruct texts as [|t texts]; [contradiction|].
    rewrite Hnet. destruct (JSON_parse (parse_input responseText)); reflexivity.
  - intros pre group post -> Hpre Hpost. now apply parse_input_between.
  - apply parse_input_no_opening.
  - intros pre rest -> Hpre Hrest. now apply parse_input_no_closing.
  - apply bracket_cases.
Qed.

(** The amended claim at an answer that wraps the array in prose. *)
Lemma translateWithGemini_parses_the_bracket_span_witness :
  translateWithGemini (answering ("Sure: " ++ one_string "Hola" ++ " (done)")) parse_json
    ["Hello"] "es" "KEY" []
  = ([Post (endpoint "KEY") (prompt_for ["Hello"] "es")], Ok (JArr [JStr "Hola"]))
  /\ parse_input ("Sure: " ++ one_string "Hola" ++ " (done)") = one_string "Hola".
Proof.
  pose proof (translateWithGemini_parses_the_bracket_span
                (answering ("Sure: " ++ one_string "Hola" ++ " (done)")) parse_json
                ["Hello"] "es" "KEY" [] ("Sure: " ++ one_string "Hola" ++ " (done)") []
                ltac:(discriminate) eq_refl) as [Hrun [Hspan _]].
  split.
  - exact Hrun.
  - exact (Hspan "Sure: " (dquote ++ "Hola" ++ dquote) " (done)" eq_refl eq_refl eq_refl).
Defined.


(** Claim C9 as stated fails: the first top-level bracketed array of the
    answer is a JSON text, yet the client parses the span up to the last
    closing bracket and throws. *)
Lemma translateWithGemini_misses_the_first_array :
  first_bracketed_array two_arrays = Some (one_string "a")
  /\ parse_json (one_string "a") = Some (JArr [JStr "a"])
  /\ parse_input two_arrays = two_arrays
  /\ translateWithGemini (answering two_arrays) parse_json ["x"] "es" "KEY" []
     = ([Post (endpoint "KEY") (prompt_for ["x"] "es")], Throw SyntaxError).
Proof.
  repeat split; vm_compute; reflexivity.
Qed.

End ProviderTheorems.

(** ** Classification and keys *)

Section Classification.

Local Open Scope string_scope.

(** Claim C6. The chain of conditions of [translateStrings] classifies every
    phrase as the ordered rule list of section 4.3 does, the first rule
    with a word occurring in the lower-cased phrase deciding and the length
    (below 20 characters or not) deciding when there is none; it is a
    function of the phrase. Rule by rule: a phrase with a word of the
    first rule is an error phrase whatever else it contains; failing that,
    a word of the second rule makes it a navigation phrase; failing that, a
    word of the third makes it a form phrase; failing that, a word of the
    fourth makes it a message; failing all four it is common below 20
    characters and a component phrase from 20 on. "Submit Error" is an
    error phrase although it has a word of the third rule. *)
Theorem classify_follows_the_rule_list :
  forall phrase : string,
    classify phrase = classify_by_rules phrase
    /\ classify phrase = classify phrase
    /\ (mentions phrase ["error"; "fail"; "invalid"] = true -> classify phrase = errors)
    /\ (mentions phrase ["error"; "fail"; "invalid"] = false ->
        (mentions phrase ["home"; "about"; "contact"] = true -> classify phrase = navigation)
        /\ (mentions phrase ["home"; "about"; "contact"] = false ->
            (mentions phrase ["submit"; "cancel"; "save"] = true -> classify phrase = forms)
            /\ (mentions phrase ["submit"; "cancel"; "save"] = false ->
                (mentions phrase ["loading"; "success"; "warning"] = true ->
                 classify phrase = messages)
                /\ (mentions phrase ["loading"; "success"; "warning"] = false ->
                    (String.length phrase < 20 -> classify phrase = common)
                    /\ (20 <= String.length phrase -> classify phrase = components)))))
    /\ classify "Submit Error" = errors
    /\ mentions "Submit Error" ["submit"; "cancel"; "save"] = true.
Proof.
  intros phrase.
  assert (Hrules : classify phrase = classify_by_rules phrase).
  { unfold classify, classify_by_rules, rule_list. cbn [first_match existsb].
    rewrite !orb_false_r, !orb_assoc.
    repeat match goal with
           | |- context [if ?b || ?c then _ else _] => destruct (b || c); try reflexivity
           end. }
  split; [exact Hrules|]. split; [reflexivity|].
  rewrite Hrules. unfold classify_by_rules, rule_list, mentions. cbn [first_match].
  split; [intros ->; reflexivity|].
  split; [|split; reflexivity].
  intros ->. split; [intros ->; reflexivity|].
  intros ->. split; [intros ->; reflexivity|].
  intros ->. split; [intros ->; reflexivity|].
  intros ->. split; intros Hlen.
  - apply Nat.ltb_lt in Hlen. now rewrite Hlen.
  - apply Nat.ltb_ge in Hlen. now rewrite Hlen.
Qed.

End Classification.

Section Keys.

Local Open Scope string_scope.

Lemma split_words_word : forall (w cur s : string),
  forall_chars is_alnum w = true ->
  split_words cur (w ++ s) = split_words (cur ++ w) s.
Proof.
  induction w as [|c w IH]; intros cur s H.
  - cbn. now rewrite append_nil_r.
  - cbn [forall_chars] in H. apply andb_true_iff in H as [Hc Hw].
    cbn [append split_words]. rewrite Hc, IH by exact Hw.
    rewrite append_assoc. reflexivity.
Qed.

Lemma split_words_gap : forall (sep s : string),
  forall_chars (fun c => negb (is_alnum c)) sep = true ->
  split_words "" (sep ++ s) = split_words "" s.
Proof.
  induction sep as [|c sep IH]; intros s H; [reflexivity|].
  cbn [forall_chars] in H. apply andb_true_iff in H as [Hc Hsep].
  apply negb_true_iff in Hc.
  cbn [append split_words]. rewrite Hc. cbn. now apply IH.
Qed.

Lemma split_words_break : forall (cur sep s : string),
  String.eqb cur "" = false ->
  is_separator sep = true ->
  split_words cur (sep ++ s) = cur :: split_words "" s.
Proof.
  intros cur sep s Hcur Hsep. unfold is_separator in Hsep.
  apply andb_true_iff in Hsep as [Hne Hall].
  destruct sep as [|c sep]; [discriminate|].
  cbn [forall_chars] in Hall. apply andb_true_iff in Hall as [Hc Hall].
  apply negb_true_iff in Hc.
  cbn [append split_words]. rewrite Hc, Hcur. f_equal. now apply split_words_gap.
Qed.

Lemma split_words_parts : forall (parts : list (string * string)) (last : string),
  Forall (fun p => is_word (fst p) = true /\ is_separator (snd p) = true) parts ->
  forall_chars is_alnum last = true ->
  split_words "" (assemble parts ++ last)
  = (map fst parts ++ (if String.eqb last "" then [] else [last]))%list.
Proof.
  induction parts as [|[w sep] parts IH]; intros last Hparts Hlast.
  - cbn [assemble map app append]. rewrite <- (append_nil_r last) at 1.
    rewrite split_words_word by exact Hlast. cbn. reflexivity.
  - inversion Hparts as [|p ps [Hw Hsep] Hrest]; subst. cbn [fst snd] in *.
    cbn [assemble map app]. rewrite !append_assoc.
    unfold is_word in Hw. apply andb_true_iff in Hw as [Hne Hall].
    rewrite split_words_word by exact Hall. cbn [append].
    rewrite split_words_break; [|now apply negb_true_iff in Hne|exact Hsep].
    f_equal. now apply IH.
Qed.

Lemma forall_chars_substring : forall (p : ascii -> bool) (m : nat) (s : string),
  forall_chars p s = true -> forall_chars p (substring 0 m s) = true.
Proof.
  induction m as [|m IH]; intros s H; destruct s as [|c s]; cbn; try reflexivity.
  cbn [forall_chars] in H. apply andb_true_iff in H as [Hc Hs].
  rewrite Hc. cbn. now apply IH.
Qed.

(** Claim C7. The key of a phrase is the camel-case form of its first 30
    characters. For a text made of words (runs of letters and digits) and
    separators (runs of other characters), the camel-case form joins the
    words, the first one lower-cased and the later ones capitalized. So
    "Submit Form Now" and "submit form now!!" have the same key, and the
    empty phrase and every phrase without a letter or digit have the empty
    key. *)
Theorem deriveKey_is_camel_case_of_the_prefix :
  forall (lead : string) (parts : list (string * string)) (last : string),
    forall_chars (fun c => negb (is_alnum c)) lead = true ->
    Forall (fun p => is_word (fst p) = true /\ is_separator (snd p) = true) parts ->
    forall_chars is_alnum last = true ->
    camelCase (lead ++ assemble parts ++ last)
    = camel_join (map fst parts ++ (if String.eqb last "" then [] else [last]))%list
    /\ (forall first rest, camel_join (first :: rest)
                           = toLowerCase first ++ String.concat "" (map capitalize rest))
    /\ (forall phrase, deriveKey phrase = camelCase (substring 0 30 phrase))
    /\ deriveKey "Submit Form Now" = deriveKey "submit form now!!"
    /\ deriveKey "Submit Form Now" = "submitFormNow"
    /\ deriveKey "" = ""
    /\ (forall phrase, forall_chars (fun c => negb (is_alnum c)) phrase = true ->
                       deriveKey phrase = "").
Proof.
  intros lead parts last Hlead Hparts Hlast.
  split; [|repeat split].
  - unfold camelCase. rewrite split_words_gap by exact Hlead.
    now rewrite split_words_parts.
  - intros phrase Hall. unfold deriveKey, camelCase.
    rewrite <- (append_nil_r (substring 0 30 phrase)).
    rewrite split_words_gap; [reflexivity|].
    now apply forall_chars_substring.
Qed.

(** Claim C7 at two phrases written as words and separators. *)
Lemma deriveKey_is_camel_case_of_the_prefix_witness :
  camelCase ("  " ++ assemble [("Submit", " "); ("form", ", "); ("NOW", "!!")] ++ "")
  = "submitFormNow"
  /\ camelCase ("" ++ assemble [("save", "-")] ++ "changes2") = "saveChanges2".
Proof.
  split.
  - refine (proj1 (deriveKey_is_camel_case_of_the_prefix
              "  " [("Submit", " "); ("form", ", "); ("NOW", "!!")] "" _ _ _)).
    + reflexivity.
    + repeat constructor.
    + reflexivity.
  - refine (proj1 (deriveKey_is_camel_case_of_the_prefix
              "" [("save", "-")] "changes2" _ _ _)).
    + reflexivity.
    + repeat constructor.
    + reflexivity.
Defined.

End Keys.

(** ** The resource file *)

Section MergeFacts.

Local Open Scope list_scope.

Lemma obj_get_absent : forall k (o : Props), ~ In k (map fst o) -> obj_get k o = None.
Proof.
  induction o as [|[k0 v0] o IH]; intros H; [reflexivity|].
  cbn in *. destruct (String.eqb k0 k) eqn:E.
  - apply String.eqb_eq in E. tauto.
  - apply IH. tauto.
Qed.

Lemma obj_get_fold_set : forall (props target : Props) (k : string),
  NoDup (map fst props) ->
  obj_get k (fold_left (fun acc kv => obj_set (fst kv) (snd kv) acc) props target)
  = match obj_get k props with
    | Some v => Some v
    | None => obj_get k target
    end.
Proof.
  induction props as [|[k0 v0] props IH]; intros target k Hnd; [reflexivity|].
  cbn [map fst] in Hnd. inversion Hnd as [|? ? Hnotin Hnd']; subst.
  cbn [fold_left fst snd obj_get]. rewrite IH by exact Hnd'.
  destruct (String.eqb k0 k) eqn:E.
  - apply String.eqb_eq in E. subst k0.
    rewrite obj_get_absent by exact Hnotin. apply obj_get_set_same.
  - destruct (obj_get k props); [reflexivity|].
    apply obj_get_set_other. intros ->. now rewrite String.eqb_refl in E.
Qed.

(** [{...a, ...b}]: the properties of [b] win, the others are those of [a]. *)
Lemma obj_get_spread2 : forall (a b : JsValue) (k : string),
  NoDup (map fst (own_props a)) -> NoDup (map fst (own_props b)) ->
  obj_get k (spread (spread [] a) b)
  = match obj_get k (own_props b) with
    | Some v => Some v
    | None => obj_get k (own_props a)
    end.
Proof.
  intros a b k Ha Hb. unfold spread.
  rewrite obj_get_fold_set by exact Hb.
  rewrite obj_get_fold_set by exact Ha.
  destruct (obj_get k (own_props b)); [reflexivity|].
  destruct (obj_get k (own_props a)); reflexivity.
Qed.

Lemma merge_fold_absent : forall (translations : Props) (keys : list string) (merged : Props) (ns : string),
  ~ In ns keys ->
  obj_get ns
    (fold_left
       (fun mergedTranslations namespace =>
          obj_set namespace (merged_namespace mergedTranslations translations namespace)
            mergedTranslations)
       keys merged)
  = obj_get ns merged.
Proof.
  induction keys as [|k0 keys IH]; intros merged ns Hout; [reflexivity|].
  cbn [fold_left]. rewrite IH by (intros H; apply Hout; now right).
  apply obj_get_set_other. intros ->. apply Hout. now left.
Qed.

Lemma merge_fold_present : forall (translations : Props) (keys : list string) (merged : Props) (ns : string),
  NoDup keys -> In ns keys ->
  obj_get ns
    (fold_left
       (fun mergedTranslations namespace =>
          obj_set namespace (merged_namespace mergedTranslations translations namespace)
            mergedTranslations)
       keys merged)
  = Some (merged_namespace merged translations ns).
Proof.
  induction keys as [|k0 keys IH]; intros merged ns Hnd Hin; [contradiction|].
  inversion Hnd as [|? ? Hnotin Hnd']; subst. cbn [fold_left].
  destruct Hin as [->|Hin].
  - rewrite merge_fold_absent by exact Hnotin. apply obj_get_set_same.
  - rewrite IH by assumption.
    assert (Hne : ns <> k0) by (intros ->; contradiction).
    unfold merged_namespace. now rewrite obj_get_set_other.
Qed.

Lemma mergeTranslations_unfold : forall existing translations,
  mergeTranslations existing translations
  = fold_left
      (fun mergedTranslations namespace =>
         obj_set namespace (merged_namespace mergedTranslations translations namespace)
           mergedTranslations)
      (obj_keys translations) (spread [] existing).
Proof. reflexivity. Qed.

Lemma obj_get_in_keys : forall k (o : Props) v, obj_get k o = Some v -> In k (obj_keys o).
Proof.
  induction o as [|[k0 v0] o IH]; intros v H; [discriminate|].
  cbn in *. destruct (String.eqb k0 k) eqn:E.
  - left. now apply String.eqb_eq.
  - right. eauto.
Qed.

Lemma obj_get_spread1 : forall (a : JsValue) (k : string),
  NoDup (map fst (own_props a)) -> obj_get k (spread [] a) = obj_get k (own_props a).
Proof.
  intros a k Ha. unfold spread. rewrite obj_get_fold_set by exact Ha.
  now destruct (obj_get k (own_props a)).
Qed.

(** The incremental merge, namespace by namespace and key by key: a
    namespace of the new entries holds an object whose keys are those of
    the new entries over those of the existing value, or those of the new
    entries alone where the existing object has no such namespace or a
    falsy value under it. *)
Lemma mergeTranslations_is_a_shallow_merge :
  forall (existing : JsValue) (translations : Props) (namespace : string),
    NoDup (obj_keys (own_props existing)) ->
    NoDup (obj_keys translations) ->
    (forall fresh, obj_get namespace translations = Some fresh ->
       exists merged,
         obj_get namespace (mergeTranslations existing translations) = Some (JObj merged)
         /\ (forall old, obj_get namespace (own_props existing) = Some old ->
               truthy old = true ->
               NoDup (obj_keys (own_props old)) -> NoDup (obj_keys (own_props fresh)) ->
               forall key,
                 obj_get key merged
                 = match obj_get key (own_props fresh) with
                   | Some text => Some text
                   | None => obj_get key (own_props old)
                   end)
         /\ (match obj_get namespace (own_props existing) with
             | Some old => truthy old = false
             | None => True
             end ->
             NoDup (obj_keys (own_props fresh)) ->
             forall key, obj_get key merged = obj_get key (own_props fresh)))
    /\ (obj_get namespace translations = None ->
          obj_get namespace (mergeTranslations existing translations)
          = obj_get namespace (own_props existing)).
Proof.
  intros existing translations namespace Hex Htr. rewrite mergeTranslations_unfold.
  split.
  - intros fresh Hfresh. eexists. split; [|split].
    + rewrite merge_fold_present; [reflexivity|exact Htr|].
      eapply obj_get_in_keys; eauto.
    + intros old Hold Htruthy Hndold Hndfresh key.
      rewrite (obj_get_spread1 existing) by exact Hex.
      rewrite Hold, Hfresh, Htruthy.
      apply (obj_get_spread2 old fresh key); assumption.
    + intros Hnone Hndfresh key.
      rewrite (obj_get_spread1 existing) by exact Hex. rewrite Hfresh.
      assert (Hempty : forall current,
                 current = JObj [] ->
                 obj_get key (spread (spread [] current) fresh)
                 = obj_get key (own_props fresh)).
      { intros current ->.
        rewrite (obj_get_spread2 (JObj []) fresh key); [|constructor|exact Hndfresh].
        now destruct (obj_get key (own_props fresh)). }
      apply Hempty.
      destruct (obj_get namespace (own_props existing)) as [old|]; [|reflexivity].
      now rewrite Hnone.
  - intros Habsent. rewrite merge_fold_absent.
    + apply (obj_get_spread1 existing). exact Hex.
    + intros Hin. clear -Hin Habsent.
      induction translations as [|[k0 v0] translations IH]; [contradiction|].
      cbn in *. destruct (String.eqb k0 namespace) eqn:E; [discriminate|].
      destruct Hin as [->|Hin]; [now rewrite String.eqb_refl in E|]. now apply IH.
Qed.

End MergeFacts.

Section AdapterTheorems.

Local Open Scope string_scope.

Lemma code_dollar : forall c : ascii, Ascii.eqb "$" c = false -> Nat.eqb (code c) 36 = false.
Proof.
  intros c H. apply Nat.eqb_neq. intros E. unfold code in E.
  assert (c = "$"%char).
  { rewrite <- (ascii_nat_embedding c), E. reflexivity. }
  subst c. discriminate.
Qed.






Lemma backupPath_differs : forall (file : string) (t : N), backupPath_of file t <> file.
Proof.
  intros file t H. apply (f_equal String.length) in H.
  unfold backupPath_of in H. rewrite !length_append in H. cbn [String.length] in H. lia.
Qed.

Lemma store_same : forall path content f, store path content f path = Some content.
Proof. intros. unfold store. now rewrite String.eqb_refl. Qed.

Lemma store_other : forall path content f p, p <> path -> store path content f p = f p.
Proof.
  intros path content f p H. unfold store.
  destruct (String.eqb p path) eqn:E; [apply String.eqb_eq in E; contradiction|reflexivity].
Qed.

Lemma leave_other : forall path residue f p, p <> path -> leave path residue f p = f p.
Proof. intros path [r|] f p H; cbn; [now apply store_other|reflexivity]. Qed.

(** Claim C5. On an existing resource file, every call of
    [updateTranslations] that succeeds has copied the file to
    [<file>.backup-<time>] and then written the file: the journal gains the
    copy followed by the write, and the backup holds the content the file
    had before the call. When the copy fails, the call throws the error of
    the copy, the file keeps its content and nothing is written. *)
Theorem updateTranslations_backs_up_before_writing :
  forall (js_eval : string -> option JsValue)
         (insertLanguage : string -> string -> Props -> string)
         (env : Env) (structure : Structure) (translations : Props)
         (language : string) (forceAll : bool) (d : Disk) (content : string),
    files d (i18nFile structure) = Some content ->
    (forall d',
       updateTranslations js_eval insertLanguage env structure translations language forceAll d
         = (d', Ok true) ->
       files d' (backupPath_of (i18nFile structure) (now env)) = Some content
       /\ backupPath_of (i18nFile structure) (now env)
          = i18nFile structure ++ ".backup-" ++ decimal (now env)
       /\ journal d'
          = (journal d ++ [Copied (i18nFile structure)
                                  (backupPath_of (i18nFile structure) (now env));
                           Written (i18nFile structure)])%list
       /\ files d' (i18nFile structure)
          = Some (updatedContent js_eval insertLanguage content language translations forceAll))
    /\ (forall err residue,
          read_error env = None ->
          copy_error env = Some (err, residue) ->
          exists d1,
            updateTranslations js_eval insertLanguage env structure translations language forceAll d
              = (d1, Throw err)
            /\ files d1 (i18nFile structure) = Some content
            /\ journal d1 = journal d).
Proof.
  intros js_eval insertLanguage env structure translations language forceAll d content Hfile.
  pose proof (backupPath_differs (i18nFile structure) (now env)) as Hdiff.
  split.
  - intros d'. unfold updateTranslations. rewrite Hfile.
    destruct (read_error env) as [e|]; [discriminate|].
    destruct (copy_error env) as [[e r]|]; [discriminate|].
    destruct (write_error env) as [[e r]|]; [discriminate|].
    intros H. injection H as <-. cbn [files journal].
    split; [|split; [|split]].
    + rewrite store_other by exact Hdiff. apply store_same.
    + reflexivity.
    + rewrite <- app_assoc. reflexivity.
    + apply store_same.
  - intros err residue Hread Hcopy. unfold updateTranslations.
    rewrite Hfile, Hread, Hcopy. eexists. split; [reflexivity|].
    cbn [files journal]. split; [|reflexivity].
    rewrite leave_other; [exact Hfile|]. intros E. now apply Hdiff.
Qed.


(** The example of section 8: an incremental update keeps [a] and adds [b]. *)
Example incremental_example :
  written (updateTranslations eval_json_body keep_content calm project new_b_y "es" false
             (disk_with (file_with (declaration "es" es_a_x))))
  = Some (file_with (declaration "es"
            (JObj [("common", JObj [("a", JStr "x"); ("b", JStr "y")])]))).
Proof. vm_compute. reflexivity. Qed.

(** The example of section 8: a forced update leaves [b] alone. *)
Example force_example :
  written (updateTranslations eval_json_body keep_content calm project new_b_y "es" true
             (disk_with (file_with (declaration "es" es_a_x))))
  = Some (file_with (declaration "es" (JObj [("common", JObj [("b", JStr "y")])]))).
Proof. vm_compute. reflexivity. Qed.

(** Claim C4 at a failing input. A forced update with the new entry
    [b: "$$"] succeeds, and the file then declares [b: "$"]: the
    replacement text of line 212 is read for dollar patterns. *)
Theorem force_update_rewrites_dollar_signs :
  snd (updateTranslations eval_json_body keep_content calm project
         [("common", JObj [("b", JStr "$$")])] "es" true
         (disk_with (file_with (declaration "es" es_a_x))))
  = Ok true
  /\ written (updateTranslations eval_json_body keep_content calm project
                [("common", JObj [("b", JStr "$$")])] "es" true
                (disk_with (file_with (declaration "es" es_a_x))))
     = Some (file_with (declaration "es" (JObj [("common", JObj [("b", JStr "$")])])))
  /\ read_back "es" (file_with (declaration "es" (JObj [("common", JObj [("b", JStr "$")])])))
     = Some (JObj [("common", JObj [("b", JStr "$")])]).
Proof. repeat split; vm_compute; reflexivity. Qed.

(** Claim C3 at a failing input. The file declares [a: "$$"]; an
    incremental update that adds [b: "y"] succeeds, and the file then
    declares [a: "$"]: a key absent from the new entries has changed. *)
Theorem incremental_update_rewrites_untouched_text :
  read_back "es" (file_with (declaration "es" (JObj [("common", JObj [("a", JStr "$$")])])))
  = Some (JObj [("common", JObj [("a", JStr "$$")])])
  /\ snd (updateTranslations eval_json_body keep_content calm project new_b_y "es" false
            (disk_with (file_with (declaration "es"
               (JObj [("common", JObj [("a", JStr "$$")])])))))
     = Ok true
  /\ written (updateTranslations eval_json_body keep_content calm project new_b_y "es" false
                (disk_with (file_with (declaration "es"
                   (JObj [("common", JObj [("a", JStr "$$")])])))))
     = Some (file_with (declaration "es"
               (JObj [("common", JObj [("a", JStr "$"); ("b", JStr "y")])]))).
Proof. repeat split; vm_compute; reflexivity. Qed.

(** Claim C10 at a failing input. The file declares the language with
    two blanks after [const], so evaluating the declared object throws; an
    incremental update with the new entry [b: "$$"] succeeds and falls back
    to the replacement, and the file then declares [b: "$"], not the new
    entries: the replacement text of line 242 is read for dollar patterns. *)
Theorem fallback_update_rewrites_dollar_signs :
  langRegex_exec "es" (file_with wide_declaration) = Some wide_match
  /\ eval_json_body (eval_body "es" wide_match) = None
  /\ snd (updateTranslations eval_json_body keep_content calm project
            [("common", JObj [("b", JStr "$$")])] "es" false
            (disk_with (file_with wide_declaration)))
     = Ok true
  /\ written (updateTranslations eval_json_body keep_content calm project
                [("common", JObj [("b", JStr "$$")])] "es" false
                (disk_with (file_with wide_declaration)))
     = Some (file_with (declaration "es" (JObj [("common", JObj [("b", JStr "$")])])))
  /\ read_back "es" (file_with (declaration "es" (JObj [("common", JObj [("b", JStr "$")])])))
     = Some (JObj [("common", JObj [("b", JStr "$")])]).
Proof. repeat split; vm_compute; reflexivity. Qed.

(** Claim C5 at a file that declares Spanish translations, once with the
    file operations going through and once with a copy that fails. *)
Lemma updateTranslations_backs_up_before_writing_witness :
  (forall d',
     updateTranslations eval_json_body keep_content calm project new_b_y "es" false
       (disk_with (file_with (declaration "es" es_a_x))) = (d', Ok true) ->
     files d' "src/i18n.js.backup-1700000000000" = Some (file_with (declaration "es" es_a_x))
     /\ journal d' = [Copied "src/i18n.js" "src/i18n.js.backup-1700000000000";
                      Written "src/i18n.js"])
  /\ snd (updateTranslations eval_json_body keep_content calm project new_b_y "es" false
            (disk_with (file_with (declaration "es" es_a_x)))) = Ok true
  /\ exists d1,
       updateTranslations eval_json_body keep_content no_backup project new_b_y "es" false
         (disk_with (file_with (declaration "es" es_a_x))) = (d1, Throw (Error "ENOSPC"))
       /\ files d1 "src/i18n.js" = Some (file_with (declaration "es" es_a_x))
       /\ journal d1 = [].
Proof.
  split; [|split].
  - intros d' Hrun.
    destruct (updateTranslations_backs_up_before_writing eval_json_body keep_content calm
                project new_b_y "es" false
                (disk_with (file_with (declaration "es" es_a_x)))
                (file_with (declaration "es" es_a_x)) eq_refl) as [Hok _].
    destruct (Hok d' Hrun) as [Hbackup [_ [Hjournal _]]].
    split; [exact Hbackup | exact Hjournal].
  - vm_compute. reflexivity.
  - destruct (updateTranslations_backs_up_before_writing eval_json_body keep_content no_backup
                project new_b_y "es" false
                (disk_with (file_with (declaration "es" es_a_x)))
                (file_with (declaration "es" es_a_x)) eq_refl) as [_ Hfail].
    exact (Hfail (Error "ENOSPC") (Some "con") eq_refl eq_refl).
Defined.


(** The shallow merge at the example of section 8, with a namespace the
    existing object lacks. *)
Lemma mergeTranslations_is_a_shallow_merge_witness :
  (exists merged,
     obj_get "common" (mergeTranslations es_a_x new_b_y_and_forms) = Some (JObj merged)
     /\ obj_get "a" merged = Some (JStr "x")
     /\ obj_get "b" merged = Some (JStr "y"))
  /\ (exists merged,
        obj_get "forms" (mergeTranslations es_a_x new_b_y_and_forms) = Some (JObj merged)
        /\ obj_get "save" merged = Some (JStr "Guardar")
        /\ obj_get "a" merged = None).
Proof.
  split.
  - destruct (mergeTranslations_is_a_shallow_merge es_a_x new_b_y_and_forms "common"
                ltac:(repeat constructor; cbn; intuition discriminate)
                ltac:(repeat constructor; cbn; intuition discriminate)) as [Hpresent _].
    destruct (Hpresent (JObj [("b", JStr "y")]) eq_refl) as [merged [Hget [Hkeys _]]].
    exists merged. split; [exact Hget|].
    pose proof (Hkeys (JObj [("a", JStr "x")]) eq_refl eq_refl
                  ltac:(repeat constructor; cbn; tauto)
                  ltac:(repeat constructor; cbn; tauto)) as Hkey.
    split; [exact (Hkey "a") | exact (Hkey "b")].
  - destruct (mergeTranslations_is_a_shallow_merge es_a_x new_b_y_and_forms "forms"
                ltac:(repeat constructor; cbn; intuition discriminate)
                ltac:(repeat constructor; cbn; intuition discriminate)) as [Hpresent _].
    destruct (Hpresent (JObj [("save", JStr "Guardar")]) eq_refl) as [merged [Hget [_ Hkeys]]].
    exists merged. split; [exact Hget|].
    pose proof (Hkeys I ltac:(repeat constructor; cbn; tauto)) as Hkey.
    split; [exact (Hkey "save") | exact (Hkey "a")].
Defined.



End AdapterTheorems.

(** * Further properties *)

(** ** Batches, once more *)

Section RunProofs.
Local Open Scope list_scope.
Context {A W : Type}.
Variable sleep : nat -> W -> W.
Variable processFn : list A -> W -> W * Outcome JsValue.
Variables (B d : nat) (items : list A).
Hypothesis HB : 1 <= B.

Lemma processBatches_loop_chunks : forall fuel i results w,
  length items - i < fuel ->
  processBatches_loop sleep items processFn B d fuel i results w
  = run_chunks sleep processFn d (chunks_upto fuel B (skipn i items)) results w.
Proof.
  induction fuel as [|fuel IH]; intros i results w Hfuel; [lia|].
  cbn [processBatches_loop].
  destruct (i <? length items) eqn:Hi.
  - apply Nat.ltb_lt in Hi.
    unfold slice. replace (i + B - i) with B by lia.
    remember (skipn i items) as rest eqn:Hrest.
    assert (Hlen : length rest = length items - i) by (subst rest; apply length_skipn).
    destruct rest as [|x rest]; [cbn [length] in Hlen; lia|].
    cbn [chunks_upto run_chunks].
    destruct (processFn (firstn B (x :: rest)) w) as [w1 [v| e |]]; try reflexivity.
    destruct (iterate v) as [vs|]; [|reflexivity].
    rewrite IH by lia.
    replace (i + B) with (B + i) by lia. rewrite <- skipn_skipn, <- Hrest.
    assert (Hl2 : length (skipn B (x :: rest)) = length items - i - B).
    { rewrite length_skipn, Hlen. reflexivity. }
    destruct (B + i <? length items) eqn:Hmore.
    + apply Nat.ltb_lt in Hmore.
      destruct fuel as [|fuel]; [lia|].
      destruct (skipn B (x :: rest)) as [|y more] eqn:Hsk; [cbn [length] in Hl2; lia|].
      reflexivity.
    + apply Nat.ltb_ge in Hmore.
      destruct (skipn B (x :: rest)); [|cbn [length] in Hl2; lia].
      rewrite chunks_upto_nil. reflexivity.
  - apply Nat.ltb_ge in Hi. rewrite skipn_all2 by exact Hi.
    rewrite chunks_upto_nil. reflexivity.
Qed.

End RunProofs.

Section RunTheorems.
Local Open Scope list_scope.

Lemma processBatches_as_run_chunks :
  forall (A W : Type) (sleep : nat -> W -> W)
         (processFn : list A -> W -> W * Outcome JsValue)
         (items : list A) (batchSize delayMs : option nat) (w : W),
    1 <= match batchSize with Some b => b | None => 15 end ->
    processBatches sleep items processFn batchSize delayMs w
    = run_chunks sleep processFn
        (match delayMs with Some ms => ms | None => 2000 end)
        (chunks (match batchSize with Some b => b | None => 15 end) items) [] w.
Proof.
  intros A W sleep processFn items batchSize delayMs w HB.
  unfold processBatches.
  change default_batchSize with 15. change default_delayMs with 2000.
  rewrite processBatches_loop_chunks by (try exact HB; lia).
  cbn [skipn]. unfold chunks.
  rewrite (chunks_upto_enough (S (length items)) (length items)); auto.
Qed.

(** X4. For every per-batch function and every batch size of at least 1, the
    index loop of [processBatches] is the run over the contiguous chunks of
    the items: one chunk after the other, the results appended, the delay
    slept after every chunk but the last, and the first chunk that fails
    ends the run. *)
Theorem processBatches_runs_the_chunks :
  forall (A W : Type) (sleep : nat -> W -> W)
         (processFn : list A -> W -> W * Outcome JsValue)
         (items : list A) (batchSize delayMs : option nat) (w : W),
    1 <= match batchSize with Some b => b | None => 15 end ->
    processBatches sleep items processFn batchSize delayMs w
    = run_chunks sleep processFn
        (match delayMs with Some ms => ms | None => 2000 end)
        (chunks (match batchSize with Some b => b | None => 15 end) items) [] w.
Proof.
  intros A W sleep processFn items batchSize delayMs w HB.
  unfold processBatches.
  change default_batchSize with 15. change default_delayMs with 2000.
  rewrite processBatches_loop_chunks by (try exact HB; lia).
  cbn [skipn]. unfold chunks.
  rewrite (chunks_upto_enough (S (length items)) (length items)); auto.
Qed.

End RunTheorems.

Section FailFast.
Local Open Scope list_scope.
Context {A : Type}.
Variable outcome_of : list A -> Outcome JsValue.
Variable d : nat.

Lemma run_chunks_stops : forall (done : list (list A)) (c : list A) (rest : list (list A))
    (e : JsError) (results : list JsValue) (w : list (BatchEvent A)),
  Forall (fun c' => exists vs, outcome_of c' = Ok (JArr vs)) done ->
  outcome_of c = Throw e ->
  run_chunks pause (reporting outcome_of) d (done ++ c :: rest) results w
  = (w ++ schedule d (done ++ [c]), Throw e).
Proof.
  induction done as [|c0 done IH]; intros c rest e results w Hdone Hc.
  - cbn [app run_chunks schedule]. unfold reporting at 1. rewrite Hc. reflexivity.
  - inversion Hdone as [|? ? [vs Hvs] Hrest]; subst.
    cbn [app run_chunks]. unfold reporting at 1. rewrite Hvs. cbn [iterate].
    destruct (done ++ c :: rest) as [|y ys] eqn:E; [now destruct done|].
    rewrite <- E. rewrite IH with (e := e) by assumption.
    unfold pause. rewrite <- !app_assoc. f_equal. f_equal.
    cbn [schedule app]. destruct (done ++ [c]) eqn:E2; [now destruct done|]. reflexivity.
Qed.

End FailFast.

Section Theorems2.
Local Open Scope list_scope.

(** X5. When the per-batch function succeeds on the chunks before [c] and
    throws [e] on [c], [processBatches] throws [e]: the chunks up to [c]
    were invoked in order with a pause between two of them, and nothing
    after [c] is invoked or slept. *)
Theorem processBatches_stops_at_the_first_failure :
  forall (A : Type) (outcome_of : list A -> Outcome JsValue)
         (items : list A) (batchSize delayMs : option nat)
         (done : list (list A)) (c : list A) (rest : list (list A))
         (e : JsError) (w : list (BatchEvent A)),
    1 <= match batchSize with Some b => b | None => 15 end ->
    chunks (match batchSize with Some b => b | None => 15 end) items = done ++ c :: rest ->
    Forall (fun c' => exists vs, outcome_of c' = Ok (JArr vs)) done ->
    outcome_of c = Throw e ->
    processBatches pause items (reporting outcome_of) batchSize delayMs w
    = (w ++ schedule (match delayMs with Some ms => ms | None => 2000 end) (done ++ [c]),
       Throw e).
Proof.
  intros A outcome_of items batchSize delayMs done c rest e w HB Hchunks Hdone Hc.
  rewrite processBatches_as_run_chunks by exact HB.
  rewrite Hchunks. now apply run_chunks_stops.
Qed.

(** batch size 0 *)
(** X6. With batch size 0 and an item left, the loop never ends when the
    per-batch function returns a list for the empty batch: whatever the
    number of rounds, the run has not returned. *)
Theorem processBatches_with_batch_size_zero_never_returns :
  forall (A W : Type) (sleep : nat -> W -> W)
         (processFn : list A -> W -> W * Outcome JsValue)
         (items : list A) (delayMs fuel i : nat) (results : list JsValue) (w : W),
    (forall w0, exists w1 v vs, processFn [] w0 = (w1, Ok v) /\ iterate v = Some vs) ->
    i < length items ->
    snd (processBatches_loop sleep items processFn 0 delayMs fuel i results w) = Hang.
Proof.
  intros A W sleep processFn items delayMs fuel i results w Hfn Hi.
  revert results w. induction fuel as [|fuel IH]; intros results w; [reflexivity|].
  cbn [processBatches_loop].
  apply Nat.ltb_lt in Hi. rewrite Hi.
  unfold slice. replace (i + 0 - i) with 0 by lia. cbn [firstn].
  destruct (Hfn w) as [w1 [v [vs [Hrun Hit]]]]. rewrite Hrun, Hit.
  replace (i + 0) with i by lia. rewrite Hi. apply IH.
Qed.

End Theorems2.

(** ** Buckets *)

Section Buckets.
Local Open Scope list_scope.

Lemma namespace_eqb_sym : forall a b, namespace_eqb a b = namespace_eqb b a.
Proof. intros a b. unfold namespace_eqb. apply String.eqb_sym. Qed.

Lemma namespace_eqb_eq : forall a b, namespace_eqb a b = true <-> a = b.
Proof. intros a b. split; [|intros ->; now destruct b]. destruct a, b; cbn; congruence. Qed.

Lemma categorize_fold : forall strs (b : Buckets) n,
  fold_left (fun b str => push (classify str) str b) strs b n
  = b n ++ filter (fun str => namespace_eqb (classify str) n) strs.
Proof.
  induction strs as [|s strs IH]; intros b n; cbn [fold_left filter].
  - now rewrite app_nil_r.
  - rewrite IH. unfold push. rewrite (namespace_eqb_sym n).
    destruct (namespace_eqb (classify s) n); [now rewrite <- app_assoc | reflexivity].
Qed.

Lemma categorize_filter : forall strs n,
  categorize strs n = filter (fun str => namespace_eqb (classify str) n) strs.
Proof. intros. unfold categorize. now rewrite categorize_fold. Qed.

Lemma filters_step : forall (ns : list Namespace) (s : string) (strs : list string),
  NoDup ns ->
  Permutation
    (flat_map (fun n => filter (fun str => namespace_eqb (classify str) n) (s :: strs)) ns)
    (if existsb (namespace_eqb (classify s)) ns
     then s :: flat_map (fun n => filter (fun str => namespace_eqb (classify str) n) strs) ns
     else flat_map (fun n => filter (fun str => namespace_eqb (classify str) n) strs) ns).
Proof.
  induction ns as [|n ns IH]; intros s strs Hnd; [reflexivity|].
  inversion Hnd as [|? ? Hnotin Hnd']; subst.
  cbn [flat_map filter existsb].
  destruct (namespace_eqb (classify s) n) eqn:E.
  - apply namespace_eqb_eq in E. subst n. cbn [orb app].
    constructor. apply Permutation_app_head.
    specialize (IH s strs Hnd').
    destruct (existsb (namespace_eqb (classify s)) ns) eqn:Ex; [|exact IH].
    apply existsb_exists in Ex as [m [Hin Hm]]. apply namespace_eqb_eq in Hm. subst m.
    contradiction.
  - cbn [orb]. specialize (IH s strs Hnd').
    destruct (existsb (namespace_eqb (classify s)) ns).
    + etransitivity; [apply Permutation_app_head; exact IH|].
      symmetry. apply Permutation_middle.
    + now apply Permutation_app_head.
Qed.

Lemma filters_permutation : forall strs : list string,
  Permutation
    (flat_map (fun n => filter (fun str => namespace_eqb (classify str) n) strs) all_namespaces)
    strs.
Proof.
  induction strs as [|s strs IH]; [reflexivity|].
  etransitivity; [apply filters_step|].
  - unfold all_namespaces. repeat constructor; cbn; intuition discriminate.
  - replace (existsb (namespace_eqb (classify s)) all_namespaces) with true
      by (now destruct (classify s)).
    now constructor.
Qed.

Lemma map_snd_flatten : forall b : Buckets,
  map snd (flatten b) = flat_map b all_namespaces.
Proof.
  intros b. unfold flatten. induction all_namespaces as [|n ns IH]; [reflexivity|].
  cbn [flat_map]. rewrite map_app, IH, map_map. cbn [snd]. now rewrite map_id.
Qed.

Lemma in_flatten : forall (b : Buckets) n s, In (n, s) (flatten b) <-> In s (b n).
Proof.
  intros b n s. unfold flatten. rewrite in_flat_map. split.
  - intros [m [_ Hin]]. apply in_map_iff in Hin as [s' [E Hin]]. now inversion E; subst.
  - intros Hin. exists n. split; [destruct n; cbn; tauto|].
    apply in_map_iff. now exists s.
Qed.

End Buckets.

Section BucketTheorem.
Local Open Scope list_scope.

(** X7. The six buckets partition the phrases: a bucket holds the phrases
    that classify to its namespace, in input order; the flattened list sent
    to the provider is a permutation of the input; and the index map pairs
    each phrase with its namespace. *)
Theorem translateStrings_sends_each_phrase_once :
  forall strs : list string,
    (forall n, categorize strs n = filter (fun str => namespace_eqb (classify str) n) strs)
    /\ Permutation (map snd (flatten (categorize strs))) strs
    /\ (forall n str, In (n, str) (flatten (categorize strs)) <-> In str strs /\ classify str = n).
Proof.
  intros strs. split; [|split].
  - intros n. apply categorize_filter.
  - rewrite map_snd_flatten.
    erewrite flat_map_ext; [apply filters_permutation|].
    intros n. apply categorize_filter.
  - intros n str. rewrite in_flatten, categorize_filter, filter_In.
    now rewrite namespace_eqb_eq.
Qed.

End BucketTheorem.

(** ** Filing the translations *)

Section Filing.
Local Open Scope list_scope.






Lemma skipn_nth_error : forall (X : Type) (l : list X) (i : nat) (x : X),
  nth_error l i = Some x -> skipn i l = x :: skipn (S i) l.
Proof.
  induction l as [|y l IH]; intros i x H; destruct i; cbn in *; try discriminate.
  - now injection H as ->.
  - now apply IH.
Qed.


End Filing.

Section Aligned.
Local Open Scope list_scope.
Variable net : World -> string -> string -> HttpReply.
Variable JSON_parse : string -> option JsValue.
Variable tr : string -> JsValue.
Variables targetLang apiKey : string.
Variable d : nat.


End Aligned.

Section EndToEnd.
Local Open Scope list_scope.



(** X9. For a non-empty phrase list and a service other than [gemini],
    [translateStrings] sends nothing and throws: the google backup is not
    implemented, any other service is unsupported. *)
Theorem translateStrings_other_services_make_no_request :
  forall (net : World -> string -> string -> HttpReply)
         (JSON_parse : string -> option JsValue)
         (strs : list string) (targetLang apiKey service : string) (w : World),
    strs <> [] ->
    service <> "gemini" ->
    translateStrings net JSON_parse (Some strs) targetLang apiKey (Some service) w
    = (w, Throw (Error (if String.eqb service "google"
                        then "Google Translate backup not implemented"
                        else ("Unsupported translation service: " ++ service)%string))).
Proof.
  intros net JSON_parse strs targetLang apiKey service w Hne Hservice.
  destruct strs as [|s0 strs0]; [contradiction|].
  unfold translateStrings.
  destruct (String.eqb service "gemini") eqn:Eg;
    [apply String.eqb_eq in Eg; contradiction|].
  destruct (String.eqb service "google"); [|reflexivity].
  rewrite processBatches_as_run_chunks by lia.
  pose proof (length_flatten_categorize (s0 :: strs0)) as Hlen.
  unfold chunks. rewrite length_map, Hlen. cbn [length chunks_upto].
  destruct (map snd (flatten (categorize (s0 :: strs0)))) as [|a rest] eqn:E.
  - apply (f_equal (@length _)) in E. rewrite length_map, Hlen in E. discriminate.
  - reflexivity.
Qed.

End EndToEnd.

Section QuotientFacts.
Local Open Scope N_scope.

Lemma log2_bounds : forall a, 0 < a -> 2 ^ N.log2 a <= a /\ a < 2 * 2 ^ N.log2 a.
Proof.
  intros a Ha. destruct (N.log2_spec a Ha) as [H1 H2].
  rewrite N.pow_succ_r' in H2. now split.
Qed.

(** The significand has 53 bits. *)
Lemma scale_spec : forall a b,
  0 < a -> 0 < b -> a < 2 ^ 53 ->
  b * 2 ^ 52 <= a * 2 ^ scale a b /\ a * 2 ^ scale a b < b * 2 ^ 53.
Proof.
  intros a b Ha Hb Hbound.
  destruct (log2_bounds a Ha) as [Ha1 Ha2].
  destruct (log2_bounds b Hb) as [Hb1 Hb2].
  assert (Hla : N.log2 a < 53).
  { apply (N.pow_lt_mono_r_iff 2); [lia|]. lia. }
  set (k := 52 + N.log2 b - N.log2 a).
  assert (Hk : N.log2 a + k = 52 + N.log2 b) by (unfold k; lia).
  assert (Hpow : 2 ^ N.log2 a * 2 ^ k = 2 ^ 52 * 2 ^ N.log2 b).
  { rewrite <- !N.pow_add_r. now rewrite Hk. }
  change (2 ^ 53) with (2 * 2 ^ 52).
  unfold scale. fold k.
  set (A := 2 ^ N.log2 a) in *. set (B := 2 ^ N.log2 b) in *.
  set (P := 2 ^ k) in *. set (C := 2 ^ 52) in *.
  assert (HP : 0 < P) by (unfold P; apply N.neq_0_lt_0, N.pow_nonzero; lia).
  destruct (a * P <? b * C) eqn:E.
  - apply N.ltb_lt in E. rewrite N.pow_add_r. fold P. change (2 ^ 1) with 2. nia.
  - apply N.ltb_ge in E. nia.
Qed.

(** The significand is the scaled fraction rounded to the nearest integer. *)
Lemma rounding_cases : forall a b,
  0 < b ->
  exists q r,
    a * 2 ^ scale a b = b * q + r /\ r < b
    /\ (significand a b = q /\ 2 * r <= b \/ significand a b = q + 1 /\ b <= 2 * r).
Proof.
  intros a b Hb. unfold significand. set (n := a * 2 ^ scale a b).
  pose proof (N.div_mod' n b) as Hdiv.
  pose proof (N.mod_lt n b ltac:(lia)) as Hmod.
  exists (n / b), (n mod b). split; [exact Hdiv|]. split; [exact Hmod|].
  destruct (2 * (n mod b) <? b) eqn:E1; [apply N.ltb_lt in E1; left; split; [reflexivity|lia]|].
  apply N.ltb_ge in E1.
  destruct (b <? 2 * (n mod b)) eqn:E2; [apply N.ltb_lt in E2; right; split; [reflexivity|lia]|].
  apply N.ltb_ge in E2.
  destruct (N.even (n / b)); [left | right]; split; try reflexivity; lia.
Qed.

Lemma pow2_cases : forall k, 2 * 2 ^ k <= 2 ^ 52 \/ k = 52 \/ 2 * 2 ^ 52 <= 2 ^ k.
Proof.
  intros k. destruct (N.lt_trichotomy k 52) as [H | [H | H]].
  - left. rewrite <- N.pow_succ_r'. apply N.pow_le_mono_r; lia.
  - right. now left.
  - right. right. rewrite <- N.pow_succ_r'. apply N.pow_le_mono_r; lia.
Qed.

(** The quotient of two lengths exceeds 1.5 exactly when the fraction does. *)
Lemma exceeds_spec : forall a b,
  0 < a -> 0 < b -> a < 2 ^ 53 -> b < 2 ^ 52 ->
  (3 * 2 ^ scale a b <? 2 * significand a b) = (3 * b <? 2 * a).
Proof.
  intros a b Ha Hb Habound Hbbound.
  destruct (scale_spec a b Ha Hb Habound) as [Hlow Hhigh].
  destruct (rounding_cases a b Hb) as [q [r [Hn [Hr Hround]]]].
  destruct (pow2_cases (scale a b)) as [Hk | [Hk | Hk]].
  - set (P := 2 ^ scale a b) in *. change (2 ^ 53) with (2 * 2 ^ 52) in *.
    set (C := 2 ^ 52) in *.
    assert (Hq : C <= q) by nia.
    assert (H1 : 3 * P < 2 * significand a b) by (destruct Hround as [[-> _] | [-> _]]; lia).
    assert (H2 : 3 * b < 2 * a) by nia.
    apply N.ltb_lt in H1, H2. now rewrite H1, H2.
  - rewrite Hk in *. change (2 ^ 53) with (2 * 2 ^ 52) in *.
    change (2 ^ 52) with (2 * 2 ^ 51) in *. set (P' := 2 ^ 51) in *.
    destruct (3 * b <? 2 * a) eqn:E.
    + apply N.ltb_lt in E. apply N.ltb_lt.
      assert (Hq : 3 * P' <= q) by nia.
      destruct Hround as [[-> Hr2] | [-> Hr2]]; [|lia].
      assert (q <> 3 * P') by nia. lia.
    + apply N.ltb_ge in E. apply N.ltb_ge.
      assert (Hq : q <= 3 * P') by nia.
      destruct Hround as [[-> Hr2] | [-> Hr2]]; [lia|].
      assert (q <> 3 * P') by nia. lia.
  - set (P := 2 ^ scale a b) in *. change (2 ^ 53) with (2 * 2 ^ 52) in *.
    set (C := 2 ^ 52) in *.
    assert (H2 : 2 * a <= 3 * b) by nia.
    assert (Hq : q < 2 * C) by nia.
    assert (H1 : 2 * significand a b <= 3 * P) by (destruct Hround as [[-> _] | [-> _]]; lia).
    apply N.ltb_ge in H1, H2. now rewrite H1, H2.
Qed.

(** Rounding the quotient to hundredths gives a hundredth nearest to the
    fraction: the error of the quotient is too small to matter. *)
Lemma fixed_spec : forall a b,
  0 < a -> 0 < b -> a < 2 ^ 45 ->
  let n := (200 * significand a b + 2 ^ scale a b) / 2 ^ (scale a b + 1) in
  2 * n * b <= 200 * a + b /\ 200 * a <= 2 * n * b + b.
Proof.
  intros a b Ha Hb Habound.
  assert (Ha53 : a < 2 ^ 53).
  { eapply N.lt_trans; [exact Habound|]. apply N.pow_lt_mono_r; lia. }
  destruct (scale_spec a b Ha Hb Ha53) as [Hlow _].
  destruct (rounding_cases a b Hb) as [q [r [Hn [Hr Hround]]]].
  cbv zeta. rewrite N.pow_add_r. change (2 ^ 1) with 2.
  set (P := 2 ^ scale a b) in *. set (m := significand a b) in *.
  assert (HP : 0 < P) by (unfold P; apply N.neq_0_lt_0, N.pow_nonzero; lia).
  assert (Hs : 2 * m * b <= 2 * (a * P) + b /\ 2 * (a * P) <= 2 * m * b + b)
    by (destruct Hround as [[-> ?] | [-> ?]]; nia).
  destruct Hs as [Hs1 Hs2]. clear Hn Hr Hround q r.
  pose proof (N.div_mod' (200 * m + P) (P * 2)) as Hdiv.
  pose proof (N.mod_lt (200 * m + P) (P * 2) ltac:(lia)) as Hmod.
  set (n := (200 * m + P) / (P * 2)) in *. set (r := (200 * m + P) mod (P * 2)) in *.
  change (2 ^ 52) with (128 * 2 ^ 45) in Hlow. set (D := 2 ^ 45) in *.
  assert (Hbig : 128 * b < P) by nia.
  split.
  - assert (H : 2 * n * b * P <= (200 * a + b) * P + 100 * b) by nia.
    assert (H' : 2 * n * b * P < (200 * a + b + 1) * P) by nia.
    assert (H'' : 2 * n * b < 200 * a + b + 1) by nia. lia.
  - assert (H : 200 * a * P <= (2 * n * b + b) * P + 100 * b) by nia.
    assert (H' : 200 * a * P < (2 * n * b + b + 1) * P) by nia.
    assert (H'' : 200 * a < 2 * n * b + b + 1) by nia. lia.
Qed.

End QuotientFacts.

Section FixedFacts.
Local Open Scope string_scope.

Lemma digits_have_no_point : forall (s : string) d,
  NilEmpty.uint_of_string s = Some d -> includes s "." = false.
Proof.
  induction s as [|c s IH]; intros d H; [reflexivity|].
  cbn [NilEmpty.uint_of_string] in H.
  destruct (NilEmpty.uint_of_string s) as [d'|] eqn:E; [|discriminate].
  cbn [includes]. rewrite prefix_char, (IH _ eq_refl), orb_false_r.
  destruct (Ascii.eqb "." c) eqn:Ec; [|reflexivity].
  apply Ascii.eqb_eq in Ec. subst c. discriminate.
Qed.

Lemma decimal_read : forall q : N,
  NilZero.uint_of_string (decimal q) = Some (N.to_uint q).
Proof.
  intros q. unfold decimal. apply NilZero.usu.
  destruct q as [|p]; [discriminate|]. apply DecimalPos.Unsigned.to_uint_nonnil.
Qed.

Lemma nonempty_digits : forall (s : string) d,
  NilZero.uint_of_string s = Some d -> NilEmpty.uint_of_string s = Some d.
Proof. intros [|c s] d H; [discriminate | exact H]. Qed.

Lemma two_digits_read : forall r : N,
  (r < 100)%N ->
  String.length (two_digits r) = 2
  /\ exists d, NilZero.uint_of_string (two_digits r) = Some d /\ N.of_uint d = r.
Proof.
  intros r Hr.
  set (reads_as := fun r : N =>
         (String.length (two_digits r) =? 2)%nat
         && match NilZero.uint_of_string (two_digits r) with
            | Some d => N.eqb (N.of_uint d) r
            | None => false
            end).
  assert (Hall : forallb reads_as (map N.of_nat (seq 0 100)) = true)
    by (vm_compute; reflexivity).
  rewrite forallb_forall in Hall.
  assert (Hin : In r (map N.of_nat (seq 0 100))).
  { apply in_map_iff. exists (N.to_nat r). split; [apply N2Nat.id|].
    apply in_seq. lia. }
  specialize (Hall r Hin). unfold reads_as in Hall. clear reads_as.
  apply andb_true_iff in Hall as [Hlen Hread]. apply Nat.eqb_eq in Hlen.
  split; [exact Hlen|].
  destruct (NilZero.uint_of_string (two_digits r)) as [d|]; [|discriminate].
  exists d. split; [reflexivity|]. now apply N.eqb_eq.
Qed.

Lemma drop_after_char : forall (a : string) (c : ascii) (b : string),
  drop (S (String.length a)) (a ++ String c b) = b.
Proof. induction a as [|x a IH]; intros c b; [now destruct b | apply IH]. Qed.

(** Reading back what [toFixed] writes. *)
Lemma hundredths_toFixed2 : forall m k : N,
  hundredths (toFixed2 (Fraction m k)) = Some ((200 * m + 2 ^ k) / 2 ^ (k + 1))%N.
Proof.
  intros m k. cbn [toFixed2]. set (n := ((200 * m + 2 ^ k) / 2 ^ (k + 1))%N).
  pose proof (decimal_read (n / 100)) as Hwhole.
  destruct (two_digits_read (n mod 100)%N ltac:(apply N.mod_lt; lia))
    as [Hlen [part [Hpart Hvalue]]].
  unfold hundredths.
  change (decimal (n / 100) ++ "." ++ two_digits (n mod 100))
    with (decimal (n / 100) ++ String "." (two_digits (n mod 100))).
  rewrite indexOf_append_char
    by (eapply digits_have_no_point, nonempty_digits; exact Hwhole).
  rewrite take_append.
  rewrite drop_after_char.
  rewrite Hwhole, Hpart, Hlen. cbn [Nat.eqb].
  rewrite DecimalN.Unsigned.of_to, Hvalue. f_equal.
  pose proof (N.div_mod' n 100). lia.
Qed.

End FixedFacts.

Section ExpansionProofs.
Local Open Scope list_scope.

(** [quotient] is the division of the floating-point unit, on every pair
    of the sample lengths. *)
Example quotient_is_the_division_of_doubles :
  forallb (fun a => forallb (same_quotient a) sample_lengths) sample_lengths = true.
Proof. vm_compute. reflexivity. Qed.

Lemma divide_exceeds : forall a b : nat,
  (N.of_nat a < 2 ^ 53)%N -> (N.of_nat b < 2 ^ 52)%N ->
  exceeds_1_5 (divide a b) = if b =? 0 then 0 <? a else 3 * b <? 2 * a.
Proof.
  intros a b Ha Hb. unfold divide, quotient.
  destruct (N.eqb_spec (N.of_nat b) 0) as [Eb | Eb];
    destruct (N.eqb_spec (N.of_nat a) 0) as [Ea | Ea]; cbn [exceeds_1_5].
  - replace b with 0 by lia. replace a with 0 by lia. reflexivity.
  - replace b with 0 by lia. cbn [Nat.eqb]. symmetry. apply Nat.ltb_lt. lia.
  - destruct b as [|b]; [lia|]. replace a with 0 by lia. reflexivity.
  - destruct b as [|b]; [lia|]. cbn [Nat.eqb].
    rewrite exceeds_spec by lia.
    destruct (3 * S b <? 2 * a) eqn:E.
    + apply Nat.ltb_lt in E. apply N.ltb_lt. lia.
    + apply Nat.ltb_ge in E. apply N.ltb_ge. lia.
Qed.

Lemma divide_toFixed2 : forall a b : nat,
  0 < b -> (N.of_nat a < 2 ^ 45)%N ->
  exists n, hundredths (toFixed2 (divide a b)) = Some n /\ nearest_hundredth n a b.
Proof.
  intros a b Hb Ha. unfold divide, quotient.
  destruct (N.eqb_spec (N.of_nat b) 0) as [Eb | Eb]; [lia|].
  destruct (N.eqb_spec (N.of_nat a) 0) as [Ea | Ea].
  - exists 0%N. split; [reflexivity|]. unfold nearest_hundredth. lia.
  - rewrite hundredths_toFixed2. eexists. split; [reflexivity|].
    apply fixed_spec; lia.
Qed.

Lemma expansion_loop_spec : forall sources translations idx a,
  let pairs := filter counted (combine sources (skipn idx translations)) in
  expansion_loop translations sources idx a
  = mkTextAnalysis (ta_language a)
      (totalOriginalLength a + list_sum (map (fun p => String.length (fst p)) pairs))
      (totalTranslatedLength a + list_sum (map (fun p => String.length (snd p)) pairs))
      (expansionFactor a)
      (criticalExpansions a
       ++ map (fun p => mkExpansion (fst p) (snd p)
                          (toFixed2 (divide (String.length (snd p)) (String.length (fst p)))))
            (filter (fun p => exceeds_1_5 (divide (String.length (snd p))
                                                  (String.length (fst p)))
                              && (5 <? String.length (fst p)))
               pairs)).
Proof.
  induction sources as [|source sources IH]; intros translations idx a pairs.
  - subst pairs. cbn. destruct a. cbn. now rewrite !Nat.add_0_r, app_nil_r.
  - cbn [expansion_loop]. rewrite IH. subst pairs.
    unfold expansion_step.
    destruct (nth_error translations idx) as [translated|] eqn:E.
    + rewrite (skipn_nth_error _ _ _ _ E). cbn [combine filter].
      replace (counted (source, translated)) with (negb (String.eqb translated ""))
        by reflexivity.
      destruct (String.eqb translated "") eqn:Eempty; cbn [negb].
      * reflexivity.
      * cbn [ta_language totalOriginalLength totalTranslatedLength expansionFactor
               criticalExpansions map list_sum fold_right fst snd filter].
        f_equal; try (symmetry; apply Nat.add_assoc).
        destruct (exceeds_1_5 _ && _); cbn [map app fst snd];
          [now rewrite <- app_assoc | reflexivity].
    + apply nth_error_None in E.
      rewrite (skipn_all2 translations (n := S idx)) by lia.
      rewrite (skipn_all2 translations (n := idx)) by exact E.
      rewrite !combine_nil. reflexivity.
Qed.

Lemma length_le_sum : forall (l : list string) (s : string),
  In s l -> String.length s <= list_sum (map String.length l).
Proof.
  induction l as [|x l IH]; intros s H; [contradiction|].
  cbn [map list_sum fold_right]. destruct H as [-> | H]; [lia|].
  specialize (IH _ H). unfold list_sum in IH. lia.
Qed.

Lemma counted_sums : forall (l1 l2 : list string),
  list_sum (map (fun p => String.length (fst p)) (filter counted (combine l1 l2)))
  <= list_sum (map String.length l1)
  /\ list_sum (map (fun p => String.length (snd p)) (filter counted (combine l1 l2)))
     <= list_sum (map String.length l2).
Proof.
  induction l1 as [|x l1 IH]; intros l2; [cbn; lia|].
  destruct l2 as [|y l2]; [cbn; lia|].
  cbn [combine filter]. destruct (IH l2) as [H1 H2].
  destruct (counted (x, y)); cbn [map list_sum fold_right fst snd] in *;
    unfold list_sum in *; lia.
Qed.

End ExpansionProofs.

Section ExpansionTheorem.
Local Open Scope list_scope.

(** X11. For texts of fewer than 2^45 characters in all,
    [analyzeTextExpansion] counts the pairs of a source and the translation
    at the same index whose translation is present and not empty: the totals
    are the summed lengths over these pairs; the critical expansions are, in
    order, the counted pairs whose translation has more than one and a half
    times the characters of a source of more than five; every factor reads
    as a number of hundredths nearest to the fraction of the two lengths;
    and the overall factor is set, to such a text for the totals, exactly
    when the source total is positive. *)
Theorem analyzeTextExpansion_counts_the_translated_pairs :
  forall (sources translations : list string) (language : string),
    (N.of_nat (list_sum (map String.length sources)) < 2 ^ 45)%N ->
    (N.of_nat (list_sum (map String.length translations)) < 2 ^ 45)%N ->
    exists analysis,
      analyzeTextExpansion (Some sources) (Some translations) language = Some analysis
      /\ ta_language analysis = language
      /\ totalOriginalLength analysis
         = list_sum (map (fun p => String.length (fst p))
                       (filter counted (combine sources translations)))
      /\ totalTranslatedLength analysis
         = list_sum (map (fun p => String.length (snd p))
                       (filter counted (combine sources translations)))
      /\ map (fun e => (exp_source e, exp_translated e)) (criticalExpansions analysis)
         = filter too_long (filter counted (combine sources translations))
      /\ Forall (fun e => exists n,
                   hundredths (exp_factor e) = Some n
                   /\ nearest_hundredth n (String.length (exp_translated e))
                        (String.length (exp_source e)))
           (criticalExpansions analysis)
      /\ match expansionFactor analysis with
         | Some text =>
             0 < totalOriginalLength analysis
             /\ exists n,
                  hundredths text = Some n
                  /\ nearest_hundredth n (totalTranslatedLength analysis)
                       (totalOriginalLength analysis)
         | None => totalOriginalLength analysis = 0
         end.
Proof.
  intros sources translations language Hsources Htranslations.
  unfold analyzeTextExpansion. rewrite expansion_loop_spec. cbn [skipn].
  cbn [ta_language totalOriginalLength totalTranslatedLength expansionFactor
       criticalExpansions Nat.add app].
  set (pairs := filter counted (combine sources translations)).
  destruct (counted_sums sources translations) as [Hsum1 Hsum2]. fold pairs in Hsum1, Hsum2.
  assert (Hpair : forall p, In p pairs ->
             (N.of_nat (String.length (fst p)) < 2 ^ 45)%N
             /\ (N.of_nat (String.length (snd p)) < 2 ^ 45)%N
             /\ 0 < String.length (snd p)).
  { intros [s t] Hp. apply filter_In in Hp as [Hp Hcount].
    pose proof (length_le_sum _ _ (in_combine_l _ _ _ _ Hp)) as H1.
    pose proof (length_le_sum _ _ (in_combine_r _ _ _ _ Hp)) as H2.
    cbn [fst snd]. split; [lia|]. split; [lia|].
    unfold counted in Hcount. cbn [snd] in Hcount. destruct t; [discriminate|cbn; lia]. }
  assert (Hsmall : (2 ^ 45 < 2 ^ 52)%N /\ (2 ^ 45 < 2 ^ 53)%N) by (split; reflexivity).
  assert (Hfilter : filter (fun p => exceeds_1_5 (divide (String.length (snd p))
                                                         (String.length (fst p)))
                                     && (5 <? String.length (fst p))) pairs
                    = filter too_long pairs).
  { apply filter_ext_in. intros p Hp. destruct (Hpair p Hp) as [H1 [H2 H3]].
    rewrite divide_exceeds by lia. unfold too_long.
    destruct (String.length (fst p)) as [|n]; [now rewrite !andb_false_r | reflexivity]. }
  rewrite Hfilter.
  assert (Hnames : map (fun e => (exp_source e, exp_translated e))
                     (map (fun p => mkExpansion (fst p) (snd p)
                                      (toFixed2 (divide (String.length (snd p))
                                                        (String.length (fst p)))))
                        (filter too_long pairs))
                   = filter too_long pairs).
  { rewrite map_map. cbn [exp_source exp_translated].
    rewrite (map_ext _ (fun p => p)) by (now intros [s t]). apply map_id. }
  assert (Hflag : Forall (fun e => exists n,
                            hundredths (exp_factor e) = Some n
                            /\ nearest_hundredth n (String.length (exp_translated e))
                                 (String.length (exp_source e)))
                    (map (fun p => mkExpansion (fst p) (snd p)
                                     (toFixed2 (divide (String.length (snd p))
                                                       (String.length (fst p)))))
                       (filter too_long pairs))).
  { apply Forall_forall. intros e He. apply in_map_iff in He as [p [<- Hp]].
    apply filter_In in Hp as [Hp Hlong]. destruct (Hpair p Hp) as [H1 [H2 H3]].
    unfold too_long in Hlong. apply andb_true_iff in Hlong as [_ Hlen].
    apply Nat.ltb_lt in Hlen. cbn [exp_factor exp_translated exp_source].
    apply divide_toFixed2; lia. }
  destruct (0 <? list_sum (map (fun p => String.length (fst p)) pairs)) eqn:Epos;
    eexists; (split; [reflexivity|]);
    cbn [ta_language totalOriginalLength totalTranslatedLength criticalExpansions
         expansionFactor];
    (split; [reflexivity|]); (split; [reflexivity|]); (split; [reflexivity|]);
    (split; [exact Hnames|]); (split; [exact Hflag|]).
  - apply Nat.ltb_lt in Epos. split; [exact Epos|]. apply divide_toFixed2; lia.
  - apply Nat.ltb_ge in Epos. lia.
Qed.

End ExpansionTheorem.

Section DetectorTheorems.
Local Open Scope string_scope.

Lemma detectFramework_range :
  forall (join : string -> string -> string) (fs : FsView) (projectRoot : string),
    detectFramework join fs projectRoot = "react"
    \/ detectFramework join fs projectRoot = "vue"
    \/ detectFramework join fs projectRoot = "angular".
Proof.
  intros join fs projectRoot. unfold detectFramework.
  destruct (framework_of_package join fs projectRoot) as [f|] eqn:E.
  - unfold framework_of_package in E.
    destruct (pathExists fs _); [|discriminate].
    destruct (readJson fs _) as [pkg|]; [|discriminate].
    destruct pkg; try discriminate;
      repeat match type of E with
             | (if ?b then _ else _) = _ => destruct b
             end; try discriminate; injection E as <-; tauto.
  - repeat match goal with
           | |- context [if ?b then _ else _] => destruct b
           end; tauto.
Qed.


End DetectorTheorems.

Section InitializeProofs.
Local Open Scope string_scope.
Variable join : string -> string -> string.
Variable componentContent : string.
Variable ienv : InitEnv.

Lemma store_keeps : forall path content f p c,
  f path = None -> f p = Some c -> store path content f p = Some c.
Proof.
  intros path content f p c Hnone Hp. unfold store.
  destruct (String.eqb p path) eqn:E; [|exact Hp].
  apply String.eqb_eq in E. subst p. congruence.
Qed.

Lemma outputFile_keeps : forall path content d d' r p c,
  outputFile ienv path content d = (d', r) ->
  files d path = None -> files d p = Some c -> files d' p = Some c.
Proof.
  intros path content d d' r p c H Hnone Hp. unfold outputFile in H.
  assert (Hne : p <> path) by congruence.
  destruct (output_error ienv path) as [[err residue]|]; injection H as <- <-; cbn [files].
  - now rewrite leave_other.
  - now apply store_keeps.
Qed.

Lemma outputFile_creates : forall path content d d',
  outputFile ienv path content d = (d', Ok tt) -> files d' path = Some content.
Proof.
  intros path content d d' H. unfold outputFile in H.
  destruct (output_error ienv path) as [[err residue]|]; [discriminate|].
  injection H as <-. cbn [files]. apply store_same.
Qed.

Lemma reactInitialize_first_step : forall (projectRoot : string) (d d1 : Disk) r,
  match files d (join projectRoot "src/i18n.js") with
  | Some _ => (d, Ok tt)
  | None => outputFile ienv (join projectRoot "src/i18n.js") i18nContent d
  end = (d1, r) ->
  (forall p c, files d p = Some c -> files d1 p = Some c)
  /\ (r = Ok tt ->
      files d1 (join projectRoot "src/i18n.js")
      = Some (match files d (join projectRoot "src/i18n.js") with
              | Some c => c
              | None => i18nContent
              end)).
Proof.
  intros projectRoot d d1 r H.
  destruct (files d (join projectRoot "src/i18n.js")) as [c0|] eqn:E.
  - injection H as <- <-. split; [auto|]. intros _. exact E.
  - split.
    + intros p c Hp. eapply outputFile_keeps; eauto.
    + intros ->. now apply outputFile_creates in H.
Qed.

Lemma reactInitialize_keeps : forall (projectRoot : string) (d : Disk) p c,
  files d p = Some c ->
  files (fst (reactInitialize join componentContent ienv projectRoot d)) p = Some c.
Proof.
  intros projectRoot d p c Hp. unfold reactInitialize.
  set (i18nPath := join projectRoot "src/i18n.js").
  set (example := join projectRoot "src/components/I18nExample.js").
  destruct (match files d i18nPath with
            | Some _ => (d, Ok tt)
            | None => outputFile ienv i18nPath i18nContent d
            end) as [d1 r] eqn:E1.
  destruct (reactInitialize_first_step projectRoot d d1 r E1) as [Hkeep _].
  destruct r as [[]| |]; cbn [fst]; try (now apply Hkeep).
  destruct (files d1 example) eqn:E2; cbn [fst]; [now apply Hkeep|].
  destruct (ensure_error ienv _); cbn [fst]; [now apply Hkeep|].
  destruct (outputFile ienv example componentContent d1) as [d2 r2] eqn:E3.
  assert (files d2 p = Some c) by (eapply outputFile_keeps; eauto).
  now destruct r2.
Qed.

(** X14. Whether it succeeds or fails, the React [initialize] keeps the
    content of every file that existed; when it succeeds the i18n file holds
    its previous content or else the template, the example component exists,
    and a second run changes nothing. *)
Theorem reactInitialize_never_overwrites :
  forall (projectRoot : string) (d : Disk),
    (forall p c, files d p = Some c ->
                 files (fst (reactInitialize join componentContent ienv projectRoot d)) p
                 = Some c)
    /\ (forall d',
          reactInitialize join componentContent ienv projectRoot d = (d', Ok true) ->
          files d' (join projectRoot "src/i18n.js")
            = Some (match files d (join projectRoot "src/i18n.js") with
                    | Some c => c
                    | None => i18nContent
                    end)
          /\ files d' (join projectRoot "src/components/I18nExample.js") <> None
          /\ reactInitialize join componentContent ienv projectRoot d' = (d', Ok true)).
Proof.
  intros projectRoot d. split; [apply reactInitialize_keeps|].
  set (i18nPath := join projectRoot "src/i18n.js").
  set (example := join projectRoot "src/components/I18nExample.js").
  intros d' H. unfold reactInitialize in H. fold i18nPath in H. fold example in H.
  destruct (match files d i18nPath with
            | Some _ => (d, Ok tt)
            | None => outputFile ienv i18nPath i18nContent d
            end) as [d1 r] eqn:E1.
  destruct (reactInitialize_first_step projectRoot d d1 r E1) as [Hkeep Hmade].
  fold i18nPath in Hmade.
  destruct r as [[]| |]; try discriminate. specialize (Hmade eq_refl).
  assert (Hboth : files d' i18nPath = Some (match files d i18nPath with
                                            | Some c => c
                                            | None => i18nContent
                                            end)
                  /\ files d' example <> None).
  { destruct (files d1 example) eqn:E2.
    - injection H as <-. split; [exact Hmade | congruence].
    - destruct (ensure_error ienv _); [discriminate|].
      destruct (outputFile ienv example componentContent d1) as [d2 r2] eqn:E3.
      destruct r2 as [[]| |]; try discriminate. injection H as <-.
      split.
      + eapply outputFile_keeps; eauto.
      + apply outputFile_creates in E3. congruence. }
  destruct Hboth as [Hi Hex]. split; [exact Hi|]. split; [exact Hex|].
  unfold reactInitialize. fold i18nPath. fold example. rewrite Hi.
  destruct (files d' example); [reflexivity | contradiction].
Qed.
End InitializeProofs.

Section FrameProofs.
Local Open Scope string_scope.

(** X16. Whatever happens, [updateTranslations] changes no path but the i18n
    file and its backup path; a missing i18n file makes it throw with the
    disk unchanged; and when the write cannot fail, a call that throws
    leaves the i18n file as it was. *)
Theorem updateTranslations_touches_two_paths :
  forall (js_eval : string -> option JsValue)
         (insertLanguage : string -> string -> Props -> string)
         (env : Env) (structure : Structure) (translations : Props)
         (language : string) (forceAll : bool) (d : Disk),
    (forall p,
       p <> i18nFile structure ->
       p <> backupPath_of (i18nFile structure) (now env) ->
       files (fst (updateTranslations js_eval insertLanguage env structure translations
                     language forceAll d)) p
       = files d p)
    /\ (files d (i18nFile structure) = None ->
        updateTranslations js_eval insertLanguage env structure translations language
          forceAll d
        = (d, Throw (Error ("i18n file not found: " ++ i18nFile structure))))
    /\ (write_error env = None ->
        forall e,
          snd (updateTranslations js_eval insertLanguage env structure translations
                 language forceAll d) = Throw e ->
          files (fst (updateTranslations js_eval insertLanguage env structure translations
                        language forceAll d)) (i18nFile structure)
          = files d (i18nFile structure)).
Proof.
  intros js_eval insertLanguage env structure translations language forceAll d.
  pose proof (backupPath_differs (i18nFile structure) (now env)) as Hdiff.
  split; [|split].
  - intros p Hfile Hbackup. unfold updateTranslations.
    destruct (files d (i18nFile structure)); [|reflexivity].
    destruct (read_error env); [reflexivity|].
    destruct (copy_error env) as [[e r]|]; cbn [fst files].
    + now apply leave_other.
    + destruct (write_error env) as [[e r]|]; cbn [fst files].
      * rewrite leave_other by exact Hfile. now apply store_other.
      * rewrite store_other by exact Hfile. now apply store_other.
  - intros Hnone. unfold updateTranslations. now rewrite Hnone.
  - intros Hwrite e. unfold updateTranslations.
    destruct (files d (i18nFile structure)) eqn:Hfile; [|intros _; exact Hfile].
    destruct (read_error env); [intros _; exact Hfile|].
    destruct (copy_error env) as [[e' r]|]; cbn [fst snd files].
    + intros _. rewrite leave_other; [exact Hfile|]. intros E. now apply Hdiff.
    + rewrite Hwrite. cbn [snd]. discriminate.
Qed.
End FrameProofs.

Section Rejected.
Local Open Scope list_scope.

Lemma run_chunks_rejected :
  forall (net : World -> string -> string -> HttpReply)
         (JSON_parse : string -> option JsValue) (tr : string -> JsValue)
         (targetLang apiKey : string) (d : nat) (status : N) (detail : string)
         (done : list (list string)) (c : list string) (rest : list (list string))
         (results : list JsValue) (w : World),
    Forall (fun b => b <> [] /\ answers_in_order net JSON_parse tr targetLang apiKey b) done ->
    c <> [] ->
    (forall history, net history (endpoint apiKey) (prompt_for c targetLang)
                     = HttpFailure status detail) ->
    run_chunks sleep (fun batch => translateWithGemini net JSON_parse batch targetLang apiKey)
      d (done ++ c :: rest) results w
    = (w ++ gemini_schedule targetLang apiKey d (done ++ [c]),
       Throw (Error ("Gemini API error: " ++ decimal status ++ " - " ++ detail)%string)).
Proof.
  intros net JSON_parse tr targetLang apiKey d status detail.
  induction done as [|b done IH]; intros c rest results w Hdone Hc Hrej.
  - cbn [app run_chunks gemini_schedule]. unfold translateWithGemini.
    destruct c as [|x c]; [contradiction|]. now rewrite Hrej.
  - inversion Hdone as [|? ? [Hne Hans] Hrest]; subst.
    cbn [app run_chunks]. unfold translateWithGemini at 1.
    destruct b as [|x b]; [contradiction|].
    destruct (Hans w) as [text [others [Hnet Hparse]]]. rewrite Hnet, Hparse.
    cbn [iterate].
    destruct (done ++ c :: rest) as [|y ys] eqn:E; [now destruct done|].
    rewrite <- E, IH by assumption.
    unfold sleep. rewrite <- !app_assoc. f_equal. f_equal.
    cbn [gemini_schedule app]. destruct (done ++ [c]) eqn:E2; [now destruct done|].
    reflexivity.
Qed.
End Rejected.

Section GenerateTheorems.
Local Open Scope list_scope.

(** X10. When the provider answers the batches before [c] and rejects the
    request for [c] with an HTTP status, [generateTranslations] throws the
    Gemini API error with that status, has sent the requests up to the one
    for [c] and none after it, and leaves the disk as it was. *)
Theorem generateTranslations_writes_nothing_when_a_batch_fails :
  forall (net : World -> string -> string -> HttpReply)
         (JSON_parse : string -> option JsValue)
         (js_eval : string -> option JsValue)
         (insertLanguage : string -> string -> Props -> string) (env : Env)
         (tr : string -> JsValue) (analysis : Analysis) (language apiKey : string)
         (service : option string) (forceAll : bool)
         (done : list (list string)) (c : list string) (rest : list (list string))
         (status : N) (detail : string) (w : World) (d : Disk),
    service = None \/ service = Some "gemini" ->
    chunks 15 (map snd (flatten (categorize (strings analysis)))) = done ++ c :: rest ->
    (forall b, In b done -> answers_in_order net JSON_parse tr language apiKey b) ->
    (forall history, net history (endpoint apiKey) (prompt_for c language)
                     = HttpFailure status detail) ->
    generateTranslations net JSON_parse js_eval insertLanguage env analysis language apiKey
      service forceAll w d
    = (w ++ gemini_schedule language apiKey 2000 (done ++ [c]), d,
       Throw (Error ("Gemini API error: " ++ decimal status ++ " - " ++ detail)%string)).
Proof.
  intros net JSON_parse js_eval insertLanguage env tr analysis language apiKey service
         forceAll done c rest status detail w d Hservice Hchunks Hdone Hrej.
  set (allStrings := map snd (flatten (categorize (strings analysis)))) in *.
  assert (Hsizes : Forall (fun b : list string => 1 <= length b <= 15) (done ++ c :: rest)).
  { rewrite <- Hchunks. apply chunks_upto_sizes. lia. }
  assert (Hrun : processBatches sleep allStrings
                   (fun batch => translateWithGemini net JSON_parse batch language apiKey)
                   None None w
                 = (w ++ gemini_schedule language apiKey 2000 (done ++ [c]),
                    Throw (Error ("Gemini API error: " ++ decimal status ++ " - "
                                  ++ detail)%string))).
  { rewrite processBatches_as_run_chunks by lia. rewrite Hchunks.
    apply (run_chunks_rejected net JSON_parse tr).
    - apply Forall_forall. intros b Hb. split; [|now apply Hdone].
      rewrite Forall_forall in Hsizes.
      specialize (Hsizes b ltac:(apply in_or_app; now left)).
      intros ->. cbn in Hsizes. lia.
    - rewrite Forall_forall in Hsizes.
      specialize (Hsizes c ltac:(apply in_or_app; right; now left)).
      intros ->. cbn in Hsizes. lia.
    - exact Hrej. }
  unfold generateTranslations, translateStrings.
  destruct (strings analysis) as [|s0 strs0] eqn:Estr.
  - exfalso. subst allStrings. cbn in Hchunks. now destruct done.
  - fold allStrings.
    destruct Hservice as [-> | ->]; cbn [String.eqb Ascii.eqb Bool.eqb];
      rewrite Hrun; reflexivity.
Qed.

Lemma generateTranslations_with_a_stub_adapter :
  forall (net : World -> string -> string -> HttpReply)
         (JSON_parse : string -> option JsValue)
         (js_eval : string -> option JsValue)
         (insertLanguage : string -> string -> Props -> string) (env : Env)
         (analysis : Analysis) (language apiKey : string)
         (service : option string) (forceAll : bool) (w : World) (d : Disk),
    framework analysis = "vue"%string \/ framework analysis = "angular"%string ->
    generateTranslations net JSON_parse js_eval insertLanguage env analysis language apiKey
      service forceAll w d
    = (fst (translateStrings net JSON_parse (Some (strings analysis)) language apiKey
              service w),
       d,
       snd (translateStrings net JSON_parse (Some (strings analysis)) language apiKey
              service w)).
Proof.
  intros net JSON_parse js_eval insertLanguage env analysis language apiKey service
         forceAll w d Hfw.
  unfold generateTranslations.
  destruct (translateStrings net JSON_parse (Some (strings analysis)) language apiKey
              service w) as [w1 [v| e |]]; cbn [fst snd]; try reflexivity.
  destruct Hfw as [-> | ->]; reflexivity.
Qed.
End GenerateTheorems.

Section InitTheorem.
Local Open Scope string_scope.

(** X15. When the file operations go through, [init] succeeds for every
    project and the style sheet of the package is at
    [src/ResponsiveLanguage.css] afterwards; every other file that existed
    keeps its content, and for a vue or angular project no other path
    changes. *)
Theorem init_installs_the_style_sheet :
  forall (join : string -> string -> string) (componentContent : string) (ienv : InitEnv)
         (resolve : string -> string) (dirname : string)
         (fs : FsView) (projectPath : string) (d : Disk) (css : string),
    (forall p, output_error ienv p = None) ->
    (forall p, ensure_error ienv p = None) ->
    css_copy ienv = inr css ->
    exists d',
      init join componentContent ienv resolve dirname fs projectPath d = (d', Ok true)
      /\ files d' (join (join (resolve projectPath) "src") "ResponsiveLanguage.css")
         = Some css
      /\ (detectFramework join fs (resolve projectPath) <> "react" ->
          forall p, p <> join (join (resolve projectPath) "src") "ResponsiveLanguage.css" ->
                    files d' p = files d p)
      /\ (forall p c, p <> join (join (resolve projectPath) "src") "ResponsiveLanguage.css" ->
                      files d p = Some c -> files d' p = Some c).
Proof.
  intros join componentContent ienv resolve dirname fs projectPath d css Hout Hens Hcss.
  set (root := resolve projectPath).
  set (cssPath := join (join root "src") "ResponsiveLanguage.css").
  assert (Hreact : exists d1,
             reactInitialize join componentContent ienv root d = (d1, Ok true)).
  { unfold reactInitialize, outputFile.
    destruct (files d (join root "src/i18n.js")).
    - destruct (files d _); [eexists; reflexivity|].
      rewrite Hens, Hout. eexists. reflexivity.
    - rewrite Hout. cbn [files].
      destruct (store _ _ _ _); [eexists; reflexivity|].
      rewrite Hens, Hout. eexists. reflexivity. }
  destruct Hreact as [dr Hdr].
  pose proof (detectFramework_range join fs root) as Hrange.
  unfold init. fold root.
  destruct Hrange as [E | [E | E]]; rewrite E; cbn [String.eqb Ascii.eqb Bool.eqb].
  - rewrite Hdr, Hens, Hcss. eexists. split; [reflexivity|]. cbn [files]. fold cssPath.
    split; [apply store_same|]. split; [congruence|].
    intros p c Hp Hc. rewrite store_other by exact Hp.
    pose proof (reactInitialize_keeps join componentContent ienv root d p c Hc) as Hk.
    now rewrite Hdr in Hk.
  - unfold stubInitialize. rewrite Hens, Hcss. eexists. split; [reflexivity|].
    cbn [files]. fold cssPath. split; [apply store_same|].
    split; intros; rewrite store_other; auto.
  - unfold stubInitialize. rewrite Hens, Hcss. eexists. split; [reflexivity|].
    cbn [files]. fold cssPath. split; [apply store_same|].
    split; intros; rewrite store_other; auto.
Qed.
End InitTheorem.

(** ** The scan of the component files *)

Section Pieces.
Local Open Scope string_scope.

Lemma prefix_split : forall p s : string, prefix p s = true -> s = p ++ drop (String.length p) s.
Proof.
  induction p as [|c p IH]; intros s H.
  - reflexivity.
  - destruct s as [|d s]; cbn in H; [discriminate|].
    destruct (Ascii.ascii_dec c d) as [->|]; [|discriminate].
    cbn. f_equal. now apply IH.
Qed.

Lemma strip_prefix_split : forall p s r : string, strip_prefix p s = Some r -> s = p ++ r.
Proof.
  intros p s r H. unfold strip_prefix in H.
  destruct (prefix p s) eqn:E; [|discriminate]. injection H as <-. now apply prefix_split.
Qed.

Lemma piece_refl : forall s, piece s s.
Proof. intros s. exists "", "". cbn. now rewrite append_nil_r. Qed.

Lemma piece_trans : forall x y z, piece x y -> piece y z -> piece x z.
Proof.
  intros x y z [a [b ->]] [a' [b' ->]]. exists (a' ++ a), (b ++ b').
  now rewrite !append_assoc.
Qed.

Lemma piece_left : forall a s, piece s (a ++ s).
Proof. intros a s. exists a, "". now rewrite append_nil_r. Qed.

Lemma piece_right : forall s b, piece s (s ++ b).
Proof. intros s b. exists "", b. reflexivity. Qed.

Lemma piece_cons : forall c x s, piece x s -> piece x (String c s).
Proof. intros c x s [a [b ->]]. exists (String c a), b. reflexivity. Qed.

Lemma skip_spaces_suffix : forall s, exists l, s = l ++ skip_spaces s.
Proof.
  induction s as [|c s [l IH]]; [now exists ""|].
  cbn. destruct (is_space c); [|now exists ""].
  exists (String c l). cbn. now rewrite <- IH.
Qed.

Lemma trimEnd_prefix : forall s, exists r, s = trimEnd s ++ r.
Proof.
  induction s as [|c s [r IH]]; [now exists ""|].
  cbn. destruct (is_space c && String.eqb (trimEnd s) ""); [now exists (String c s)|].
  exists r. cbn. now rewrite <- IH.
Qed.

Lemma trim_piece : forall g, piece (trim g) g.
Proof.
  intros g. unfold trim.
  destruct (skip_spaces_suffix g) as [l Hl]. destruct (trimEnd_prefix (skip_spaces g)) as [r Hr].
  exists l, r. now rewrite <- Hr.
Qed.

Lemma trimEnd_idempotent : forall s, trimEnd (trimEnd s) = trimEnd s.
Proof.
  induction s as [|c s IH]; [reflexivity|].
  cbn. destruct (is_space c && String.eqb (trimEnd s) "") eqn:E; [reflexivity|].
  cbn. rewrite IH, E. reflexivity.
Qed.

Lemma skip_spaces_fixed : forall s, skip_spaces (skip_spaces s) = skip_spaces s.
Proof.
  induction s as [|c s IH]; [reflexivity|].
  cbn. destruct (is_space c) eqn:E; [exact IH|]. cbn. now rewrite E.
Qed.

Lemma skip_spaces_trimEnd : forall s, skip_spaces s = s -> skip_spaces (trimEnd s) = trimEnd s.
Proof.
  intros [|c s] H; [reflexivity|].
  cbn in H. destruct (is_space c) eqn:E.
  - exfalso. destruct (skip_spaces_suffix s) as [l Hl].
    rewrite H in Hl. apply (f_equal String.length) in Hl.
    rewrite length_append in Hl. cbn in Hl. lia.
  - cbn. rewrite E. cbn. now rewrite E.
Qed.

Lemma trim_idempotent : forall s, trim (trim s) = trim s.
Proof.
  intros s. unfold trim.
  rewrite skip_spaces_trimEnd by apply skip_spaces_fixed.
  apply trimEnd_idempotent.
Qed.

End Pieces.

Section ScanFacts.
Local Open Scope string_scope.

Lemma span_spec : forall p s run rest,
  span p s = (run, rest) ->
  s = run ++ rest /\ forall_chars p run = true.
Proof.
  induction s as [|c s IH]; intros run rest H; cbn in H.
  - injection H as <- <-. now split.
  - destruct (p c) eqn:E.
    + destruct (span p s) as [run' rest'] eqn:E'. injection H as <- <-.
      destruct (IH _ _ eq_refl) as [-> Hall]. cbn. rewrite E. now split.
    + injection H as <- <-. now split.
Qed.

Lemma span_run : forall p run c post,
  forall_chars p run = true -> p c = false ->
  span p (run ++ String c post) = (run, String c post).
Proof.
  induction run as [|r run IH]; intros c post Hall Hc; cbn.
  - now rewrite Hc.
  - cbn in Hall. apply andb_true_iff in Hall as [Hr Hall].
    rewrite Hr, IH by assumption. reflexivity.
Qed.

Lemma jsxText_here_spec : forall s g rest,
  jsxText_here s = Some (g, rest) ->
  s = tag_end ++ g ++ tag_start ++ rest /\ g <> "" /\ forall_chars jsx_text_char g = true.
Proof.
  intros [|c s] g rest H; cbn in H; [discriminate|].
  destruct (Nat.eqb (code c) 62) eqn:Ec; [|discriminate].
  destruct (span jsx_text_char s) as [run after] eqn:Es.
  destruct run as [|r run]; [discriminate|].
  destruct after as [|c' post]; [discriminate|].
  destruct (Nat.eqb (code c') 60) eqn:Ec'; [|discriminate].
  injection H as <- <-.
  apply span_spec in Es as [-> Hall].
  apply Nat.eqb_eq in Ec, Ec'.
  assert (c = ascii_of_nat 62) as -> by (unfold code in Ec; now rewrite <- Ec, ascii_nat_embedding).
  assert (c' = ascii_of_nat 60) as -> by (unfold code in Ec'; now rewrite <- Ec', ascii_nat_embedding).
  split; [|split; [discriminate | exact Hall]].
  reflexivity.
Qed.

Lemma jsxText_here_run : forall run post,
  run <> "" -> forall_chars jsx_text_char run = true ->
  jsxText_here (tag_end ++ run ++ tag_start ++ post) = Some (run, post).
Proof.
  intros run post Hne Hall. unfold tag_end, tag_start, char. cbn [append jsxText_here].
  change (Nat.eqb (code (ascii_of_nat 62)) 62) with true. cbn match.
  rewrite span_run by (exact Hall || reflexivity).
  destruct run as [|r run]; [contradiction|]. reflexivity.
Qed.

End ScanFacts.

Section SetFacts.
Local Open Scope list_scope.

Lemma existsb_eqb_In : forall (t : string) l, existsb (String.eqb t) l = true <-> In t l.
Proof.
  intros t l. rewrite existsb_exists. split.
  - intros [x [Hx E]]. apply String.eqb_eq in E. now subst.
  - intros H. exists t. split; [exact H | apply String.eqb_refl].
Qed.

Lemma set_add_keeps : forall x t l, In x l -> In x (set_add t l).
Proof.
  intros x t l H. unfold set_add. destruct (existsb _ l); [exact H|].
  apply in_or_app. now left.
Qed.

Lemma set_add_in : forall t l, In t (set_add t l).
Proof.
  intros t l. unfold set_add. destruct (existsb _ l) eqn:E.
  - now apply existsb_eqb_In.
  - apply in_or_app. right. now left.
Qed.

Lemma set_add_inv : forall x t l, In x (set_add t l) -> x = t \/ In x l.
Proof.
  intros x t l H. unfold set_add in H. destruct (existsb _ l); [now right|].
  apply in_app_or in H as [H | [H | []]]; [now right | now left].
Qed.

Lemma set_add_NoDup : forall t l, NoDup l -> NoDup (set_add t l).
Proof.
  intros t l H. unfold set_add. destruct (existsb _ l) eqn:E; [exact H|].
  apply NoDup_app; [exact H | repeat constructor; intros [] |].
  intros x Hx [<- | []]. apply existsb_eqb_In in Hx. congruence.
Qed.

End SetFacts.

Section ScanLoop.
Local Open Scope string_scope.

Lemma piece_suffix : forall x rest s, piece x rest -> suffix rest s -> piece x s.
Proof.
  intros x rest s [a [b ->]] [a' ->]. exists (a' ++ a), b. now rewrite append_assoc.
Qed.

Lemma suffix_trans : forall a b c, suffix a b -> suffix b c -> suffix a c.
Proof. intros a b c [x ->] [y ->]. exists (y ++ x). now rewrite append_assoc. Qed.

Lemma exec_leftmost_spec : forall here s g rest,
  exec_leftmost here s = Some (g, rest) ->
  exists a s', s = a ++ s' /\ here s' = Some (g, rest).
Proof.
  intros here. induction s as [|c s IH]; intros g rest H; cbn in H.
  - destruct (here "") as [m|] eqn:E; [|discriminate].
    injection H as ->. now exists "", "".
  - destruct (here (String c s)) as [m|] eqn:E.
    + injection H as ->. now exists "", (String c s).
    + destruct (IH _ _ H) as [a [s' [-> Hs']]]. now exists (String c a), s'.
Qed.

Variable here : string -> option (string * string).
Hypothesis here_sound : forall s g rest,
  here s = Some (g, rest) -> piece g s /\ suffix rest s.

Lemma scan_keeps : forall rounds s acc x, In x acc -> In x (scan here rounds s acc).
Proof.
  induction rounds as [|rounds IH]; intros s acc x H; cbn; [exact H|].
  destruct (exec_leftmost here s) as [[g rest]|]; [|exact H].
  apply IH. destruct (translatable (trim g)); [now apply set_add_keeps | exact H].
Qed.

Lemma scan_NoDup : forall rounds s acc, NoDup acc -> NoDup (scan here rounds s acc).
Proof.
  induction rounds as [|rounds IH]; intros s acc H; cbn; [exact H|].
  destruct (exec_leftmost here s) as [[g rest]|]; [|exact H].
  apply IH. destruct (translatable (trim g)); [now apply set_add_NoDup | exact H].
Qed.

Lemma scan_sound : forall rounds s acc x,
  In x (scan here rounds s acc) ->
  In x acc \/ (translatable x = true /\ trim x = x /\ piece x s).
Proof.
  induction rounds as [|rounds IH]; intros s acc x H; cbn in H; [now left|].
  destruct (exec_leftmost here s) as [[g rest]|] eqn:E; [|now left].
  apply exec_leftmost_spec in E as [a [s' [-> Hs']]].
  destruct (here_sound _ _ _ Hs') as [Hg Hrest].
  assert (Hsuf : suffix s' (a ++ s')) by now exists a.
  apply IH in H as [H | [Ht [Hfix Hp]]].
  - destruct (translatable (trim g)) eqn:Et; [|now left].
    apply set_add_inv in H as [-> | H]; [|now left].
    right. split; [exact Et|]. split; [apply trim_idempotent|].
    apply piece_suffix with s'; [|exact Hsuf].
    apply piece_trans with g; [apply trim_piece | exact Hg].
  - right. split; [exact Ht|]. split; [exact Hfix|].
    apply piece_suffix with rest; [exact Hp|]. now apply suffix_trans with s'.
Qed.

End ScanLoop.

Section HereFacts.
Local Open Scope string_scope.

Lemma jsxText_here_sound : forall s g rest,
  jsxText_here s = Some (g, rest) -> piece g s /\ suffix rest s.
Proof.
  intros s g rest H. apply jsxText_here_spec in H as [-> _]. split.
  - exists tag_end, (tag_start ++ rest). reflexivity.
  - exists (tag_end ++ g ++ tag_start). now rewrite !append_assoc.
Qed.

Lemma strip_any_split : forall names s r,
  strip_any names s = Some r -> exists name, s = name ++ r.
Proof.
  induction names as [|n names IH]; intros s r H; cbn in H; [discriminate|].
  destruct (strip_prefix n s) as [r'|] eqn:E.
  - injection H as <-. exists n. now apply strip_prefix_split.
  - now apply IH.
Qed.

Lemma lazy_to_quote_split : forall s g r,
  lazy_to_quote s = Some (g, r) -> exists q, s = g ++ String q r.
Proof.
  induction s as [|c s IH]; intros g r H; cbn in H; [discriminate|].
  destruct (is_quote c).
  - injection H as <- <-. now exists c.
  - destruct (is_line_end c); [discriminate|].
    destruct (lazy_to_quote s) as [[g' r']|]; [|discriminate].
    injection H as <- <-. destruct (IH _ _ eq_refl) as [q ->]. now exists q.
Qed.

Lemma lazy_to_quote_brace_split : forall s g r,
  lazy_to_quote_brace s = Some (g, r) -> exists tail, s = g ++ tail ++ r.
Proof.
  induction s as [|c s IH]; intros g r H; cbn [lazy_to_quote_brace] in H; [discriminate|].
  destruct (is_quote c && prefix "}" s) eqn:E.
  - injection H as <- <-. apply andb_true_iff in E as [_ E].
    apply prefix_split in E. exists (String c "}"). cbn. now rewrite E at 1.
  - destruct (is_line_end c); [discriminate|].
    destruct (lazy_to_quote_brace s) as [[g' r']|]; [|discriminate].
    injection H as <- <-. destruct (IH _ _ eq_refl) as [tail ->]. now exists tail.
Qed.

Lemma jsxAttribute_here_sound : forall s g rest,
  jsxAttribute_here s = Some (g, rest) -> piece g s /\ suffix rest s.
Proof.
  intros s g rest H. unfold jsxAttribute_here in H.
  destruct (strip_any attribute_names s) as [r|] eqn:E; [|discriminate].
  apply strip_any_split in E as [name ->].
  destruct r as [|e [|q t]]; try discriminate.
  destruct (Nat.eqb (code e) 61); [|discriminate].
  destruct (is_quote q).
  - apply lazy_to_quote_split in H as [q' ->]. split.
    + exists (name ++ String e (String q "")), (String q' rest).
      now rewrite !append_assoc.
    + exists (name ++ String e (String q g) ++ String q' "").
      now rewrite !append_assoc.
  - destruct (Nat.eqb (code q) 123); [|discriminate].
    destruct t as [|q' t']; [discriminate|].
    destruct (is_quote q'); [|discriminate].
    apply lazy_to_quote_brace_split in H as [tail ->]. split.
    + exists (name ++ String e (String q (String q' ""))), (tail ++ rest).
      now rewrite !append_assoc.
    + exists (name ++ String e (String q (String q' g)) ++ tail).
      now rewrite !append_assoc.
Qed.

End HereFacts.

Section Completeness.
Local Open Scope string_scope.

Lemma run_before_bracket : forall g pre x y rest T,
  forall_chars jsx_text_char g = true -> jsx_text_char x = false -> x <> y ->
  pre ++ String x T = g ++ String y rest ->
  exists pre', pre = g ++ String y pre' /\ rest = pre' ++ String x T.
Proof.
  induction g as [|r g IH]; intros pre x y rest T Hall Hx Hxy E.
  - destruct pre as [|c pre]; cbn in E.
    + injection E as E _. contradiction.
    + injection E as -> <-. now exists pre.
  - cbn in Hall. apply andb_true_iff in Hall as [Hr Hall].
    destruct pre as [|c pre]; cbn in E.
    + injection E as -> _. congruence.
    + injection E as -> E. destruct (IH _ _ _ _ _ Hall Hx Hxy E) as [pre' [-> ->]].
      now exists pre'.
Qed.

Lemma scan_unfold_skip : forall here c s rounds acc,
  here (String c s) = None ->
  scan here (S rounds) (String c s) acc = scan here (S rounds) s acc.
Proof. intros here c s rounds acc H. cbn. now rewrite H. Qed.

Lemma scan_finds : forall run post,
  run <> "" -> forall_chars jsx_text_char run = true ->
  translatable (trim run) = true ->
  forall n pre rounds acc,
    String.length pre <= n ->
    String.length (pre ++ tag_end ++ run ++ tag_start ++ post) <= rounds ->
    In (trim run) (scan jsxText_here rounds (pre ++ tag_end ++ run ++ tag_start ++ post) acc).
Proof.
  intros run post Hne Hall Htr.
  set (T := tag_end ++ run ++ tag_start ++ post).
  assert (HT : jsxText_here T = Some (run, post)) by now apply jsxText_here_run.
  assert (Hfound : forall rounds acc, 1 <= rounds -> In (trim run) (scan jsxText_here rounds T acc)).
  { intros [|rounds] acc Hr; [lia|].
    cbn [scan]. replace (exec_leftmost jsxText_here T) with (Some (run, post)).
    - rewrite Htr. apply scan_keeps, set_add_in.
    - unfold T, tag_end, char. cbn [append exec_leftmost].
      unfold T, tag_end, char in HT. cbn [append] in HT. now rewrite HT. }
  induction n as [|n IH]; intros pre rounds acc Hn Hrounds.
  - destruct pre; [|cbn in Hn; lia]. cbn [append]. apply Hfound.
    cbn [append] in Hrounds. unfold T, tag_end, char in Hrounds. cbn in Hrounds. lia.
  - destruct pre as [|c pre]; [cbn [append]; apply Hfound;
      cbn [append] in Hrounds; unfold T, tag_end, char in Hrounds; cbn in Hrounds; lia|].
    cbn [append] in *. cbn [String.length] in Hn, Hrounds.
    destruct rounds as [|rounds]; [lia|].
    destruct (jsxText_here (String c (pre ++ T))) as [[g rest]|] eqn:E.
    + cbn [scan exec_leftmost]. rewrite E.
      apply jsxText_here_spec in E as [E [_ Hg]].
      unfold tag_end, char in E. cbn [append] in E. injection E as _ E.
      unfold T, tag_end, char in E. cbn [append] in E.
      apply run_before_bracket in E as [pre' [-> ->]];
        [|exact Hg|reflexivity|discriminate].
      rewrite length_append in Hn. cbn [String.length] in Hn.
      rewrite !length_append in Hrounds. cbn [String.length] in Hrounds.
      change (String (ascii_of_nat 62) (run ++ tag_start ++ post)) with T.
      apply IH; [lia|]. rewrite length_append. lia.
    + rewrite scan_unfold_skip by exact E. apply IH; lia.
Qed.

End Completeness.

Section AnalyzeFacts.
Local Open Scope list_scope.

Variable readFile : string -> JsError + string.
Variable js_eval : string -> option JsValue.
Variable fallback_entries : string -> list (string * list (string * string)).

Lemma scan_content_keeps : forall content acc x,
  In x acc -> In x (scan_content content acc).
Proof. intros. unfold scan_content. now apply scan_keeps, scan_keeps. Qed.

Lemma scan_content_NoDup : forall content acc, NoDup acc -> NoDup (scan_content content acc).
Proof. intros. unfold scan_content. now apply scan_NoDup, scan_NoDup. Qed.

Lemma scan_content_sound : forall content acc x,
  In x (scan_content content acc) ->
  In x acc \/ (translatable x = true /\ trim x = x /\ piece x content).
Proof.
  intros content acc x H. unfold scan_content in H.
  apply (scan_sound _ jsxAttribute_here_sound) in H as [H | H]; [|now right].
  now apply (scan_sound _ jsxText_here_sound) in H.
Qed.

Lemma scan_content_finds : forall pre run post acc,
  run <> ""%string -> forall_chars jsx_text_char run = true ->
  translatable (trim run) = true ->
  In (trim run) (scan_content (pre ++ tag_end ++ run ++ tag_start ++ post)%string acc).
Proof.
  intros pre run post acc Hne Hall Htr. unfold scan_content.
  apply scan_keeps. now apply scan_finds with (n := String.length pre).
Qed.

Lemma scan_files_keeps : forall paths acc x,
  In x acc -> In x (scan_files readFile paths acc).
Proof.
  induction paths as [|f paths IH]; intros acc x H; [exact H|].
  cbn. apply IH. destruct (readFile f); [exact H | now apply scan_content_keeps].
Qed.

Lemma scan_files_NoDup : forall paths acc, NoDup acc -> NoDup (scan_files readFile paths acc).
Proof.
  induction paths as [|f paths IH]; intros acc H; [exact H|].
  cbn. apply IH. destruct (readFile f); [exact H | now apply scan_content_NoDup].
Qed.

Lemma scan_files_sound : forall paths acc x,
  In x (scan_files readFile paths acc) ->
  In x acc
  \/ (translatable x = true /\ trim x = x
      /\ exists file content,
           In file paths /\ readFile file = inr content /\ piece x content).
Proof.
  induction paths as [|f paths IH]; intros acc x H; [now left|].
  cbn in H. apply IH in H as [H | [Ht [Hfix [file [content [Hin [Hread Hp]]]]]]].
  - destruct (readFile f) as [err|content] eqn:E; [now left|].
    apply scan_content_sound in H as [H | [Ht [Hfix Hp]]]; [now left|].
    right. split; [exact Ht|]. split; [exact Hfix|].
    exists f, content. split; [now left|]. now split.
  - right. split; [exact Ht|]. split; [exact Hfix|].
    exists file, content. split; [now right|]. now split.
Qed.

Lemma scan_files_finds : forall paths file pre run post acc,
  In file paths ->
  readFile file = inr (pre ++ tag_end ++ run ++ tag_start ++ post)%string ->
  run <> ""%string -> forall_chars jsx_text_char run = true ->
  translatable (trim run) = true ->
  In (trim run) (scan_files readFile paths acc).
Proof.
  induction paths as [|f paths IH]; intros file pre run post acc Hin Hread Hne Hall Htr;
    [contradiction|].
  cbn. destruct Hin as [-> | Hin].
  - rewrite Hread. apply scan_files_keeps. now apply scan_content_finds.
  - now apply IH with file pre post.
Qed.

Lemma fallback_NoDup : forall body,
  NoDup (snd (fallback fallback_entries body)).
Proof.
  intros body. unfold fallback.
  generalize (fallback_entries body). intros entries.
  assert (H : NoDup (snd (JObj [], @nil string))) by constructor.
  revert H. generalize (JObj [], @nil string).
  induction entries as [|[namespace pairs] entries IH]; intros acc H; [exact H|].
  cbn [fold_left]. apply IH.
  assert (H' : NoDup (snd (JObj (obj_set namespace (JObj []) (own_props (fst acc))), snd acc)))
    by exact H.
  revert H'. generalize (JObj (obj_set namespace (JObj []) (own_props (fst acc))), snd acc).
  induction pairs as [|[key value] pairs IHp]; intros acc' H'; [exact H'|].
  cbn [fold_left]. apply IHp. cbn [snd]. now apply set_add_NoDup.
Qed.

Lemma existing_translations_NoDup : forall fs i18nFile current collected,
  existing_translations readFile js_eval fallback_entries fs i18nFile = Ok (current, collected) ->
  NoDup collected.
Proof.
  intros fs i18nFile current collected H. unfold existing_translations in H.
  destruct (pathExists fs i18nFile); [|injection H as _ <-; constructor].
  destruct (readFile i18nFile) as [err|content]; [discriminate|].
  destruct (enMatch content) as [body|]; [|injection H as _ <-; constructor].
  destruct (js_eval _); [injection H as _ <-; constructor|].
  injection H as H. pose proof (fallback_NoDup body) as Hnd. now rewrite H in Hnd.
Qed.

End AnalyzeFacts.

Section AnalyzeTheorems.
Local Open Scope list_scope.

(** X19. When reading the existing translations does not throw, the React
    [analyze] succeeds and reports strings without repetition, each of which
    was collected by the fall-back or else passes the filter, has no blank
    at either end and occurs in a UI file that could be read. *)
Theorem reactAnalyze_reports_pieces_of_the_files :
  forall (readFile : string -> JsError + string) (js_eval : string -> option JsValue)
         (fallback_entries : string -> list (string * list (string * string)))
         (fs : FsView) (projectRoot : string) (structure : ProjectStructure)
         (current : JsValue) (collected : list string),
    existing_translations readFile js_eval fallback_entries fs (ps_i18nFile structure)
    = Ok (current, collected) ->
    exists a,
      reactAnalyze readFile js_eval fallback_entries fs projectRoot structure = Ok a
      /\ ra_uiFiles a = uiFiles structure
      /\ currentTranslations a = current
      /\ NoDup (ra_strings a)
      /\ (forall s, In s collected -> In s (ra_strings a))
      /\ (forall s, In s (ra_strings a) ->
            In s collected
            \/ (translatable s = true /\ trim s = s
                /\ exists file content,
                     In file (uiFiles structure) /\ readFile file = inr content
                     /\ piece s content)).
Proof.
  intros readFile js_eval fallback_entries fs projectRoot structure current collected H.
  unfold reactAnalyze. rewrite H. eexists. split; [reflexivity|]. cbn [ra_uiFiles
    currentTranslations ra_strings].
  split; [reflexivity|]. split; [reflexivity|].
  split; [apply scan_files_NoDup; now apply existing_translations_NoDup in H|].
  split; [intros s Hs; now apply scan_files_keeps|].
  intros s Hs. now apply scan_files_sound.
Qed.

(** X20. Every run of characters other than the angle brackets, the braces
    and the line feed that stands between a closing and an opening angle
    bracket of a readable UI file is found: its trimmed text is reported
    whenever it passes the filter. *)
Theorem reactAnalyze_finds_the_text_between_tags :
  forall (readFile : string -> JsError + string) (js_eval : string -> option JsValue)
         (fallback_entries : string -> list (string * list (string * string)))
         (fs : FsView) (projectRoot : string) (structure : ProjectStructure)
         (a : ReactAnalysis) (file pre run post : string),
    reactAnalyze readFile js_eval fallback_entries fs projectRoot structure = Ok a ->
    In file (uiFiles structure) ->
    readFile file = inr (pre ++ tag_end ++ run ++ tag_start ++ post)%string ->
    run <> ""%string ->
    forall_chars jsx_text_char run = true ->
    translatable (trim run) = true ->
    In (trim run) (ra_strings a).
Proof.
  intros readFile js_eval fallback_entries fs projectRoot structure a file pre run post
         Ha Hin Hread Hne Hall Htr.
  unfold reactAnalyze in Ha.
  destruct (existing_translations _ _ _ _ _) as [[current collected]| |]; try discriminate.
  injection Ha as <-. cbn [ra_strings]. now apply scan_files_finds with file pre post.
Qed.

End AnalyzeTheorems.

Section StructureTheorems.
Local Open Scope list_scope.

Lemma first_existing_spec : forall join fs root patterns,
  match first_existing join fs root patterns with
  | Some f =>
      exists earlier p later,
        patterns = earlier ++ p :: later /\ f = join root p
        /\ pathExists fs f = true
        /\ (forall q, In q earlier -> pathExists fs (join root q) = false)
  | None => forall q, In q patterns -> pathExists fs (join root q) = false
  end.
Proof.
  intros join fs root. induction patterns as [|p patterns IH]; cbn.
  - intros q [].
  - destruct (pathExists fs (join root p)) eqn:E.
    + exists [], p, patterns. repeat split; try assumption. intros q [].
    + destruct (first_existing join fs root patterns) as [f|].
      * destruct IH as [earlier [p' [later [-> [-> [Hex Hno]]]]]].
        exists (p :: earlier), p', later. repeat split; try assumption.
        intros q [<- | Hq]; [exact E | now apply Hno].
      * intros q [<- | Hq]; [exact E | now apply IH].
Qed.

Lemma first_split_unique : forall (A : Type) (P : A -> Prop) (l1 l2 : list A) x y r1 r2,
  l1 ++ x :: r1 = l2 ++ y :: r2 ->
  P x -> P y -> (forall q, In q l1 -> ~ P q) -> (forall q, In q l2 -> ~ P q) ->
  x = y.
Proof.
  intros A P. induction l1 as [|a l1 IH]; intros [|b l2] x y r1 r2 E Hx Hy H1 H2;
    cbn in E.
  - now injection E.
  - injection E as -> _. exfalso. apply (H2 b); [now left | exact Hx].
  - injection E as -> _. exfalso. apply (H1 y); [now left | exact Hy].
  - injection E as -> E. apply (IH l2 x y r1 r2 E Hx Hy).
    + intros q Hq. apply H1. now right.
    + intros q Hq. apply H2. now right.
Qed.

(** X13. For a framework with patterns, [detectStructure] returns a
    structure whose i18n file is one of the candidate paths of the framework
    below the project root: the first candidate that exists when one does,
    and the default of the framework when none does. *)
Theorem detectStructure_takes_the_first_path_that_exists :
  forall (join : string -> string -> string) (fs : FsView) (projectRoot framework : string)
         (patterns : list string),
    i18nPatterns framework = Some patterns ->
    (forall p, join projectRoot p <> ""%string) ->
    exists s,
      detectStructure join fs projectRoot framework = Ok s
      /\ In (ps_i18nFile s) (map (join projectRoot) patterns)
      /\ (forall earlier p later,
            patterns = earlier ++ p :: later ->
            pathExists fs (join projectRoot p) = true ->
            (forall q, In q earlier -> pathExists fs (join projectRoot q) = false) ->
            ps_i18nFile s = join projectRoot p)
      /\ ((forall p, In p patterns -> pathExists fs (join projectRoot p) = false) ->
          ps_i18nFile s
          = join projectRoot (if String.eqb framework "angular" then "src/assets/i18n"
                              else "src/i18n.js")).
Proof.
  intros join fs projectRoot framework patterns Hpat Hjoin.
  unfold detectStructure. rewrite Hpat.
  assert (Hui : exists uis, uiPatterns framework = Some uis).
  { unfold i18nPatterns in Hpat. unfold uiPatterns.
    repeat match goal with
           | |- context [if ?b then _ else _] => destruct b
           end; try discriminate; eexists; reflexivity. }
  destruct Hui as [uis ->].
  eexists. split; [reflexivity|]. cbn [ps_i18nFile].
  pose proof (first_existing_spec join fs projectRoot patterns) as Hspec.
  destruct (first_existing join fs projectRoot patterns) as [f|].
  - destruct Hspec as [earlier [p [later [Hsplit [-> [Hex Hno]]]]]].
    destruct (String.eqb (join projectRoot p) "") eqn:E;
      [apply String.eqb_eq in E; now apply Hjoin in E|].
    split; [|split].
    + apply in_map. rewrite Hsplit. apply in_or_app. right. now left.
    + intros earlier' p' later' Hsplit' Hex' Hno'.
      f_equal. rewrite Hsplit in Hsplit'.
      apply (first_split_unique _ (fun q => pathExists fs (join projectRoot q) = true)
               earlier earlier' p p' later later' Hsplit' Hex Hex').
      * intros q Hq. rewrite (Hno q Hq). discriminate.
      * intros q Hq. rewrite (Hno' q Hq). discriminate.
    + intros Hnone. rewrite Hnone in Hex; [discriminate|].
      rewrite Hsplit. apply in_or_app. right. now left.
  - cbn [String.eqb]. unfold default_i18nFile.
    unfold i18nPatterns in Hpat.
    destruct (String.eqb framework "react") eqn:Er.
    { apply String.eqb_eq in Er. subst framework. injection Hpat as <-.
      cbn [String.eqb Ascii.eqb Bool.eqb]. split; [now left|]. split; [|reflexivity].
      intros earlier p later Hsplit Hex _. rewrite Hspec in Hex; [discriminate|].
      rewrite Hsplit. apply in_or_app. right. now left. }
    destruct (String.eqb framework "vue") eqn:Ev.
    { apply String.eqb_eq in Ev. subst framework. injection Hpat as <-.
      cbn [String.eqb Ascii.eqb Bool.eqb]. split; [now left|]. split; [|reflexivity].
      intros earlier p later Hsplit Hex _. rewrite Hspec in Hex; [discriminate|].
      rewrite Hsplit. apply in_or_app. right. now left. }
    destruct (String.eqb framework "angular") eqn:Ea; [|discriminate].
    apply String.eqb_eq in Ea. subst framework. injection Hpat as <-.
    split; [now left|]. split; [|reflexivity].
    intros earlier p later Hsplit Hex _. rewrite Hspec in Hex; [discriminate|].
    rewrite Hsplit. apply in_or_app. right. now left.
Qed.

Lemma detectStructure_of_a_detected_framework :
  forall join fs root,
    exists s, detectStructure join fs root (detectFramework join fs root) = Ok s.
Proof.
  intros join fs root.
  destruct (detectFramework_range join fs root) as [E | [E | E]];
    rewrite E; eexists; reflexivity.
Qed.

End StructureTheorems.

Section IndexAnalyze.
Local Open Scope list_scope.

(** X21. [analyze] of index.js either returns an analysis made of the
    detected framework and of the structure [detectStructure] returns for
    it, or throws the error of reading the existing i18n file of a react
    project; it fails in no other way. *)
Theorem analyze_fails_only_on_an_unreadable_i18n_file :
  forall (readFile : string -> JsError + string) (js_eval : string -> option JsValue)
         (fallback_entries : string -> list (string * list (string * string)))
         (join : string -> string -> string) (resolve : string -> string)
         (fs : FsView) (projectPath : string),
    (exists a,
        analyze readFile js_eval fallback_entries join resolve fs projectPath = Ok a
        /\ pa_framework a = detectFramework join fs (resolve projectPath)
        /\ detectStructure join fs (resolve projectPath) (pa_framework a)
           = Ok (pa_structure a)
        /\ pa_uiFiles a = uiFiles (pa_structure a)
        /\ pa_i18nFile a = ps_i18nFile (pa_structure a)
        /\ pa_responsiveCssFile a
           = join (resolve projectPath) "src/ResponsiveLanguage.css")
    \/ (exists err file,
          analyze readFile js_eval fallback_entries join resolve fs projectPath = Throw err
          /\ detectFramework join fs (resolve projectPath) = "react"%string
          /\ pathExists fs file = true
          /\ readFile file = inl err).
Proof.
  intros readFile js_eval fallback_entries join resolve fs projectPath.
  set (root := resolve projectPath).
  unfold analyze. fold root.
  destruct (detectStructure_of_a_detected_framework join fs root) as [s Hs].
  rewrite Hs.
  assert (Hcss : responsiveCssFile s = join root "src/ResponsiveLanguage.css").
  { unfold detectStructure in Hs.
    destruct (i18nPatterns _); [|discriminate]. destruct (uiPatterns _); [|discriminate].
    now injection Hs as <-. }
  destruct (detectFramework_range join fs root) as [E | [E | E]];
    rewrite E in *; cbn [String.eqb Ascii.eqb Bool.eqb].
  - unfold reactAnalyze, existing_translations.
    destruct (pathExists fs (ps_i18nFile s)) eqn:Ex.
    + destruct (readFile (ps_i18nFile s)) as [err|content] eqn:Er.
      * right. exists err, (ps_i18nFile s). now repeat split.
      * left.
        destruct (enMatch content) as [body|];
          [destruct (js_eval _); [|destruct (fallback fallback_entries body)]|];
          eexists; (split; [reflexivity|]); cbn; now repeat split.
    + left. eexists. split; [reflexivity|]. cbn. now repeat split.
  - left. eexists. split; [reflexivity|]. cbn. now repeat split.
  - left. eexists. split; [reflexivity|]. cbn. now repeat split.
Qed.

(** X22. For a project not detected as react, [analyze] succeeds with no
    strings, and [generateTranslations] on that analysis returns the empty
    object without sending a request or changing the disk. *)
Theorem vue_and_angular_projects_get_no_translations :
  forall (readFile : string -> JsError + string) (js_eval : string -> option JsValue)
         (fallback_entries : string -> list (string * list (string * string)))
         (join : string -> string -> string) (resolve : string -> string)
         (fs : FsView) (projectPath : string),
    detectFramework join fs (resolve projectPath) <> "react"%string ->
    exists a,
      analyze readFile js_eval fallback_entries join resolve fs projectPath = Ok a
      /\ pa_strings a = []
      /\ forall (net : World -> string -> string -> HttpReply)
                (JSON_parse : string -> option JsValue)
                (js_eval' : string -> option JsValue)
                (insertLanguage : string -> string -> Props -> string) (env : Env)
                (language apiKey : string) (service : option string) (forceAll : bool)
                (w : World) (d : Disk),
           generateTranslations net JSON_parse js_eval' insertLanguage env
             (generation_input a) language apiKey service forceAll w d
           = (w, d, Ok (JObj [])).
Proof.
  intros readFile js_eval fallback_entries join resolve fs projectPath Hfw.
  set (root := resolve projectPath) in *.
  unfold analyze. fold root.
  destruct (detectStructure_of_a_detected_framework join fs root) as [s Hs].
  rewrite Hs.
  destruct (detectFramework_range join fs root) as [E | [E | E]];
    [contradiction| |]; rewrite E; cbn [String.eqb Ascii.eqb Bool.eqb];
    (eexists; split; [reflexivity|]; split; [reflexivity|]; intros;
     rewrite generateTranslations_with_a_stub_adapter
       by (cbn; tauto);
     reflexivity).
Qed.

End IndexAnalyze.

(** ** Regular expressions: the new language and the components *)

Section PatternFacts.
Import Patterns.
Local Open Scope string_scope.

Lemma includes_char_append : forall (c : ascii) (a b : string),
  includes (a ++ b) (String c "") = includes a (String c "") || includes b (String c "").
Proof.
  intros c. induction a as [|x a IH]; intros b.
  - cbn [append includes]. destruct b; reflexivity.
  - cbn [append includes]. rewrite !prefix_char, IH. now rewrite orb_assoc.
Qed.

Lemma expand_groups_plain : forall (m : Found) (x y : string),
  includes x "$" = false -> expand_groups m (x ++ y) = x ++ expand_groups m y.
Proof.
  induction x as [|c x IH]; intros y H; [reflexivity|].
  cbn [includes] in H. apply orb_false_iff in H as [Hc Hx].
  rewrite prefix_char in Hc. cbn [append expand_groups]. rewrite (code_dollar c Hc).
  now rewrite IH.
Qed.

Lemma between_append : forall a b : string, between (a ++ b) b = a.
Proof.
  intros a b. unfold between. rewrite length_append.
  replace (String.length a + String.length b - String.length b) with (String.length a) by lia.
  apply take_append.
Qed.

Lemma lit_inv : forall (R : Type) (p : string) (k : string -> option R) s r,
  lit p k s = Some r -> exists rest, s = p ++ rest /\ k rest = Some r.
Proof.
  intros R p k s r H. unfold lit in H.
  destruct (strip_prefix p s) as [rest|] eqn:E; [|discriminate].
  exists rest. split; [now apply strip_prefix_split | exact H].
Qed.

Lemma one_inv : forall (R : Type) (c : ascii -> bool) (k : string -> option R) s r,
  one c k s = Some r -> exists a t, s = String a t /\ c a = true /\ k t = Some r.
Proof.
  intros R c k [|a t] r H; cbn in H; [discriminate|].
  destruct (c a) eqn:E; [|discriminate]. now exists a, t.
Qed.

Lemma greedy_inv : forall (R : Type) (c : ascii -> bool) (k : string -> option R) s r,
  greedy c k s = Some r ->
  exists run rest, s = run ++ rest /\ forall_chars c run = true /\ k rest = Some r.
Proof.
  intros R c k. induction s as [|a t IH]; intros r H; cbn [greedy] in H.
  - now exists "", "".
  - destruct (c a) eqn:E; [|now exists "", (String a t)].
    destruct (greedy c k t) as [r'|] eqn:E'.
    + injection H as <-. destruct (IH _ eq_refl) as [run [rest [-> [Hall Hk]]]].
      exists (String a run), rest. cbn. rewrite E. now repeat split.
    + now exists "", (String a t).
Qed.

Lemma lazy_inv : forall (R : Type) (c : ascii -> bool) (k : string -> option R) s r,
  lazy c k s = Some r ->
  exists run rest, s = run ++ rest /\ forall_chars c run = true /\ k rest = Some r.
Proof.
  intros R c k. induction s as [|a t IH]; intros r H; cbn [lazy] in H.
  - destruct (k "") eqn:E; [|discriminate]. injection H as <-. now exists "", "".
  - destruct (k (String a t)) eqn:E.
    + injection H as <-. now exists "", (String a t).
    + destruct (c a) eqn:Ec; [|discriminate].
      destruct (IH _ H) as [run [rest [-> [Hall Hk]]]].
      exists (String a run), rest. cbn. rewrite Ec. now repeat split.
Qed.

Lemma maybe_inv : forall (R : Type) (c : ascii -> bool) (k : string -> option R) s r,
  maybe c k s = Some r ->
  exists run rest, s = run ++ rest /\ forall_chars c run = true
                   /\ String.length run <= 1 /\ k rest = Some r.
Proof.
  intros R c k [|a t] r H; cbn in H.
  - exists "", "". cbn. repeat split; auto.
  - destruct (c a) eqn:E.
    + destruct (k t) eqn:E'.
      * injection H as <-. exists (String a ""), t. cbn. rewrite E. repeat split; auto.
      * exists "", (String a t). cbn. repeat split; auto.
    + exists "", (String a t). cbn. repeat split; auto.
Qed.

Lemma between_suffix : forall rest s : string,
  suffix rest s -> between s rest ++ rest = s.
Proof. intros rest s [a ->]. now rewrite between_append. Qed.

Lemma exec_splits : forall (here : string -> option (list string * string)),
  (forall s gs rest, here s = Some (gs, rest) -> suffix rest s) ->
  forall s done m,
    exec here done s = Some m ->
    done ++ s = f_before m ++ f_matched m ++ f_after m
    /\ here (f_matched m ++ f_after m) = Some (f_groups m, f_after m).
Proof.
  intros here Hsuf. induction s as [|c s IH]; intros done m H; cbn [exec] in H.
  - destruct (here "") as [[gs rest]|] eqn:E; [|discriminate].
    injection H as <-. cbn [f_before f_matched f_after f_groups].
    rewrite (between_suffix _ _ (Hsuf _ _ _ E)). now split.
  - destruct (here (String c s)) as [[gs rest]|] eqn:E.
    + injection H as <-. cbn [f_before f_matched f_after f_groups].
      rewrite (between_suffix _ _ (Hsuf _ _ _ E)). now split.
    + apply IH in H as [H1 H2]. split; [|exact H2].
      rewrite <- H1, append_assoc. reflexivity.
Qed.

Lemma append_eq_nil : forall x y : string, x ++ y = "" -> y = "".
Proof. intros [|c x] y H; [exact H | discriminate]. Qed.

(** [c*?] stops at the first place where what follows matches. *)
Lemma lazy_first : forall (R : Type) (c : ascii -> bool) (k : string -> option R) s r,
  lazy c k s = Some r ->
  exists run rest,
    s = run ++ rest /\ forall_chars c run = true /\ k rest = Some r
    /\ forall x y, run = x ++ y -> y <> "" -> k (y ++ rest) = None.
Proof.
  intros R c k. induction s as [|a t IH]; intros r H; cbn [lazy] in H.
  - destruct (k "") eqn:E; [|discriminate]. injection H as <-.
    exists "", "". repeat split; auto.
    intros x y Hxy Hy. symmetry in Hxy. apply append_eq_nil in Hxy. contradiction.
  - destruct (k (String a t)) eqn:E.
    + injection H as <-. exists "", (String a t). repeat split; auto.
      intros x y Hxy Hy. symmetry in Hxy. apply append_eq_nil in Hxy. contradiction.
    + destruct (c a) eqn:Ec; [|discriminate].
      destruct (IH _ H) as [run [rest [-> [Hall [Hk Hmin]]]]].
      exists (String a run), rest. cbn [forall_chars append]. rewrite Ec.
      repeat split; auto.
      intros [|b x] y Hxy Hy; cbn [append] in Hxy.
      * subst y. exact E.
      * injection Hxy as _ Hxy. now apply Hmin with x.
Qed.

(** [[\s\S]*?] reaches every place. *)
Lemma lazy_any_reaches : forall (R : Type) (k : string -> option R) x y,
  k y <> None -> lazy any k (x ++ y) <> None.
Proof.
  intros R k. induction x as [|a x IH]; intros y Hy.
  - cbn [append]. destruct y; cbn [lazy]; destruct (k _); congruence.
  - cbn [append lazy]. destruct (k (String a (x ++ y))); [discriminate|].
    cbn [any]. now apply IH.
Qed.

Lemma includes_split : forall s p : string,
  includes s p = true -> exists x y, s = x ++ p ++ y.
Proof.
  induction s as [|c s IH]; intros p H; cbn [includes] in H.
  - rewrite orb_false_r in H. destruct p; [|discriminate]. now exists "", "".
  - apply orb_true_iff in H as [H | H].
    + apply prefix_split in H. exists "". eexists. cbn [append]. exact H.
    + destruct (IH _ H) as [x [y ->]]. now exists (String c x), y.
Qed.

Lemma lit_here : forall (R : Type) (p : string) (k : string -> option R) rest,
  lit p k (p ++ rest) = k rest.
Proof.
  intros R p k rest. unfold lit, strip_prefix.
  assert (Hp : forall p x : string, prefix p (p ++ x) = true).
  { induction p0 as [|c p0 IH]; intros x; cbn.
    - now destruct x.
    - destruct (ascii_dec c c); [apply IH | contradiction]. }
  rewrite Hp, drop_append. reflexivity.
Qed.

Lemma append_cancel_l : forall a b c : string, a ++ b = a ++ c -> b = c.
Proof. induction a as [|x a IH]; intros b c H; [exact H|]. injection H as H. now apply IH. Qed.

(** The leftmost match: the expression matches at no earlier place. *)
Lemma exec_first : forall (here : string -> option (list string * string)) s done m,
  exec here done s = Some m ->
  exists pre tail,
    f_before m = done ++ pre /\ s = pre ++ tail
    /\ forall x y, pre = x ++ y -> y <> "" -> here (y ++ tail) = None.
Proof.
  intros here. induction s as [|c s IH]; intros done m H; cbn [exec] in H.
  - destruct (here "") as [[gs rest]|] eqn:E; [|discriminate].
    injection H as <-. exists "", "". cbn [f_before]. rewrite append_nil_r.
    repeat split; auto.
    intros x y Hxy Hy. symmetry in Hxy. apply append_eq_nil in Hxy. contradiction.
  - destruct (here (String c s)) as [[gs rest]|] eqn:E.
    + injection H as <-. exists "", (String c s). cbn [f_before]. rewrite append_nil_r.
      repeat split; auto.
      intros x y Hxy Hy. symmetry in Hxy. apply append_eq_nil in Hxy. contradiction.
    + destruct (IH _ _ H) as [pre [tail [Hb [-> Hmin]]]].
      exists (String c pre), tail. split; [rewrite Hb, append_assoc; reflexivity|].
      split; [reflexivity|].
      intros [|b x] y Hxy Hy; cbn [append] in Hxy.
      * subst y. exact E.
      * injection Hxy as _ Hxy. now apply Hmin with x.
Qed.

Lemma exec_is_leftmost : forall (here : string -> option (list string * string)),
  (forall s gs rest, here s = Some (gs, rest) -> suffix rest s) ->
  forall s m,
    exec here "" s = Some m ->
    forall x y, f_before m = x ++ y -> y <> "" -> here (y ++ f_matched m ++ f_after m) = None.
Proof.
  intros here Hsuf s m H x y Hxy Hy.
  destruct (exec_splits here Hsuf _ _ _ H) as [Hs _].
  destruct (exec_first here _ _ _ H) as [pre [tail [Hb [Hs' Hmin]]]].
  cbn [append] in Hs, Hb. subst pre.
  rewrite Hs' in Hs. apply append_cancel_l in Hs. subst tail. now apply Hmin with x.
Qed.

Lemma greedy_total : forall (R : Type) (c : ascii -> bool) (k : string -> option R) s,
  (forall t, k t <> None) -> greedy c k s <> None.
Proof.
  intros R c k s Hk. destruct s as [|a t]; cbn [greedy]; [apply Hk|].
  destruct (c a); [|apply Hk]. destruct (greedy c k t); [discriminate | apply Hk].
Qed.

(** [c*] at the end of an expression takes every character of the class. *)
Lemma greedy_all : forall (R : Type) (c : ascii -> bool) (k : string -> option R),
  (forall t, k t <> None) ->
  forall s r,
    greedy c k s = Some r ->
    exists run rest,
      s = run ++ rest /\ forall_chars c run = true /\ k rest = Some r
      /\ forall a t, rest = String a t -> c a = false.
Proof.
  intros R c k Hk. induction s as [|a t IH]; intros r H; cbn [greedy] in H.
  - exists "", "". repeat split; auto. discriminate.
  - destruct (c a) eqn:E.
    + destruct (greedy c k t) as [r'|] eqn:E'; [|now apply greedy_total in E'].
      injection H as <-. destruct (IH _ eq_refl) as [run [rest [-> [Hall [Hr Hend]]]]].
      exists (String a run), rest. cbn. rewrite E. now repeat split.
    + exists "", (String a t). repeat split; auto. intros a' t' Heq. now injection Heq as <- _.
Qed.

Lemma one_more : forall (c : ascii -> bool) (a : ascii) (run : string),
  c a = true -> forall_chars c run = true ->
  String a run <> "" /\ forall_chars c (String a run) = true.
Proof. intros c a run Ha Hrun. split; [discriminate|]. cbn. now rewrite Ha. Qed.

Lemma matched_of_split : forall (m : Found) (x : string),
  f_matched m ++ f_after m = x ++ f_after m -> f_matched m = x.
Proof.
  intros m x E.
  apply (f_equal (fun t => between t (f_after m))) in E.
  now rewrite !between_append in E.
Qed.

End PatternFacts.

Section InsertFacts.
Import Patterns.
Local Open Scope string_scope.

Lemma between_eq : forall s s' x : string, s = x ++ s' -> between s s' = x.
Proof. intros s s' x ->. apply between_append. Qed.

Lemma is_comma_inv : forall run : string,
  forall_chars is_comma run = true -> String.length run <= 1 -> run = "" \/ run = ",".
Proof.
  intros [|c [|d run]] Hall Hlen; [now left| |cbn in Hlen; lia].
  right. cbn in Hall. rewrite andb_true_r in Hall. unfold is_comma in Hall.
  apply Nat.eqb_eq in Hall. unfold code in Hall.
  rewrite <- (ascii_nat_embedding c), Hall. reflexivity.
Qed.

Lemma declaration_here_spec : forall s gs rest,
  declaration_here s = Some (gs, rest) ->
  exists w body g2,
    s = "const " ++ w ++ "Translations = {" ++ body ++ "};" ++ g2 ++ "i18n" ++ rest
    /\ gs = ["const " ++ w ++ "Translations = {" ++ body ++ "};"; g2; "i18n"]
    /\ w <> "" /\ forall_chars is_word_char w = true
    /\ includes body "};" = false /\ includes g2 "i18n" = false.
Proof.
  intros s gs rest H. unfold declaration_here, mark in H.
  apply lit_inv in H as [r1 [-> H]].
  apply one_inv in H as [a [t [-> [Ha H]]]].
  apply greedy_inv in H as [run [r2 [-> [Hrun H]]]].
  apply lit_inv in H as [r3 [-> H]].
  apply lazy_first in H as [body [r4 [-> [_ [H Hbody]]]]].
  apply lit_inv in H as [r5 [-> H]].
  apply lazy_first in H as [g2 [r6 [-> [_ [H Hgap]]]]].
  apply lit_inv in H as [r7 [-> H]].
  injection H as <- <-.
  exists (String a run), body, g2.
  split; [reflexivity|]. split.
  { f_equal; [|f_equal; [|f_equal]]; apply between_eq;
      rewrite ?append_assoc; reflexivity. }
  split; [discriminate|]. split; [cbn; now rewrite Ha|].
  split.
  - destruct (includes body "};") eqn:E; [exfalso|reflexivity].
    apply includes_split in E as [x [z ->]].
    specialize (Hbody x ("};" ++ z) eq_refl ltac:(discriminate)).
    rewrite (append_assoc "};" z), (lit_here _ "};") in Hbody.
    replace (z ++ "};" ++ g2 ++ "i18n" ++ r7) with ((z ++ "};" ++ g2) ++ "i18n" ++ r7)
      in Hbody by now rewrite !append_assoc.
    revert Hbody. apply lazy_any_reaches. rewrite (lit_here _ "i18n"). discriminate.
  - destruct (includes g2 "i18n") eqn:E; [exfalso|reflexivity].
    apply includes_split in E as [x [z ->]].
    specialize (Hgap x ("i18n" ++ z) eq_refl ltac:(discriminate)).
    rewrite (append_assoc "i18n" z), (lit_here _ "i18n") in Hgap. discriminate.
Qed.

Lemma resources_here_spec : forall s gs rest,
  resources_here s = Some (gs, rest) ->
  exists lead body comma blanks,
    s = "resources: {" ++ lead ++ "en: {" ++ body ++ "}" ++ comma ++ blanks ++ "}" ++ rest
    /\ gs = ["resources: {" ++ lead ++ "en: {" ++ body ++ "}"; comma ++ blanks; "}"]
    /\ (comma = "" \/ comma = ",") /\ forall_chars is_space blanks = true.
Proof.
  intros s gs rest H. unfold resources_here, mark in H.
  apply lit_inv in H as [r1 [-> H]].
  apply greedy_inv in H as [w1 [r2 [-> [_ H]]]].
  apply lazy_inv in H as [d [r3 [-> [_ H]]]].
  apply greedy_inv in H as [w2 [r4 [-> [_ H]]]].
  apply lit_inv in H as [r5 [-> H]].
  apply lazy_inv in H as [body [r6 [-> [_ H]]]].
  apply lit_inv in H as [r7 [-> H]].
  apply maybe_inv in H as [comma [r8 [-> [Hcomma [Hlen H]]]]].
  apply greedy_inv in H as [w3 [r9 [-> [Hw3 H]]]].
  apply lit_inv in H as [r10 [-> H]].
  injection H as <- <-.
  exists (w1 ++ d ++ w2), body, comma, w3.
  split; [now rewrite !append_assoc|].
  split; [|split; [now apply is_comma_inv | exact Hw3]].
  f_equal; [|f_equal; [|f_equal]]; apply between_eq;
    rewrite ?append_assoc; reflexivity.
Qed.

Lemma declaration_here_suffix : forall s gs rest,
  declaration_here s = Some (gs, rest) -> suffix rest s.
Proof.
  intros s gs rest H. apply declaration_here_spec in H as [w [body [g2 [-> _]]]].
  exists ("const " ++ w ++ "Translations = {" ++ body ++ "};" ++ g2 ++ "i18n").
  now rewrite !append_assoc.
Qed.

Lemma resources_here_suffix : forall s gs rest,
  resources_here s = Some (gs, rest) -> suffix rest s.
Proof.
  intros s gs rest H. apply resources_here_spec in H as [lead [body [comma [blanks [-> _]]]]].
  exists ("resources: {" ++ lead ++ "en: {" ++ body ++ "}" ++ comma ++ blanks ++ "}").
  now rewrite !append_assoc.
Qed.

Lemma expand_three : forall (m : Found) (g1 g2 g3 block : string) (c : ascii) (b : string),
  f_groups m = [g1; g2; g3] ->
  block = String c b -> is_digit c = false ->
  includes block "$" = false ->
  expand_groups m ("$1" ++ block ++ "$2$3") = g1 ++ block ++ g2 ++ g3
  /\ expand_groups m ("$1" ++ block ++ "$3") = g1 ++ block ++ g3.
Proof.
  intros [bf mt gs af] g1 g2 g3 block c b Hg -> Hc Hplain.
  cbn [f_groups] in Hg. subst gs.
  set (m := mkFound bf mt [g1; g2; g3] af).
  assert (H1 : forall tail,
             expand_groups m ("$1" ++ String c b ++ tail)
             = g1 ++ expand_groups m (String c b ++ tail)).
  { intros tail. cbn [append]. cbn [expand_groups].
    change (Nat.eqb (code "$") 36) with true. cbn match.
    change (Nat.eqb (code "1") 36) with false.
    change (Nat.eqb (code "1") 38) with false.
    change (Nat.eqb (code "1") 96) with false.
    change (Nat.eqb (code "1") 39) with false.
    change (is_digit "1") with true. cbn match.
    rewrite Hc. reflexivity. }
  assert (H2 : expand_groups m "$2$3" = g2 ++ g3 ++ "") by reflexivity.
  assert (H3 : expand_groups m "$3" = g3 ++ "") by reflexivity.
  split; rewrite H1, expand_groups_plain by exact Hplain.
  - now rewrite H2, append_nil_r.
  - now rewrite H3, append_nil_r.
Qed.

Lemma title_plain : forall language,
  includes language "$" = false -> includes (language_title language) "$" = false.
Proof.
  intros language H. unfold language_title.
  repeat match goal with |- context [if ?b then _ else _] => destruct b end;
    try reflexivity; exact H.
Qed.

Lemma new_block_plain : forall language translations,
  includes language "$" = false ->
  includes (stringify (JObj translations)) "$" = false ->
  includes (new_block language translations) "$" = false.
Proof.
  intros language translations Hl Hj. unfold new_block, declaration.
  rewrite !includes_char_append, Hl, Hj, (title_plain _ Hl). reflexivity.
Qed.

Lemma new_entry_plain : forall language,
  includes language "$" = false -> includes (new_entry language) "$" = false.
Proof.
  intros language Hl. unfold new_entry. rewrite !includes_char_append, Hl. reflexivity.
Qed.

End InsertFacts.

Section InsertTheorems.
Import Patterns.
Local Open Scope string_scope.

(** X17. For a language the file does not declare, when the expressions of
    lines 250 and 256 match and neither the language code nor the JSON text
    of the entries holds a dollar sign: the first match is the leftmost one,
    its first group is a declaration up to its first closing brace and
    semicolon, its second group the text up to the first [i18n], and the new
    declaration is inserted between the two; the second match is the
    leftmost one, its second group is a comma or none and blanks, and the
    new resources entry takes the place of that group. *)
Theorem insert_language_adds_a_declaration_and_an_entry :
  forall (content language : string) (translations : Props) (m1 m2 : Found),
    exec declaration_here "" content = Some m1 ->
    exec resources_here "" (with_declaration content language translations) = Some m2 ->
    includes language "$" = false ->
    includes (stringify (JObj translations)) "$" = false ->
    exists first name body gap entries lead inner comma blanks,
      first = "const " ++ name ++ "Translations = {" ++ body ++ "};"
      /\ name <> "" /\ forall_chars is_word_char name = true
      /\ includes body "};" = false
      /\ includes gap "i18n" = false
      /\ f_groups m1 = [first; gap; "i18n"]
      /\ content = f_before m1 ++ first ++ gap ++ "i18n" ++ f_after m1
      /\ (forall x y, f_before m1 = x ++ y -> y <> "" ->
            declaration_here (y ++ first ++ gap ++ "i18n" ++ f_after m1) = None)
      /\ with_declaration content language translations
         = f_before m1 ++ first ++ new_block language translations ++ gap ++ "i18n"
           ++ f_after m1
      /\ entries = "resources: {" ++ lead ++ "en: {" ++ inner ++ "}"
      /\ (comma = "" \/ comma = ",") /\ forall_chars is_space blanks = true
      /\ f_groups m2 = [entries; comma ++ blanks; "}"]
      /\ with_declaration content language translations
         = f_before m2 ++ entries ++ comma ++ blanks ++ "}" ++ f_after m2
      /\ (forall x y, f_before m2 = x ++ y -> y <> "" ->
            resources_here (y ++ entries ++ comma ++ blanks ++ "}" ++ f_after m2) = None)
      /\ insert_language content language translations
         = f_before m2 ++ entries ++ new_entry language ++ "}" ++ f_after m2.
Proof.
  intros content language translations m1 m2 H1 H2 Hl Hj.
  destruct (exec_splits _ declaration_here_suffix _ _ _ H1) as [Hc1 Hh1].
  destruct (exec_splits _ resources_here_suffix _ _ _ H2) as [Hc2 Hh2].
  pose proof (exec_is_leftmost _ declaration_here_suffix _ _ H1) as Hleft.
  pose proof (exec_is_leftmost _ resources_here_suffix _ _ H2) as Hleft2.
  cbn [append] in Hc1, Hc2.
  apply declaration_here_spec in Hh1
    as [name [body [gap [Em1 [Hg1 [Hname [Hword [Hbody Hgap]]]]]]]].
  apply resources_here_spec in Hh2
    as [lead [inner [comma [blanks [Em2 [Hg2 [Hcomma Hblanks]]]]]]].
  set (first := "const " ++ name ++ "Translations = {" ++ body ++ "};") in *.
  set (entries := "resources: {" ++ lead ++ "en: {" ++ inner ++ "}") in *.
  assert (Ematched1 : f_matched m1 = first ++ gap ++ "i18n").
  { apply matched_of_split. rewrite Em1. unfold first. now rewrite !append_assoc. }
  assert (Ematched2 : f_matched m2 = entries ++ comma ++ blanks ++ "}").
  { apply matched_of_split. rewrite Em2. unfold entries. now rewrite !append_assoc. }
  assert (Hwith : with_declaration content language translations
                  = f_before m1 ++ first ++ new_block language translations ++ gap ++ "i18n"
                    ++ f_after m1).
  { unfold with_declaration, replace_first. rewrite H1.
    destruct (expand_three m1 first gap "i18n" (new_block language translations)
                (ascii_of_nat 10)
                (newline ++ "// " ++ language_title language ++ " translations" ++ newline
                 ++ declaration language (JObj translations)) Hg1 eq_refl eq_refl
                (new_block_plain _ _ Hl Hj)) as [E _].
    rewrite E. now rewrite !append_assoc. }
  exists first, name, body, gap, entries, lead, inner, comma, blanks.
  split; [reflexivity|]. split; [exact Hname|]. split; [exact Hword|].
  split; [exact Hbody|]. split; [exact Hgap|]. split; [exact Hg1|].
  split; [rewrite Hc1, Ematched1; now rewrite !append_assoc|].
  split.
  { intros x y Hxy Hy. specialize (Hleft x y Hxy Hy).
    rewrite Ematched1 in Hleft. now rewrite !append_assoc in Hleft. }
  split; [exact Hwith|]. split; [reflexivity|]. split; [exact Hcomma|].
  split; [exact Hblanks|]. split; [exact Hg2|].
  split; [rewrite Hc2, Ematched2; now rewrite !append_assoc|].
  split.
  { intros x y Hxy Hy. specialize (Hleft2 x y Hxy Hy).
    rewrite Ematched2 in Hleft2. now rewrite !append_assoc in Hleft2. }
  unfold insert_language, replace_first. rewrite H2.
  destruct (expand_three m2 entries (comma ++ blanks) "}" (new_entry language) ","%char
              (newline ++ "      " ++ language ++ ": {" ++ newline
               ++ "        translation: " ++ language ++ "Translations" ++ newline
               ++ "      }") Hg2 eq_refl eq_refl (new_entry_plain _ Hl)) as [_ E].
  rewrite E. now rewrite !append_assoc.
Qed.

End InsertTheorems.

Section MatcherSuffix.
Import Patterns UiUpdate.
Local Open Scope string_scope.

Lemma suffix_refl : forall s, suffix s s.
Proof. intros s. now exists "". Qed.

Lemma suffix_app : forall rest p t, suffix rest t -> suffix rest (p ++ t).
Proof. intros rest p t [a ->]. exists (p ++ a). now rewrite append_assoc. Qed.

Lemma suffix_cons : forall rest c t, suffix rest t -> suffix rest (String c t).
Proof. intros rest c t [a ->]. now exists (String c a). Qed.

Lemma alt_inv : forall (R : Type) (a b : (string -> option R) -> string -> option R) k s r,
  alt a b k s = Some r -> a k s = Some r \/ b k s = Some r.
Proof.
  intros R a b k s r H. unfold alt in H. destruct (a k s); [left|right]; assumption.
Qed.

Lemma tag_name_inv : forall (R : Type) (k : string -> option R) s r,
  tag_name k s = Some r -> exists name rest, s = name ++ rest /\ k rest = Some r.
Proof.
  intros R k s r H. unfold tag_name in H.
  apply alt_inv in H as [H | H]; [apply lit_inv in H as [rest [-> H]]; eauto|].
  apply alt_inv in H as [H | H]; [apply lit_inv in H as [rest [-> H]]; eauto|].
  apply alt_inv in H as [H | H]; [apply lit_inv in H as [rest [-> H]]; eauto|].
  apply lit_inv in H as [rest [-> H]]. apply one_inv in H as [a [t [-> [_ H]]]].
  exists (String "h" (String a "")), t. now split.
Qed.

End MatcherSuffix.

Ltac invert_matcher H :=
  repeat first
    [ apply lit_inv in H as [? [-> H]]
    | apply one_inv in H as [? [? [-> [_ H]]]]
    | apply greedy_inv in H as [? [? [-> [_ H]]]]
    | apply lazy_inv in H as [? [? [-> [_ H]]]]
    | apply maybe_inv in H as [? [? [-> [_ [_ H]]]]]
    | apply tag_name_inv in H as [? [? [-> H]]] ].

Ltac solve_suffix :=
  repeat first [ apply suffix_refl | apply suffix_app | apply suffix_cons ].

Section MatcherSuffixes.
Import Patterns UiUpdate.
Local Open Scope string_scope.

Lemma button_here_suffix : forall s gs rest,
  button_here s = Some (gs, rest) -> suffix rest s.
Proof.
  intros s gs rest H. unfold button_here, mark in H. invert_matcher H.
  injection H as _ <-. solve_suffix.
Qed.

Lemma text_element_here_suffix : forall s gs rest,
  text_element_here s = Some (gs, rest) -> suffix rest s.
Proof.
  intros s gs rest H. unfold text_element_here, mark in H. invert_matcher H.
  injection H as _ <-. solve_suffix.
Qed.

Lemma switcher_here_suffix : forall s gs rest,
  switcher_here s = Some (gs, rest) -> suffix rest s.
Proof.
  intros s gs rest H. unfold switcher_here, mark in H. invert_matcher H.
  injection H as _ <-. solve_suffix.
Qed.

Lemma import_here_suffix : forall s gs rest,
  import_here s = Some (gs, rest) -> suffix rest s.
Proof.
  intros s gs rest H. unfold import_here, mark in H. invert_matcher H.
  injection H as _ <-. solve_suffix.
Qed.

End MatcherSuffixes.

Section Absent.
Import Patterns UiUpdate.
Local Open Scope string_scope.

Lemma prefix_app_self : forall p x : string, prefix p (p ++ x) = true.
Proof.
  induction p as [|c p IH]; intros x; [now destruct x|].
  cbn. destruct (ascii_dec c c); [apply IH | contradiction].
Qed.

Lemma includes_here : forall p x : string, includes (p ++ x) p = true.
Proof.
  intros p x. destruct (p ++ x) eqn:E; cbn [includes]; rewrite <- E, prefix_app_self;
    reflexivity.
Qed.

Lemma includes_app_r : forall a b p : string, includes b p = true -> includes (a ++ b) p = true.
Proof.
  induction a as [|c a IH]; intros b p H; [exact H|].
  cbn [append includes]. rewrite IH by exact H. apply orb_true_r.
Qed.

Lemma includes_cons_false : forall c s p,
  includes (String c s) p = false -> includes s p = false.
Proof. intros c s p H. cbn [includes] in H. now apply orb_false_iff in H as [_ H]. Qed.

Lemma exec_none : forall (here : string -> option (list string * string)) (p : string),
  (forall t r, here t = Some r -> includes t p = true) ->
  forall s done, includes s p = false -> exec here done s = None.
Proof.
  intros here p Hhere. induction s as [|c s IH]; intros done H; cbn [exec].
  - destruct (here "") as [[gs rest]|] eqn:E; [|reflexivity].
    apply Hhere in E. congruence.
  - destruct (here (String c s)) as [[gs rest]|] eqn:E.
    + apply Hhere in E. congruence.
    + apply IH. now apply includes_cons_false in H.
Qed.

Lemma button_here_needs : forall t r, button_here t = Some r -> includes t "<" = true.
Proof.
  intros t r H. unfold button_here in H. apply lit_inv in H as [rest [-> _]]. reflexivity.
Qed.

Lemma text_element_here_needs : forall t r,
  text_element_here t = Some r -> includes t "<" = true.
Proof.
  intros t r H. unfold text_element_here, mark in H.
  apply lit_inv in H as [rest [-> _]]. apply includes_here.
Qed.

Lemma import_here_needs : forall t r, import_here t = Some r -> includes t "import" = true.
Proof.
  intros t r H. unfold import_here, mark in H.
  apply lit_inv in H as [rest [-> _]]. apply includes_here.
Qed.

Lemma declaration_here_needs : forall t r,
  declaration_here t = Some r -> includes t "Translations" = true.
Proof.
  intros t [gs rest] H. apply declaration_here_spec in H as [w [body [g2 [-> _]]]].
  apply includes_app_r, includes_app_r.
  change "Translations = {" with ("Translations" ++ " = {"). rewrite append_assoc.
  apply includes_here.
Qed.

Lemma resources_here_needs : forall t r,
  resources_here t = Some r -> includes t "resources: {" = true.
Proof.
  intros t [gs rest] H. apply resources_here_spec in H as [lead [body [comma [blanks [-> _]]]]].
  apply includes_here.
Qed.

Lemma match_head_needs : forall language t rest,
  match_head language t = Some rest -> includes t "Translations" = true.
Proof.
  intros language t rest H. unfold match_head in H.
  destruct (strip_prefix "const" t) as [s1|] eqn:E1; [|discriminate].
  apply strip_prefix_split in E1. subst t.
  destruct (Nat.ltb (String.length (skip_spaces s1)) (String.length s1)); [|discriminate].
  destruct (strip_prefix (language ++ "Translations") (skip_spaces s1)) as [s3|] eqn:E3;
    [|discriminate].
  apply strip_prefix_split in E3.
  destruct (skip_spaces_suffix s1) as [l Hl]. rewrite Hl, E3.
  apply includes_app_r, includes_app_r. rewrite append_assoc.
  apply includes_app_r, includes_here.
Qed.

Lemma exec_from_none : forall language content done,
  includes content "Translations" = false -> exec_from language done content = None.
Proof.
  intros language. induction content as [|c s IH]; intros done H; cbn [exec_from].
  - unfold match_here. destruct (match_head language "") eqn:E; [|reflexivity].
    apply match_head_needs in E. congruence.
  - unfold match_here. destruct (match_head language (String c s)) eqn:E.
    + apply match_head_needs in E. congruence.
    + apply IH. now apply includes_cons_false in H.
Qed.

Lemma langRegex_exec_none : forall language content,
  includes content "Translations" = false -> langRegex_exec language content = None.
Proof. intros. now apply exec_from_none. Qed.

Lemma includes_shorter : forall s p q : string,
  includes s p = false -> includes s (p ++ q) = false.
Proof.
  induction s as [|c s IH]; intros p q H.
  - destruct p; [discriminate|]. reflexivity.
  - cbn [includes] in *. apply orb_false_iff in H as [H1 H2].
    rewrite (IH _ _ H2), orb_false_r.
    destruct (prefix (p ++ q) (String c s)) eqn:E; [|reflexivity].
    apply prefix_split in E. rewrite E, append_assoc, prefix_app_self in H1. discriminate.
Qed.

End Absent.

Section InsertNothing.
Import Patterns.
Local Open Scope string_scope.

(** X18. For a language code without characters that are syntax in a regular
    expression and a file that holds neither [Translations] nor the opening
    of a [resources] object, the text [updateTranslations] computes is the
    content itself: it makes the backup, writes the content back and returns
    true without adding the language. *)
Theorem updateTranslations_without_a_place_for_the_language :
  forall (js_eval : string -> option JsValue) (env : Env) (structure : Structure)
         (translations : Props) (language : string) (forceAll : bool) (d : Disk)
         (content : string),
    plain_code language = true ->
    files d (i18nFile structure) = Some content ->
    includes content "Translations" = false ->
    includes content "resources: {" = false ->
    updatedContent js_eval insert_language content language translations forceAll = content
    /\ (read_error env = None -> copy_error env = None -> write_error env = None ->
        exists d',
          updateTranslations js_eval insert_language env structure translations language
            forceAll d = (d', Ok true)
          /\ files d' (i18nFile structure) = Some content
          /\ files d' (backupPath_of (i18nFile structure) (now env)) = Some content).
Proof.
  intros js_eval env structure translations language forceAll d content
         Hcode Hfile Hdecl Hres.
  assert (Hupd : updatedContent js_eval insert_language content language translations
                   forceAll = content).
  { unfold updatedContent. rewrite langRegex_exec_none by exact Hdecl.
    unfold insert_language, with_declaration, replace_first.
    rewrite (exec_none declaration_here "Translations" declaration_here_needs)
      by exact Hdecl.
    rewrite (exec_none resources_here "resources: {" resources_here_needs) by exact Hres.
    reflexivity. }
  split; [exact Hupd|].
  intros Hread Hcopy Hwrite. unfold updateTranslations.
  rewrite Hfile, Hread, Hcopy, Hwrite, Hupd. eexists. split; [reflexivity|].
  cbn [files]. split; [apply store_same|].
  rewrite store_other by apply backupPath_differs. apply store_same.
Qed.

End InsertNothing.

Section RestyleFacts.
Import Patterns UiUpdate.
Local Open Scope string_scope.

Lemma replace_all_none : forall here callback rounds s,
  exec here "" s = None -> replace_all here callback rounds s = (s, false).
Proof. intros here callback [|rounds] s H; cbn; [reflexivity | now rewrite H]. Qed.

Lemma replace_all_unflagged : forall here callback,
  (forall s gs rest, here s = Some (gs, rest) -> suffix rest s) ->
  (forall matched groups r, callback matched groups = (r, false) -> r = matched) ->
  forall rounds s,
    snd (replace_all here callback rounds s) = false ->
    fst (replace_all here callback rounds s) = s.
Proof.
  intros here callback Hsuf Hcb. induction rounds as [|rounds IH]; intros s H; [reflexivity|].
  cbn [replace_all] in *.
  destruct (exec here "" s) as [m|] eqn:E; [|reflexivity].
  destruct (callback (f_matched m) (f_groups m)) as [r changed] eqn:Ec.
  destruct (replace_all here callback rounds (f_after m)) as [rest changed'] eqn:Er.
  cbn [fst snd] in *. apply orb_false_iff in H as [-> ->].
  apply Hcb in Ec. subst r.
  specialize (IH (f_after m)). rewrite Er in IH. cbn [fst snd] in IH.
  rewrite (IH eq_refl).
  destruct (exec_splits here Hsuf _ _ _ E) as [Hs _]. symmetry. exact Hs.
Qed.

Lemma button_callback_unflagged : forall matched attrs text r,
  button_callback matched attrs text = (r, false) -> r = matched.
Proof.
  intros matched attrs text r H. unfold button_callback in H.
  repeat match type of H with
         | (if ?b then _ else _) = _ => destruct b
         end; congruence.
Qed.

Lemma text_callback_unflagged : forall matched opening content closing r,
  text_callback matched opening content closing = (r, false) -> r = matched.
Proof.
  intros matched opening content closing r H. unfold text_callback in H.
  repeat match type of H with
         | (if ?b then _ else _) = _ => destruct b
         end; congruence.
Qed.

(** X25. For the three rewriting steps of a component, when [changesMade]
    stays false the rewritten text is the content itself: a text that
    differs from the content is always written. *)
Theorem restyle_flags_every_change :
  forall content : string,
    snd (restyle content) = false -> fst (restyle content) = content.
Proof.
  intros content H. unfold restyle in *.
  destruct (replace_all button_here _ (String.length content) content)
    as [buttons changed1] eqn:E1.
  destruct (replace_all text_element_here _ (String.length buttons) buttons)
    as [texts changed2] eqn:E2.
  assert (Hsw : forall (P : string * bool),
             P = (if includes content "changeLanguage"
                     && negb (includes content "document.documentElement.lang")
                  then match exec switcher_here "" texts with
                       | Some m =>
                           (f_before m ++ group_of (f_groups m) 0 ++ group_of (f_groups m) 1
                            ++ newline ++ "    document.documentElement.lang = langCode;"
                            ++ f_after m, true)
                       | None => (texts, false)
                       end
                  else (texts, false)) ->
             snd P = false -> fst P = texts).
  { intros P -> HP.
    destruct (includes content "changeLanguage"
              && negb (includes content "document.documentElement.lang")); [|reflexivity].
    destruct (exec switcher_here "" texts); [discriminate | reflexivity]. }
  destruct (if includes content "changeLanguage"
               && negb (includes content "document.documentElement.lang")
            then _ else _) as [switched changed3] eqn:E3.
  cbn [fst snd] in *.
  apply orb_false_iff in H as [H H3]. apply orb_false_iff in H as [H1' H2'].
  subst changed1 changed2 changed3.
  specialize (Hsw (switched, false) eq_refl eq_refl). cbn [fst] in Hsw. subst switched.
  pose proof (replace_all_unflagged text_element_here _ text_element_here_suffix
                (fun matched groups r =>
                   text_callback_unflagged matched (group_of groups 0) (group_of groups 1)
                     (group_of groups 2) r)
                (String.length buttons) buttons) as Ht.
  rewrite E2 in Ht. cbn [fst snd] in Ht. rewrite (Ht eq_refl).
  pose proof (replace_all_unflagged button_here _ button_here_suffix
                (fun matched groups r =>
                   button_callback_unflagged matched (group_of groups 0) (group_of groups 1) r)
                (String.length content) content) as Hb.
  rewrite E1 in Hb. cbn [fst snd] in Hb. now apply Hb.
Qed.

Lemma restyle_plain : forall content,
  includes content "<" = false -> includes content "changeLanguage" = false ->
  restyle content = (content, false).
Proof.
  intros content Hlt Hcl. unfold restyle.
  rewrite replace_all_none
    by (apply (exec_none button_here "<" button_here_needs); exact Hlt).
  rewrite replace_all_none
    by (apply (exec_none text_element_here "<" text_element_here_needs); exact Hlt).
  rewrite Hcl. reflexivity.
Qed.

Lemma add_import_plain : forall content,
  includes content "import" = false -> add_import content = content.
Proof.
  intros content H. unfold add_import, replace_first.
  now rewrite (exec_none import_here "import" import_here_needs) by exact H.
Qed.

End RestyleFacts.

Section UpdateUIFacts.
Import Patterns UiUpdate.
Local Open Scope list_scope.

Variable join : string -> string -> string.
Variable basename : string -> string.
Variable dirname : string.
Variable ienv : InitEnv.
Variable unreadable : string -> JsError.

Lemma outputFile_other : forall path content d p,
  p <> path -> files (fst (outputFile ienv path content d)) p = files d p.
Proof.
  intros path content d p H. unfold outputFile.
  destruct (output_error ienv path) as [[err residue]|]; cbn [fst files].
  - now apply leave_other.
  - now apply store_other.
Qed.

Lemma outputFile_same : forall path content d,
  output_error ienv path = None ->
  files (fst (outputFile ienv path content d)) path = Some content.
Proof.
  intros path content d H. unfold outputFile. rewrite H. cbn [fst files]. apply store_same.
Qed.

Lemma ensure_css_other : forall structure d p,
  p <> responsiveCssFile structure ->
  files (fst (ensure_css join dirname ienv unreadable structure d)) p = files d p.
Proof.
  intros structure d p H. unfold ensure_css.
  destruct (files d (responsiveCssFile structure)); [reflexivity|].
  destruct (readFile ienv unreadable d _); [reflexivity|]. now apply outputFile_other.
Qed.

Lemma ensure_css_present : forall structure d c,
  files d (responsiveCssFile structure) = Some c ->
  ensure_css join dirname ienv unreadable structure d = (d, Ok tt).
Proof. intros structure d c H. unfold ensure_css. now rewrite H. Qed.

Lemma ensure_css_keeps : forall structure d p c,
  files d p = Some c ->
  files (fst (ensure_css join dirname ienv unreadable structure d)) p = Some c.
Proof.
  intros structure d p c H.
  destruct (string_dec p (responsiveCssFile structure)) as [-> | Hne].
  - now rewrite (ensure_css_present _ _ _ H).
  - now rewrite ensure_css_other.
Qed.

Lemma import_css_other : forall uiFiles d p,
  ~ In p uiFiles ->
  files (fst (import_css basename ienv unreadable uiFiles d)) p = files d p.
Proof.
  intros uiFiles d p H. unfold import_css.
  destruct (find (is_app basename) uiFiles) as [appFile|] eqn:E; [|reflexivity].
  apply find_some in E as [Hin _].
  destruct (readFile ienv unreadable d appFile); [reflexivity|].
  destruct (includes _ _); [reflexivity|].
  apply outputFile_other. intros ->. contradiction.
Qed.

Lemma import_css_keeps : forall uiFiles d p c,
  files d p = Some c ->
  is_app basename p = false
  \/ includes c "ResponsiveLanguage.css" = true
  \/ (includes c "import" = false /\ output_error ienv p = None) ->
  files (fst (import_css basename ienv unreadable uiFiles d)) p = Some c.
Proof.
  intros uiFiles d p c H Hcase. unfold import_css.
  destruct (find (is_app basename) uiFiles) as [appFile|] eqn:Efind; [|exact H].
  apply find_some in Efind as [_ Happ].
  destruct (readFile ienv unreadable d appFile) as [err|content] eqn:Er; [exact H|].
  destruct (includes content "ResponsiveLanguage.css") eqn:Ecss; [exact H|].
  destruct (string_dec p appFile) as [-> | Hne].
  - unfold readFile in Er. rewrite H in Er.
    destruct (input_error ienv appFile); [discriminate|]. injection Er as <-.
    destruct Hcase as [Hno | [Hhas | [Hplain Hwrite]]]; [congruence | congruence |].
    rewrite add_import_plain by exact Hplain. now apply outputFile_same.
  - rewrite outputFile_other by exact Hne. exact H.
Qed.

Lemma restyle_file_other : forall d file p,
  p <> file -> files (restyle_file ienv unreadable d file) p = files d p.
Proof.
  intros d file p H. unfold restyle_file.
  destruct (readFile ienv unreadable d file); [reflexivity|].
  destruct (restyle s) as [updated [|]]; [|reflexivity]. now apply outputFile_other.
Qed.

Lemma restyle_file_keeps : forall d file p c,
  files d p = Some c -> restyle c = (c, false) ->
  files (restyle_file ienv unreadable d file) p = Some c.
Proof.
  intros d file p c H Hplain.
  destruct (string_dec p file) as [-> | Hne].
  - unfold restyle_file, readFile. rewrite H.
    destruct (input_error ienv file); [exact H|]. rewrite Hplain. exact H.
  - now rewrite restyle_file_other.
Qed.

Lemma restyle_files_other : forall paths d p,
  ~ In p paths ->
  files (fold_left (restyle_file ienv unreadable) paths d) p = files d p.
Proof.
  induction paths as [|f paths IH]; intros d p H; [reflexivity|].
  cbn [fold_left]. rewrite IH by (intros Hin; apply H; now right).
  apply restyle_file_other. intros ->. apply H. now left.
Qed.

Lemma restyle_files_keeps : forall paths d p c,
  files d p = Some c -> restyle c = (c, false) ->
  files (fold_left (restyle_file ienv unreadable) paths d) p = Some c.
Proof.
  induction paths as [|f paths IH]; intros d p c H Hplain; [exact H|].
  cbn [fold_left]. apply IH; [|exact Hplain]. now apply restyle_file_keeps.
Qed.

End UpdateUIFacts.

Section UpdateUITheorems.
Import Patterns UiUpdate.
Local Open Scope list_scope.

(** X23. Whatever happens, [updateUI] changes no path but the style sheet
    and the UI files; an existing style sheet that is no UI file keeps its
    content; once the style sheet exists and there is no App file, nothing
    that goes wrong with a component makes it fail; and for vue and angular
    it does nothing. *)
Theorem updateUI_touches_only_the_components_and_the_style_sheet :
  forall (join : string -> string -> string) (basename : string -> string)
         (dirname : string) (ienv : InitEnv) (unreadable : string -> JsError)
         (analysis : ProjectAnalysis) (d : Disk),
    (forall p,
       p <> responsiveCssFile (pa_structure analysis) ->
       ~ In p (pa_uiFiles analysis) ->
       files (fst (updateUI join basename dirname ienv unreadable analysis d)) p = files d p)
    /\ (forall c,
          files d (responsiveCssFile (pa_structure analysis)) = Some c ->
          ~ In (responsiveCssFile (pa_structure analysis)) (pa_uiFiles analysis) ->
          files (fst (updateUI join basename dirname ienv unreadable analysis d))
            (responsiveCssFile (pa_structure analysis)) = Some c)
    /\ (forall c,
          files d (responsiveCssFile (pa_structure analysis)) = Some c ->
          find (is_app basename) (pa_uiFiles analysis) = None ->
          pa_framework analysis = "react"%string ->
          snd (updateUI join basename dirname ienv unreadable analysis d) = Ok true)
    /\ (pa_framework analysis = "vue"%string \/ pa_framework analysis = "angular"%string ->
        updateUI join basename dirname ienv unreadable analysis d = (d, Ok true)).
Proof.
  intros join basename dirname ienv unreadable analysis d.
  set (css := responsiveCssFile (pa_structure analysis)).
  set (uiFiles := pa_uiFiles analysis).
  assert (Hreact : forall p,
             (p <> css \/ exists c, files d css = Some c) -> ~ In p uiFiles ->
             files (fst (reactUpdateUI join basename dirname ienv unreadable
                           (pa_structure analysis) uiFiles d)) p = files d p).
  { intros p Hp Hout. unfold reactUpdateUI.
    assert (H1 : files (fst (ensure_css join dirname ienv unreadable
                               (pa_structure analysis) d)) p = files d p).
    { destruct Hp as [Hp | [c Hc]]; [now apply ensure_css_other|].
      fold css. now rewrite (ensure_css_present _ _ _ _ _ _ _ Hc). }
    destruct (ensure_css join dirname ienv unreadable (pa_structure analysis) d)
      as [d1 [[]| |]]; cbn [fst] in *; try exact H1.
    pose proof (import_css_other basename ienv unreadable uiFiles d1 p Hout) as H2.
    destruct (import_css basename ienv unreadable uiFiles d1) as [d2 [[]| |]];
      cbn [fst] in *; try congruence.
    rewrite restyle_files_other by exact Hout. congruence. }
  assert (Hshape : forall r : Disk * Outcome bool,
             fst (match r with
                  | (d1, Ok _) => (d1, Ok true)
                  | (d1, Throw err) => (d1, Throw err)
                  | (d1, Hang) => (d1, Hang)
                  end) = fst r) by (intros [d1 [?| |]]; reflexivity).
  split; [|split; [|split]].
  - intros p Hp Hout. unfold updateUI. rewrite Hshape.
    repeat match goal with |- context [if ?b then _ else _] => destruct b end;
      try reflexivity. apply Hreact; [now left | exact Hout].
  - intros c Hc Hout. unfold updateUI. rewrite Hshape.
    repeat match goal with |- context [if ?b then _ else _] => destruct b end;
      try exact Hc. rewrite Hreact; [exact Hc | right; now exists c | exact Hout].
  - intros c Hc Hfind Hfw. unfold updateUI. rewrite Hfw. cbn [String.eqb Ascii.eqb Bool.eqb].
    unfold reactUpdateUI. fold css. rewrite (ensure_css_present _ _ _ _ _ _ _ Hc).
    unfold import_css. fold uiFiles. rewrite Hfind. reflexivity.
  - intros [Hfw | Hfw]; unfold updateUI; rewrite Hfw; reflexivity.
Qed.

(** X24. A file whose content holds no opening angle bracket and no
    [changeLanguage] has the same content after [updateUI] when it is no App
    file, or mentions the style sheet already, or holds no [import] and
    writing it does not fail; for every framework and however the other file
    operations end. *)
Theorem updateUI_leaves_plain_files_alone :
  forall (join : string -> string -> string) (basename : string -> string)
         (dirname : string) (ienv : InitEnv) (unreadable : string -> JsError)
         (analysis : ProjectAnalysis) (d : Disk) (file content : string),
    files d file = Some content ->
    includes content "<" = false ->
    includes content "changeLanguage" = false ->
    is_app basename file = false
    \/ includes content "ResponsiveLanguage.css" = true
    \/ (includes content "import" = false /\ output_error ienv file = None) ->
    files (fst (updateUI join basename dirname ienv unreadable analysis d)) file
    = Some content.
Proof.
  intros join basename dirname ienv unreadable analysis d file content
         Hfile Hlt Hcl Himp.
  assert (Hshape : forall r : Disk * Outcome bool,
             fst (match r with
                  | (d1, Ok _) => (d1, Ok true)
                  | (d1, Throw err) => (d1, Throw err)
                  | (d1, Hang) => (d1, Hang)
                  end) = fst r) by (intros [d1 [?| |]]; reflexivity).
  unfold updateUI. rewrite Hshape.
  repeat match goal with |- context [if ?b then _ else _] => destruct b end;
    try exact Hfile.
  unfold reactUpdateUI.
  pose proof (ensure_css_keeps join dirname ienv unreadable (pa_structure analysis)
                d file content Hfile) as H1.
  destruct (ensure_css join dirname ienv unreadable (pa_structure analysis) d)
    as [d1 [[]| |]]; cbn [fst] in *; try exact H1.
  pose proof (import_css_keeps basename ienv unreadable (pa_uiFiles analysis) d1
                file content H1 Himp) as H2.
  destruct (import_css basename ienv unreadable (pa_uiFiles analysis) d1)
    as [d2 [[]| |]]; cbn [fst] in *; try exact H2.
  apply restyle_files_keeps; [exact H2|]. now apply restyle_plain.
Qed.

End UpdateUITheorems.

Section ImportTheorem.
Import Patterns UiUpdate.
Local Open Scope string_scope.

Lemma between_split : forall s0 s1 s2 : string,
  suffix s1 s0 -> suffix s2 s1 -> between s0 s2 = between s0 s1 ++ between s1 s2.
Proof.
  intros s0 s1 s2 [a ->] [b ->].
  rewrite !between_append.
  replace (a ++ b ++ s2) with ((a ++ b) ++ s2) by now rewrite append_assoc.
  now rewrite between_append.
Qed.

Lemma expand_two : forall (m : Found) (g1 g2 block : string) (c : ascii) (b : string),
  f_groups m = [g1; g2] ->
  block = String c b -> is_digit c = false ->
  includes block "$" = false ->
  expand_groups m ("$1" ++ block ++ "$2") = g1 ++ block ++ g2.
Proof.
  intros [bf mt gs af] g1 g2 block c b Hg -> Hc Hplain.
  cbn [f_groups] in Hg. subst gs.
  set (m := mkFound bf mt [g1; g2] af).
  assert (H1 : forall tail,
             expand_groups m ("$1" ++ String c b ++ tail)
             = g1 ++ expand_groups m (String c b ++ tail)).
  { intros tail. cbn [append]. cbn [expand_groups].
    change (Nat.eqb (code "$") 36) with true. cbn match.
    change (Nat.eqb (code "1") 36) with false.
    change (Nat.eqb (code "1") 38) with false.
    change (Nat.eqb (code "1") 96) with false.
    change (Nat.eqb (code "1") 39) with false.
    change (is_digit "1") with true. cbn match.
    rewrite Hc. reflexivity. }
  assert (H2 : expand_groups m "$2" = g2 ++ "") by reflexivity.
  rewrite H1, expand_groups_plain by exact Hplain.
  now rewrite H2, append_nil_r.
Qed.

Lemma import_here_spec : forall s gs rest,
  import_here s = Some (gs, rest) ->
  exists b1 what b2 b3 q1 source q2 blanks,
    s = "import" ++ b1 ++ what ++ b2 ++ "from" ++ b3 ++ String q1 source ++ String q2 ";"
        ++ blanks ++ rest
    /\ gs = ["import" ++ b1 ++ what ++ b2 ++ "from" ++ b3 ++ String q1 source ++ String q2 ";";
             blanks]
    /\ (b1 <> "" /\ forall_chars is_space b1 = true)
    /\ forall_chars dot what = true
    /\ (b2 <> "" /\ forall_chars is_space b2 = true)
    /\ (b3 <> "" /\ forall_chars is_space b3 = true)
    /\ is_quote q1 = true
    /\ (source <> "" /\ forall_chars not_quote source = true)
    /\ is_quote q2 = true
    /\ forall_chars is_space blanks = true
    /\ (forall a t, rest = String a t -> is_space a = false).
Proof.
  intros s gs rest H. unfold import_here, mark in H.
  apply lit_inv in H as [r1 [-> H]].
  apply one_inv in H as [a1 [t1 [-> [Ha1 H]]]].
  apply greedy_inv in H as [w1 [r2 [-> [Hw1 H]]]].
  apply greedy_inv in H as [what [r3 [-> [Hwhat H]]]].
  apply one_inv in H as [a2 [t2 [-> [Ha2 H]]]].
  apply greedy_inv in H as [w2 [r4 [-> [Hw2 H]]]].
  apply lit_inv in H as [r5 [-> H]].
  apply one_inv in H as [a3 [t3 [-> [Ha3 H]]]].
  apply greedy_inv in H as [w3 [r6 [-> [Hw3 H]]]].
  apply one_inv in H as [q1 [t4 [-> [Hq1 H]]]].
  apply one_inv in H as [c1 [t5 [-> [Hc1 H]]]].
  apply greedy_inv in H as [src [r7 [-> [Hsrc H]]]].
  apply one_inv in H as [q2 [t6 [-> [Hq2 H]]]].
  apply lit_inv in H as [r8 [-> H]].
  apply greedy_all in H as [blanks [r9 [-> [Hblanks [H Hend]]]]]; [|discriminate].
  injection H as <- <-.
  exists (String a1 w1), what, (String a2 w2), (String a3 w3), q1, (String c1 src), q2, blanks.
  split; [repeat (progress (cbn [append]; rewrite ?append_assoc)); reflexivity|].
  split.
  { f_equal; [|f_equal]; apply between_eq;
      repeat (progress (cbn [append]; rewrite ?append_assoc)); reflexivity. }
  split; [now apply one_more|]. split; [exact Hwhat|].
  split; [now apply one_more|]. split; [now apply one_more|].
  split; [exact Hq1|]. split; [now apply one_more|].
  split; [exact Hq2|]. split; [exact Hblanks | exact Hend].
Qed.

(** X26. When the expression of line 296 matches the content of the App
    file, the match is the leftmost one, its first group is an import
    statement that ends in a quoted source and a semicolon, its second group
    is the whole run of blanks after it, and the text written is the content
    with the import of the style sheet inserted between the two groups; it
    mentions the style sheet, so a later run adds nothing. *)
Theorem add_import_puts_the_style_sheet_after_the_first_import :
  forall (content : string) (m : Found),
    exec import_here "" content = Some m ->
    exists statement blanks b1 what b2 b3 q1 source q2,
      statement = "import" ++ b1 ++ what ++ b2 ++ "from" ++ b3 ++ String q1 source
                  ++ String q2 ";"
      /\ (b1 <> "" /\ forall_chars is_space b1 = true)
      /\ forall_chars dot what = true
      /\ (b2 <> "" /\ forall_chars is_space b2 = true)
      /\ (b3 <> "" /\ forall_chars is_space b3 = true)
      /\ is_quote q1 = true
      /\ (source <> "" /\ forall_chars not_quote source = true)
      /\ is_quote q2 = true
      /\ forall_chars is_space blanks = true
      /\ (forall a t, f_after m = String a t -> is_space a = false)
      /\ f_groups m = [statement; blanks]
      /\ content = f_before m ++ statement ++ blanks ++ f_after m
      /\ (forall x y, f_before m = x ++ y -> y <> "" ->
            import_here (y ++ statement ++ blanks ++ f_after m) = None)
      /\ add_import content = f_before m ++ statement ++ css_import ++ blanks ++ f_after m
      /\ includes (add_import content) "ResponsiveLanguage.css" = true.
Proof.
  intros content m H.
  destruct (exec_splits _ import_here_suffix _ _ _ H) as [Hc Hh].
  pose proof (exec_is_leftmost _ import_here_suffix _ _ H) as Hleft.
  cbn [append] in Hc.
  apply import_here_spec in Hh
    as [b1 [what [b2 [b3 [q1 [source [q2 [blanks
         [Em [Hg [Hb1 [Hwhat [Hb2 [Hb3 [Hq1 [Hsource [Hq2 [Hblanks Hend]]]]]]]]]]]]]]]]]].
  set (statement := "import" ++ b1 ++ what ++ b2 ++ "from" ++ b3 ++ String q1 source
                    ++ String q2 ";") in *.
  assert (Ematched : f_matched m = statement ++ blanks).
  { apply matched_of_split. rewrite Em. unfold statement.
    repeat (progress (cbn [append]; rewrite ?append_assoc)). reflexivity. }
  assert (Hadd : add_import content
                 = f_before m ++ statement ++ css_import ++ blanks ++ f_after m).
  { unfold add_import, replace_first. rewrite H.
    rewrite (expand_two m statement blanks css_import (ascii_of_nat 10)
               "import './ResponsiveLanguage.css'; // Added for language-responsive UI"
               Hg eq_refl eq_refl eq_refl).
    now rewrite !append_assoc. }
  exists statement, blanks, b1, what, b2, b3, q1, source, q2.
  split; [reflexivity|]. split; [exact Hb1|]. split; [exact Hwhat|].
  split; [exact Hb2|]. split; [exact Hb3|]. split; [exact Hq1|].
  split; [exact Hsource|]. split; [exact Hq2|]. split; [exact Hblanks|].
  split; [exact Hend|]. split; [exact Hg|].
  split; [rewrite Hc, Ematched; now rewrite !append_assoc|].
  split.
  { intros x y Hxy Hy. specialize (Hleft x y Hxy Hy).
    rewrite Ematched in Hleft. now rewrite !append_assoc in Hleft. }
  split; [exact Hadd|].
  rewrite Hadd. apply includes_app_r, includes_app_r.
  change css_import
    with ((newline ++ "import './") ++ "ResponsiveLanguage.css"
          ++ "'; // Added for language-responsive UI").
  rewrite !append_assoc. do 2 apply includes_app_r. apply includes_here.
Qed.

End ImportTheorem.

(** ** The rounds of the loops are enough *)

Section Rounds.
Import Patterns UiUpdate.
Local Open Scope string_scope.

Lemma suffix_length : forall rest s : string, suffix rest s -> String.length rest <= String.length s.
Proof. intros rest s [a ->]. rewrite length_append. lia. Qed.

Lemma exec_leftmost_shrinks : forall here,
  (forall s g rest, here s = Some (g, rest) -> String.length rest < String.length s) ->
  forall s g rest,
    exec_leftmost here s = Some (g, rest) -> String.length rest < String.length s.
Proof.
  intros here Hhere s g rest H.
  apply exec_leftmost_spec in H as [a [s' [-> H]]].
  apply Hhere in H. rewrite length_append. lia.
Qed.

Lemma scan_rounds : forall here,
  (forall s g rest, here s = Some (g, rest) -> String.length rest < String.length s) ->
  forall n m s acc,
    String.length s <= n -> String.length s <= m ->
    scan here n s acc = scan here m s acc.
Proof.
  intros here Hhere.
  assert (Hend : forall s, String.length s = 0 -> exec_leftmost here s = None).
  { intros s Hs. destruct (exec_leftmost here s) as [[g rest]|] eqn:E; [|reflexivity].
    apply (exec_leftmost_shrinks here Hhere) in E. lia. }
  induction n as [|n IH]; intros m s acc Hn Hm.
  - destruct m as [|m]; [reflexivity|]. cbn [scan]. now rewrite Hend by lia.
  - destruct m as [|m]; [cbn [scan]; now rewrite Hend by lia|].
    cbn [scan]. destruct (exec_leftmost here s) as [[g rest]|] eqn:E; [|reflexivity].
    apply (exec_leftmost_shrinks here Hhere) in E. apply IH; lia.
Qed.

Lemma jsxText_here_shrinks : forall s g rest,
  jsxText_here s = Some (g, rest) -> String.length rest < String.length s.
Proof.
  intros s g rest H. apply jsxText_here_spec in H as [-> _].
  rewrite !length_append. cbn. lia.
Qed.

Lemma jsxAttribute_here_shrinks : forall s g rest,
  jsxAttribute_here s = Some (g, rest) -> String.length rest < String.length s.
Proof.
  intros s g rest H. unfold jsxAttribute_here in H.
  destruct (strip_any attribute_names s) as [r|] eqn:E; [|discriminate].
  apply strip_any_split in E as [name ->].
  destruct r as [|e [|q t]]; try discriminate.
  destruct (Nat.eqb (code e) 61); [|discriminate].
  rewrite length_append. cbn [String.length].
  destruct (is_quote q).
  - apply lazy_to_quote_split in H as [q' ->]. rewrite length_append. cbn. lia.
  - destruct (Nat.eqb (code q) 123); [|discriminate].
    destruct t as [|q' t']; [discriminate|].
    destruct (is_quote q'); [|discriminate].
    apply lazy_to_quote_brace_split in H as [tail ->].
    cbn [String.length]. rewrite !length_append. lia.
Qed.

(** More rounds than the length of the content change nothing. *)
Lemma scan_content_rounds : forall content acc n m,
  String.length content <= n -> String.length content <= m ->
  scan jsxAttribute_here m content (scan jsxText_here n content acc)
  = scan_content content acc.
Proof.
  intros content acc n m Hn Hm. unfold scan_content.
  rewrite (scan_rounds jsxText_here jsxText_here_shrinks n (String.length content))
    by lia.
  apply (scan_rounds jsxAttribute_here jsxAttribute_here_shrinks); lia.
Qed.

Lemma exec_after_shrinks : forall here,
  (forall s gs rest, here s = Some (gs, rest) -> String.length rest < String.length s) ->
  forall s done m,
    exec here done s = Some m -> String.length (f_after m) < String.length s.
Proof.
  intros here Hhere. induction s as [|c s IH]; intros done m H; cbn [exec] in H.
  - destruct (here "") as [[gs rest]|] eqn:E; [|discriminate].
    apply Hhere in E. cbn in E. lia.
  - destruct (here (String c s)) as [[gs rest]|] eqn:E.
    + injection H as <-. cbn [f_after]. now apply Hhere in E.
    + apply IH in H. cbn [String.length]. lia.
Qed.

Lemma replace_all_rounds : forall here callback,
  (forall s gs rest, here s = Some (gs, rest) -> String.length rest < String.length s) ->
  forall n m s,
    String.length s <= n -> String.length s <= m ->
    replace_all here callback n s = replace_all here callback m s.
Proof.
  intros here callback Hhere.
  assert (Hend : forall s, String.length s = 0 -> exec here "" s = None).
  { intros s Hs. destruct (exec here "" s) as [f|] eqn:E; [|reflexivity].
    apply (exec_after_shrinks here Hhere) in E. lia. }
  induction n as [|n IH]; intros m s Hn Hm.
  - destruct m as [|m]; [reflexivity|]. cbn [replace_all]. now rewrite Hend by lia.
  - destruct m as [|m]; [cbn [replace_all]; now rewrite Hend by lia|].
    cbn [replace_all]. destruct (exec here "" s) as [f|] eqn:E; [|reflexivity].
    apply (exec_after_shrinks here Hhere) in E.
    rewrite (IH m (f_after f)) by lia. reflexivity.
Qed.

Lemma button_here_shrinks : forall s gs rest,
  button_here s = Some (gs, rest) -> String.length rest < String.length s.
Proof.
  intros s gs rest H. unfold button_here, mark in H.
  apply lit_inv in H as [r1 [-> H]]. rewrite length_append. cbn [String.length].
  enough (String.length rest <= String.length r1) by lia.
  apply suffix_length. invert_matcher H. injection H as _ <-. solve_suffix.
Qed.

Lemma text_element_here_shrinks : forall s gs rest,
  text_element_here s = Some (gs, rest) -> String.length rest < String.length s.
Proof.
  intros s gs rest H. unfold text_element_here, mark in H.
  apply lit_inv in H as [r1 [-> H]]. rewrite length_append. cbn [String.length].
  enough (String.length rest <= String.length r1) by lia.
  apply suffix_length. invert_matcher H. injection H as _ <-. solve_suffix.
Qed.

End Rounds.

(** ** Instances *)

Section Instances.
Local Open Scope list_scope.

Lemma processBatches_runs_the_chunks_witness :
  processBatches pause ["a"; "b"; "c"] echo (Some 2) (Some 5) []
  = run_chunks pause echo 5 [["a"; "b"]; ["c"]] [] [].
Proof.
  exact (processBatches_runs_the_chunks string (list (BatchEvent string)) pause echo
           ["a"; "b"; "c"] (Some 2) (Some 5) [] (le_S 1 1 (le_n 1))).
Defined.

Lemma processBatches_stops_at_the_first_failure_witness :
  processBatches pause ["a"; "b"; "c"] (reporting failing_on_one) (Some 2) None []
  = ([Invoked ["a"; "b"]; Paused 2000; Invoked ["c"]], Throw (Error "rate limit")).
Proof.
  refine (processBatches_stops_at_the_first_failure string failing_on_one ["a"; "b"; "c"]
            (Some 2) None [["a"; "b"]] ["c"] [] (Error "rate limit") [] _ _ _ _).
  - cbn. lia.
  - reflexivity.
  - constructor; [|constructor]. exists [JStr "a"; JStr "b"]. reflexivity.
  - reflexivity.
Defined.

Lemma processBatches_with_batch_size_zero_never_returns_witness :
  snd (processBatches_loop pause ["a"] echo 0 2000 1000 0 [] []) = Hang.
Proof.
  refine (processBatches_with_batch_size_zero_never_returns string
            (list (BatchEvent string)) pause echo ["a"] 2000 1000 0 [] [] _ _).
  - intros w0. exists (w0 ++ [Invoked []]), (JArr []), []. split; reflexivity.
  - cbn. lia.
Defined.


Lemma translateStrings_other_services_make_no_request_witness :
  translateStrings (answering (one_string "Hola")) parse_json (Some ["Hello"]) "es" "KEY"
    (Some "azure") []
  = ([], Throw (Error "Unsupported translation service: azure")).
Proof.
  refine (translateStrings_other_services_make_no_request
            (answering (one_string "Hola")) parse_json ["Hello"] "es" "KEY" "azure" [] _ _);
    discriminate.
Defined.

Lemma generateTranslations_writes_nothing_when_a_batch_fails_witness :
  generateTranslations (picky "es" (firstn 15 sixteen) (map tagged (firstn 15 sixteen)))
    parse_json eval_json_body keep_content calm sixteen_phrases "es" "KEY" None false []
    (disk_with (file_with (declaration "es" es_a_x)))
  = ([Post (endpoint "KEY") (prompt_for (firstn 15 sixteen) "es"); Sleep 2000;
      Post (endpoint "KEY") (prompt_for ["p16"] "es")],
     disk_with (file_with (declaration "es" es_a_x)),
     Throw (Error "Gemini API error: 429 - quota")).
Proof.
  refine (generateTranslations_writes_nothing_when_a_batch_fails
            (picky "es" (firstn 15 sixteen) (map tagged (firstn 15 sixteen)))
            parse_json eval_json_body keep_content calm
            (fun s => JStr (tagged s)) sixteen_phrases "es" "KEY" None false
            [firstn 15 sixteen] ["p16"] [] 429 "quota" []
            (disk_with (file_with (declaration "es" es_a_x))) _ _ _ _).
  - left. reflexivity.
  - vm_compute. reflexivity.
  - intros b [<- | []] history.
    exists (stringify_texts (map tagged (firstn 15 sixteen))), [].
    split; vm_compute; reflexivity.
  - intros history. vm_compute. reflexivity.
Defined.

Lemma analyzeTextExpansion_counts_the_translated_pairs_witness :
  exists analysis,
    analyzeTextExpansion (Some four_sources) (Some four_translations) "es" = Some analysis
    /\ totalOriginalLength analysis = 26
    /\ totalTranslatedLength analysis = 45
    /\ map (fun e => (exp_source e, exp_translated e)) (criticalExpansions analysis)
       = [("Save changes", "Guardar todos los cambios ahora")]
    /\ map exp_factor (criticalExpansions analysis) = ["2.58"]
    /\ expansionFactor analysis = Some "1.73".
Proof.
  destruct (analyzeTextExpansion_counts_the_translated_pairs four_sources four_translations
              "es" eq_refl eq_refl)
    as [analysis [Hrun [_ [Horiginal [Htranslated [Hcritical _]]]]]].
  exists analysis. split; [exact Hrun|]. split; [exact Horiginal|].
  split; [exact Htranslated|]. split; [exact Hcritical|].
  assert (Hvalue : option_map (fun a => (map exp_factor (criticalExpansions a),
                                         expansionFactor a))
                     (analyzeTextExpansion (Some four_sources) (Some four_translations) "es")
                   = Some (["2.58"], Some "1.73")) by (vm_compute; reflexivity).
  rewrite Hrun in Hvalue. cbn [option_map] in Hvalue. injection Hvalue as H1 H2.
  split; [exact H1 | exact H2].
Defined.


Lemma init_installs_the_style_sheet_witness :
  exists d',
    init path_join "component" willing as_given "pkg" no_files "proj" empty_disk
    = (d', Ok true)
    /\ files d' "proj/src/ResponsiveLanguage.css" = Some ".lang-btn {}"
    /\ files d' "proj/src/i18n.js" = Some i18nContent.
Proof.
  destruct (init_installs_the_style_sheet path_join "component" willing as_given "pkg"
              no_files "proj" empty_disk ".lang-btn {}")
    as [d' [Hrun [Hcss _]]]; try reflexivity.
  exists d'. split; [exact Hrun|]. split; [exact Hcss|].
  vm_compute in Hrun. injection Hrun as <-. reflexivity.
Defined.

Lemma detectStructure_takes_the_first_path_that_exists_witness :
  exists s,
    detectStructure path_join (only "proj/src/locales/index.js") "proj" "react" = Ok s
    /\ ps_i18nFile s = "proj/src/locales/index.js"%string.
Proof.
  destruct (detectStructure_takes_the_first_path_that_exists path_join
              (only "proj/src/locales/index.js") "proj" "react"
              ["src/i18n.js"; "src/i18n/index.js"; "src/translations/index.js";
               "src/locales/index.js"])
    as [s [Hrun [_ [Hfirst _]]]].
  - reflexivity.
  - intros p. discriminate.
  - exists s. split; [exact Hrun|].
    apply (Hfirst ["src/i18n.js"; "src/i18n/index.js"; "src/translations/index.js"]
             "src/locales/index.js" []).
    + reflexivity.
    + reflexivity.
    + intros q [<- | [<- | [<- | []]]]; reflexivity.
Defined.

Lemma reactAnalyze_reports_pieces_of_the_files_witness :
  exists a,
    reactAnalyze (reading "proj/src/App.js" heading) eval_json_body no_fallback no_files
      "proj" one_component = Ok a
    /\ NoDup (ra_strings a)
    /\ forall s, In s (ra_strings a) -> translatable s = true /\ piece s heading.
Proof.
  destruct (reactAnalyze_reports_pieces_of_the_files
              (reading "proj/src/App.js" heading) eval_json_body no_fallback no_files
              "proj" one_component (JObj []) [] eq_refl)
    as [a [Hrun [_ [_ [Hnd [_ Hsound]]]]]].
  exists a. split; [exact Hrun|]. split; [exact Hnd|].
  intros s Hs. destruct (Hsound s Hs) as [[] | [Ht [_ [file [content [Hin [Hread Hp]]]]]]].
  split; [exact Ht|].
  destruct Hin as [<- | []]. vm_compute in Hread. injection Hread as <-. exact Hp.
Defined.

Lemma reactAnalyze_finds_the_text_between_tags_witness :
  In "Welcome back"%string
     (ra_strings (mkReactAnalysis ["Welcome back"%string] ["proj/src/App.js"%string]
                    (JObj []))).
Proof.
  exact (reactAnalyze_finds_the_text_between_tags
           (reading "proj/src/App.js" heading) eval_json_body no_fallback no_files
           "proj" one_component
           (mkReactAnalysis ["Welcome back"%string] ["proj/src/App.js"%string] (JObj []))
           "proj/src/App.js" "<h1" " Welcome back " "/h1>"
           eq_refl (or_introl eq_refl) eq_refl
           (fun H : " Welcome back "%string = ""%string =>
              match H in _ = y return match y with
                                      | EmptyString => False
                                      | String _ _ => True
                                      end with eq_refl => I end)
           eq_refl eq_refl).
Defined.

Lemma vue_and_angular_projects_get_no_translations_witness :
  exists a,
    analyze (reading "proj/src/App.vue" heading) eval_json_body no_fallback path_join
      as_given (only "proj/vue.config.js") "proj" = Ok a
    /\ pa_framework a = "vue"%string
    /\ generateTranslations (answering (one_string "Hola")) parse_json eval_json_body
         keep_content calm (generation_input a) "es" "KEY" None false [] empty_disk
       = ([], empty_disk, Ok (JObj [])).
Proof.
  destruct (vue_and_angular_projects_get_no_translations
              (reading "proj/src/App.vue" heading) eval_json_body no_fallback path_join
              as_given (only "proj/vue.config.js") "proj")
    as [a [Hrun [_ Hgen]]].
  - vm_compute. discriminate.
  - exists a. split; [exact Hrun|]. split.
    + vm_compute in Hrun. injection Hrun as <-. reflexivity.
    + apply Hgen.
Defined.

Lemma insert_language_adds_a_declaration_and_an_entry_witness :
  exists before after,
    Patterns.insert_language i18nContent "es" hello_es
    = (before ++ Patterns.new_entry "es" ++ "}" ++ after)%string
    /\ includes (Patterns.insert_language i18nContent "es" hello_es)
         (declaration "es" (JObj hello_es)) = true
    /\ option_map matched
         (langRegex_exec "es" (Patterns.insert_language i18nContent "es" hello_es))
       = Some (declaration "es" (JObj hello_es)).
Proof.
  destruct (Patterns.exec Patterns.declaration_here "" i18nContent) as [m1|] eqn:E1;
    [|vm_compute in E1; discriminate].
  destruct (Patterns.exec Patterns.resources_here ""
              (Patterns.with_declaration i18nContent "es" hello_es)) as [m2|] eqn:E2;
    [|vm_compute in E2; discriminate].
  destruct (insert_language_adds_a_declaration_and_an_entry i18nContent "es" hello_es
              m1 m2 E1 E2 eq_refl eq_refl)
    as [first [name [body [gap [entries [lead [inner [comma [blanks Hall]]]]]]]]].
  assert (Hfinal : Patterns.insert_language i18nContent "es" hello_es
                   = (Patterns.f_before m2 ++ entries ++ Patterns.new_entry "es" ++ "}"
                      ++ Patterns.f_after m2)%string) by apply Hall.
  exists (Patterns.f_before m2 ++ entries)%string, (Patterns.f_after m2).
  split; [rewrite Hfinal; now rewrite !append_assoc|].
  split; vm_compute; reflexivity.
Defined.

Lemma updateTranslations_without_a_place_for_the_language_witness :
  updatedContent eval_json_body Patterns.insert_language plain_module "es" hello_es false
  = plain_module
  /\ exists d',
       updateTranslations eval_json_body Patterns.insert_language calm project hello_es
         "es" false (disk_with plain_module) = (d', Ok true)
       /\ files d' "src/i18n.js" = Some plain_module.
Proof.
  destruct (updateTranslations_without_a_place_for_the_language eval_json_body calm project
              hello_es "es" false (disk_with plain_module) plain_module
              eq_refl eq_refl eq_refl eq_refl) as [Hupd Hrun].
  split; [exact Hupd|].
  destruct (Hrun eq_refl eq_refl eq_refl) as [d' [Hd' [Hfile _]]].
  exists d'. split; [exact Hd' | exact Hfile].
Defined.

Lemma updateUI_leaves_plain_files_alone_witness :
  files (fst (UiUpdate.updateUI path_join as_given "pkg" willing enoent with_a_module
                module_disk)) "proj/src/answer.js"
  = Some plain_module.
Proof.
  exact (updateUI_leaves_plain_files_alone path_join as_given "pkg" willing enoent
           with_a_module module_disk "proj/src/answer.js" plain_module
           eq_refl eq_refl eq_refl (or_introl eq_refl)).
Defined.

Lemma restyle_flags_every_change_witness :
  fst (UiUpdate.restyle plain_module) = plain_module.
Proof. exact (restyle_flags_every_change plain_module eq_refl). Defined.

Lemma add_import_puts_the_style_sheet_after_the_first_import_witness :
  UiUpdate.add_import app_module
  = ("import React from 'react';" ++ UiUpdate.css_import ++ newline
     ++ "export default App;")%string
  /\ includes (UiUpdate.add_import app_module) "ResponsiveLanguage.css" = true.
Proof.
  destruct (Patterns.exec UiUpdate.import_here "" app_module) as [m|] eqn:E;
    [|vm_compute in E; discriminate].
  destruct (add_import_puts_the_style_sheet_after_the_first_import app_module m E)
    as [statement [blanks [b1 [what [b2 [b3 [q1 [source [q2 H]]]]]]]]].
  split; [vm_compute; reflexivity | apply H].
Defined.

End Instances.
